(** * The trace agent's processing core

    A shallow embedding of [Agent.Process], [Agent.ProcessStats],
    [Agent.sample], [Agent.runSamplers], [Agent.samplePriorityTrace],
    [Agent.sampleNoPriorityTrace] and [traceContainsError] of package
    [agent], together with the generated [pb.ClientStatsPayload] family of
    package [pb] and the code of its wire format: [Size], [MarshalTo],
    [Marshal] and [Unmarshal] of the three messages, and the helpers
    [sovStats], [sozStats], [encodeVarintStats], [encodeFixed64Stats],
    [encodeFixed32Stats] and [skipStats].

    Conventions of the embedding:
    - Go's [int64] and [int] (64 bits) are [Z] with the wrap-around of
      two's complement written out ([wrap64]); [uint64] and [uint32] are
      [Z] as well.
    - [float64] is IEEE 754 binary64 ([spec_float] with 53 bits of
      precision), conversions and arithmetic round to nearest even.
    - A [*pb.Span] that points into a trace is the position of that span in
      the trace; mutating a span in place is an update of the trace at that
      position.
    - The agent's channels are the lists of the values sent on them, oldest
      first.
    - The samplers and the event processor are handed the spans of the
      trace. In the embedding they answer with their decision, their rate
      and their events and hand no trace back: the trace is taken to be as
      they found it, and an event is the span as it was when extracted.
    - The packages [filters], [obfuscate], [sampler], [stats], [traceutil],
      [event], [writer] and [info] are collaborators of the agent: what the
      agent calls in them is gathered in the class [Collaborators]. *)

From Stdlib Require Import ZArith List Bool SpecFloat Strings.Byte.
From stdpp Require Import gmap strings list fin_maps pretty.

Local Open Scope Z_scope.

(** ** Machine numbers *)

(** Two's complement wrap-around of a 64-bit signed integer. *)
Definition wrap64 (z : Z) : Z := (z + 2 ^ 63) mod 2 ^ 64 - 2 ^ 63.

(** [a + b] on [int64] (and on [int], 64 bits wide). *)
Definition add64 (a b : Z) : Z := wrap64 (a + b).

(** [int64(len(x))]. *)
Definition len {A} (l : list A) : Z := Z.of_nat (length l).

(** IEEE 754 binary64. *)
Definition float64 : Type := spec_float.
Definition prec : Z := 53.
Definition emax : Z := 1024.

(** [float64(n)] for an integer [n]. *)
Definition float64_of_Z (n : Z) : float64 := binary_normalize prec emax n 0 false.

Definition f64_one : float64 := float64_of_Z 1.
Definition f64_add : float64 -> float64 -> float64 := SFadd prec emax.
Definition f64_sub : float64 -> float64 -> float64 := SFsub prec emax.
Definition f64_div : float64 -> float64 -> float64 := SFdiv prec emax.

(** ** Data model *)

(** Modelled from the spec: [pb.Span], whose declaration is not among the
    sources; section 3 lists service, name, resource, start and duration,
    the error flag, the string tags and the numeric metrics. *)
Record Span := {
  Span_Service : string;
  Span_Name : string;
  Span_Resource : string;
  Span_Start : Z;
  Span_Duration : Z;
  Span_Error : Z;
  Span_Meta : gmap string string;
  Span_Metrics : gmap string float64
}.

(** [pb.Trace], a slice of span pointers. *)
Abbreviation Trace := (list Span).

Definition nilSpan : Span :=
  {| Span_Service := ""; Span_Name := ""; Span_Resource := "";
     Span_Start := 0; Span_Duration := 0; Span_Error := 0;
     Span_Meta := ∅; Span_Metrics := ∅ |}.

(** Dereference of the span pointer at position [i] of [t]. *)
Definition deref (t : Trace) (i : nat) : Span := nth i t nilSpan.

(** In-place mutation, by [f], of the span at position [i] of [t]. *)
Definition mutate (f : Span -> Span) (i : nat) (t : Trace) : Trace := alter f i t.

(** [pb.ClientGroupedStats]. *)
Record ClientGroupedStats := {
  CGS_Service : string;
  CGS_Name : string;
  CGS_Resource : string;
  CGS_HTTPStatusCode : Z;
  CGS_Type : string;
  CGS_DBType : string;
  CGS_Hits : Z;
  CGS_Errors : Z;
  CGS_Duration : Z
}.

(** [pb.ClientStatsBucket]. *)
Record ClientStatsBucket := {
  CSB_Start : Z;
  CSB_Duration : Z;
  CSB_Stats : list ClientGroupedStats
}.

(** [pb.ClientStatsPayload]. *)
Record ClientStatsPayload := {
  CSP_Hostname : string;
  CSP_Env : string;
  CSP_Version : string;
  CSP_Stats : list ClientStatsBucket
}.

(** The counters of [info.TagStats] that the agent updates. *)
Record TagStats := {
  SpansReceived : Z;
  SpansDropped : Z;
  TracesFiltered : Z;
  SpansFiltered : Z;
  TracesPriorityNone : Z;
  TracesPriorityNeg : Z;
  TracesPriority0 : Z;
  TracesPriority1 : Z;
  TracesPriority2 : Z;
  EventsExtracted : Z;
  EventsSampled : Z
}.

(** The address of a counter of a [TagStats], as in [&ts.TracesPriorityNone]. *)
Inductive Counter :=
| addr_SpansReceived | addr_SpansDropped | addr_TracesFiltered | addr_SpansFiltered
| addr_TracesPriorityNone | addr_TracesPriorityNeg | addr_TracesPriority0
| addr_TracesPriority1 | addr_TracesPriority2 | addr_EventsExtracted | addr_EventsSampled.

Definition load (c : Counter) (ts : TagStats) : Z :=
  match c with
  | addr_SpansReceived => SpansReceived ts
  | addr_SpansDropped => SpansDropped ts
  | addr_TracesFiltered => TracesFiltered ts
  | addr_SpansFiltered => SpansFiltered ts
  | addr_TracesPriorityNone => TracesPriorityNone ts
  | addr_TracesPriorityNeg => TracesPriorityNeg ts
  | addr_TracesPriority0 => TracesPriority0 ts
  | addr_TracesPriority1 => TracesPriority1 ts
  | addr_TracesPriority2 => TracesPriority2 ts
  | addr_EventsExtracted => EventsExtracted ts
  | addr_EventsSampled => EventsSampled ts
  end.

Definition store (c : Counter) (v : Z) (ts : TagStats) : TagStats :=
  let '{| SpansReceived := a; SpansDropped := b; TracesFiltered := d; SpansFiltered := e;
          TracesPriorityNone := f; TracesPriorityNeg := g; TracesPriority0 := h;
          TracesPriority1 := i; TracesPriority2 := j; EventsExtracted := k;
          EventsSampled := l |} := ts in
  match c with
  | addr_SpansReceived => Build_TagStats v b d e f g h i j k l
  | addr_SpansDropped => Build_TagStats a v d e f g h i j k l
  | addr_TracesFiltered => Build_TagStats a b v e f g h i j k l
  | addr_SpansFiltered => Build_TagStats a b d v f g h i j k l
  | addr_TracesPriorityNone => Build_TagStats a b d e v g h i j k l
  | addr_TracesPriorityNeg => Build_TagStats a b d e f v h i j k l
  | addr_TracesPriority0 => Build_TagStats a b d e f g v i j k l
  | addr_TracesPriority1 => Build_TagStats a b d e f g h v j k l
  | addr_TracesPriority2 => Build_TagStats a b d e f g h i v k l
  | addr_EventsExtracted => Build_TagStats a b d e f g h i j v l
  | addr_EventsSampled => Build_TagStats a b d e f g h i j k v
  end.

(** [atomic.AddInt64(c, n)] on the counters of one [TagStats]. *)
Definition AddInt64 (c : Counter) (n : Z) (ts : TagStats) : TagStats :=
  store c (add64 (load c ts) n) ts.

(** [stats.Subtrace]: the root of a subtrace and its spans, all pointers into
    the trace they were extracted from. *)
Record Subtrace := {
  Subtrace_Root : nat;
  Subtrace_Trace : list nat
}.

(** The agent's three [*Sampler] fields. *)
Inductive SamplerField := ScoreSampler | ErrorsScoreSampler | PrioritySampler.

(** What a spy put in the place of the collaborators would record: the calls
    the agent makes to the normaliser, the filters, the samplers and the
    event processor, with the span or trace each call is given. *)
Inductive Call :=
| call_normalizeTrace (t : Trace)
| call_Allows (root : Span)
| call_Obfuscate (span : Span)
| call_Truncate (span : Span)
| call_Replace (t : Trace)
| call_Sampler_Add (s : SamplerField) (t : Trace)
| call_ExceptionSampler_Add (t : Trace)
| call_EventProcessor_Process (root : Span) (t : Trace).

(** ** Data of the collaborators

    The types the agent only passes along: [stats.WeightedTrace],
    [stats.SublayerValue], [pb.APITrace] and [stats.TagSet]. *)
Class Data := {
  WeightedTrace : Type;
  SublayerValue : Type;
  APITraceT : Type;
  TagSet : Type
}.

Section Records.
Context `{Data}.

(** [ProcessedTrace]; [Root] points into [Trace], and [Sublayers] is keyed by
    pointers into [Trace]. *)
Record ProcessedTrace := {
  PT_Trace : Trace;
  PT_WeightedTrace : WeightedTrace;
  PT_Root : nat;
  PT_Env : string;
  PT_Sublayers : gmap nat (list SublayerValue)
}.

(** [stats.Input]. *)
Record Input := {
  Input_Trace : WeightedTrace;
  Input_Sublayers : gmap nat (list SublayerValue);
  Input_Env : string;
  Input_SublayersOnly : bool
}.

(** [writer.SampledSpans]. *)
Record SampledSpans := {
  SS_Traces : list APITraceT;
  SS_Events : list Span;
  SS_Size : Z;
  SS_SpanCount : Z
}.

(** [new(writer.SampledSpans)]. *)
Definition new_SampledSpans : SampledSpans :=
  {| SS_Traces := []; SS_Events := []; SS_Size := 0; SS_SpanCount := 0 |}.

(** [stats.Count]. *)
Record Count := {
  Count_Key : string;
  Count_Name : string;
  Count_Measure : string;
  Count_TagSet : TagSet;
  Count_TopLevel : float64;
  Count_Value : float64
}.

(** [stats.Bucket]. *)
Record Bucket := {
  Bucket_Start : Z;
  Bucket_Duration : Z;
  Bucket_Counts : gmap string Count
}.

(** [stats.Payload]. *)
Record StatsPayload := {
  SP_HostName : string;
  SP_Env : string;
  SP_Stats : list Bucket
}.

(** [api.Payload]. Its [Source] points to a [TagStats] of the receiver,
    which is kept in the [World] below. *)
Record Payload := {
  Payload_Traces : list Trace;
  Payload_ContainerTags : string;
  Payload_ClientComputedTopLevel : bool;
  Payload_ClientComputedStats : bool
}.

End Records.

(** ** Collaborators

    What the agent calls in the packages that are not part of it. The
    samplers and the event processor are objects with a state of their own;
    the filters, the setters of package [sampler] and the helpers of
    package [traceutil] act on the span or trace they are handed (in place,
    hence the span or trace they return); [normalizeTrace] is handed the
    [TagStats] as well. *)
Class Collaborators `{Data} := {
  (** the state of a [*Sampler], of the [*sampler.ExceptionSampler] and of
      the [*event.Processor] *)
  SamplerSt : Type;
  ExceptionSamplerSt : Type;
  EventProcessorSt : Type;
  (** package agent: normalize.go, truncate.go, sampler.go *)
  agent_normalizeTrace : TagStats -> Trace -> TagStats * Trace * option string;
  agent_Truncate : Span -> Span;
  agent_Sampler_Add : SamplerSt -> ProcessedTrace -> (bool * float64) * SamplerSt;
  agent_normalizeStatsGroup : ClientGroupedStats -> string -> ClientGroupedStats;
  (** package filters *)
  filters_Allows : Span -> bool;
  filters_Replace : Trace -> Trace;
  filters_ReplaceStatsGroup : ClientGroupedStats -> ClientGroupedStats;
  (** package obfuscate *)
  obfuscate_Obfuscate : Span -> Span;
  obfuscate_ObfuscateStatsGroup : ClientGroupedStats -> ClientGroupedStats;
  (** package sampler *)
  GetSamplingPriority : Span -> Z * bool;
  GetGlobalRate : Span -> float64;
  SetClientRate : Span -> float64 -> Span;
  SetPreSampleRate : Span -> float64 -> Span;
  AddGlobalRate : Span -> float64 -> Span;
  sampler_ExceptionSampler_Add :
    ExceptionSamplerSt -> string -> Span -> Trace -> bool * ExceptionSamplerSt;
  (** package event *)
  event_Process : EventProcessorSt -> Span -> Trace -> (list Span * Z) * EventProcessorSt;
  (** package traceutil *)
  GetRoot : Trace -> nat;
  SetMeta : Span -> string -> string -> Span;
  ComputeTopLevel : Trace -> Trace;
  GetEnv : Trace -> string;
  APITrace : Trace -> APITraceT;
  NormalizeTag : string -> string;
  (** package pb: the generated [Msgsize] of [pb.Trace] *)
  Msgsize : Trace -> Z;
  (** package stats *)
  NewWeightedTrace : Trace -> nat -> WeightedTrace;
  ExtractSubtraces : Trace -> nat -> list Subtrace;
  ComputeSublayers : Trace -> list SublayerValue;
  SetSublayersOnSpan : Span -> list SublayerValue -> Span;
  AssembleGrain : string -> string -> string -> gmap string string -> string * TagSet;
  GrainKey : string -> string -> string -> string;
  HITS : string;
  ERRORS : string;
  DURATION : string;
  (** package writer *)
  MaxPayloadSize : Z
}.

(** Modelled from the spec: [sampler.CombineRates], which is not among the
    sources; section 4.2 has the rates of two samplers that both apply
    combine as [1 / (1/r1 + 1/r2 - 1)]. *)
Definition CombineRates (rate1 rate2 : float64) : float64 :=
  f64_div f64_one
    (f64_sub (f64_add (f64_div f64_one rate1) (f64_div f64_one rate2)) f64_one).

(** [tagContainersTags]. *)
Definition tagContainersTags : string := "_dd.tags.container".

(** [traceContainsError]. *)
Fixpoint traceContainsError (trace : Trace) : bool :=
  match trace with
  | [] => false
  | span :: rest => if Span_Error span =? 0 then traceContainsError rest else true
  end.

(** ** The agent *)

Section Agent.
Context `{Collaborators}.

(** The [Agent] and what it shares with the receiver and the writers: the
    state of its samplers and of its event processor, the receiver's rate
    limiter and the [TagStats] that [p.Source] points to, the default
    environment of the configuration, the channels [TraceWriter.In],
    [Concentrator.In] and [OutStats], and the calls made so far. *)
Record World := {
  a_ScoreSampler : SamplerSt;
  a_ErrorsScoreSampler : SamplerSt;
  a_PrioritySampler : SamplerSt;
  a_ExceptionSampler : ExceptionSamplerSt;
  a_EventProcessor : EventProcessorSt;
  RateLimiter_Active : bool;
  RateLimiter_RealRate : float64;
  conf_DefaultEnv : string;
  TraceWriter_In : list SampledSpans;
  Concentrator_In : list (list Input);
  OutStats : list StatsPayload;
  Source : TagStats;
  calls : list Call
}.

Definition set_Sampler (s : SamplerField) (v : SamplerSt) (w : World) : World :=
  let '(Build_World sc er pr ex ev ra rr de tw co os ts cs) := w in
  match s with
  | ScoreSampler => Build_World v er pr ex ev ra rr de tw co os ts cs
  | ErrorsScoreSampler => Build_World sc v pr ex ev ra rr de tw co os ts cs
  | PrioritySampler => Build_World sc er v ex ev ra rr de tw co os ts cs
  end.

Definition get_Sampler (s : SamplerField) (w : World) : SamplerSt :=
  match s with
  | ScoreSampler => a_ScoreSampler w
  | ErrorsScoreSampler => a_ErrorsScoreSampler w
  | PrioritySampler => a_PrioritySampler w
  end.

Definition set_ExceptionSampler (v : ExceptionSamplerSt) (w : World) : World :=
  let '(Build_World sc er pr ex ev ra rr de tw co os ts cs) := w in
  Build_World sc er pr v ev ra rr de tw co os ts cs.

Definition set_EventProcessor (v : EventProcessorSt) (w : World) : World :=
  let '(Build_World sc er pr ex ev ra rr de tw co os ts cs) := w in
  Build_World sc er pr ex v ra rr de tw co os ts cs.

Definition set_TraceWriter_In (v : list SampledSpans) (w : World) : World :=
  let '(Build_World sc er pr ex ev ra rr de tw co os ts cs) := w in
  Build_World sc er pr ex ev ra rr de v co os ts cs.

Definition set_Concentrator_In (v : list (list Input)) (w : World) : World :=
  let '(Build_World sc er pr ex ev ra rr de tw co os ts cs) := w in
  Build_World sc er pr ex ev ra rr de tw v os ts cs.

Definition set_OutStats (v : list StatsPayload) (w : World) : World :=
  let '(Build_World sc er pr ex ev ra rr de tw co os ts cs) := w in
  Build_World sc er pr ex ev ra rr de tw co v ts cs.

Definition set_Source (v : TagStats) (w : World) : World :=
  let '(Build_World sc er pr ex ev ra rr de tw co os ts cs) := w in
  Build_World sc er pr ex ev ra rr de tw co os v cs.

Definition set_calls (v : list Call) (w : World) : World :=
  let '(Build_World sc er pr ex ev ra rr de tw co os ts cs) := w in
  Build_World sc er pr ex ev ra rr de tw co os ts v.

(** *** Computations that act on the world *)

Definition M (A : Type) : Type := World -> A * World.

Definition ret {A} (a : A) : M A := fun w => (a, w).

Definition bind {A B} (c : M A) (k : A -> M B) : M B :=
  fun w => let (a, w') := c w in k a w'.

Notation "'let*' x ':=' c 'in' k" := (bind c (fun x => k))
  (at level 10, x pattern, c at level 100, k at level 200, only parsing).

Definition gets {A} (f : World -> A) : M A := fun w => (f w, w).

Definition record (c : Call) : M unit := fun w => (tt, set_calls (calls w ++ [c]) w).

(** [atomic.AddInt64(&ts.c, n)]. *)
Definition atomic_AddInt64 (c : Counter) (n : Z) : M unit :=
  fun w => (tt, set_Source (AddInt64 c n (Source w)) w).

(** [a.TraceWriter.In <- ss]. *)
Definition TraceWriter_In_send (ss : SampledSpans) : M unit :=
  fun w => (tt, set_TraceWriter_In (TraceWriter_In w ++ [ss]) w).

(** [a.Concentrator.In <- sinputs]. *)
Definition Concentrator_In_send (sinputs : list Input) : M unit :=
  fun w => (tt, set_Concentrator_In (Concentrator_In w ++ [sinputs]) w).

(** [a.OutStats <- &out]. *)
Definition OutStats_send (out : StatsPayload) : M unit :=
  fun w => (tt, set_OutStats (OutStats w ++ [out]) w).

(** *** Calls to the collaborators *)

(** [normalizeTrace(p.Source, t)]: the error, and the trace as normalised in
    place. *)
Definition normalizeTrace (t : Trace) : M (Trace * option string) :=
  let* _ := record (call_normalizeTrace t) in
  fun w => let '(ts, t', err) := agent_normalizeTrace (Source w) t in
           ((t', err), set_Source ts w).

(** [a.Blacklister.Allows(root)]. *)
Definition Blacklister_Allows (root : Span) : M bool :=
  let* _ := record (call_Allows root) in
  ret (filters_Allows root).

(** [a.obfuscator.Obfuscate(span)]. *)
Definition obfuscator_Obfuscate (span : Span) : M Span :=
  let* _ := record (call_Obfuscate span) in
  ret (obfuscate_Obfuscate span).

(** [Truncate(span)]. *)
Definition Truncate (span : Span) : M Span :=
  let* _ := record (call_Truncate span) in
  ret (agent_Truncate span).

(** [a.Replacer.Replace(t)]. *)
Definition Replacer_Replace (t : Trace) : M Trace :=
  let* _ := record (call_Replace t) in
  ret (filters_Replace t).

(** [a.ScoreSampler.Add(pt)], [a.ErrorsScoreSampler.Add(pt)] and
    [a.PrioritySampler.Add(pt)]. *)
Definition Sampler_Add (s : SamplerField) (pt : ProcessedTrace) : M (bool * float64) :=
  let* _ := record (call_Sampler_Add s (PT_Trace pt)) in
  fun w => let (r, st) := agent_Sampler_Add (get_Sampler s w) pt in
           (r, set_Sampler s st w).

(** [a.ExceptionSampler.Add(env, root, t)]. *)
Definition ExceptionSampler_Add (env : string) (root : nat) (t : Trace) : M bool :=
  let* _ := record (call_ExceptionSampler_Add t) in
  fun w => let (r, st) := sampler_ExceptionSampler_Add (a_ExceptionSampler w) env (deref t root) t in
           (r, set_ExceptionSampler st w).

(** [a.EventProcessor.Process(root, t)]. *)
Definition EventProcessor_Process (root : nat) (t : Trace) : M (list Span * Z) :=
  let* _ := record (call_EventProcessor_Process (deref t root) t) in
  fun w => let (r, st) := event_Process (a_EventProcessor w) (deref t root) t in
           (r, set_EventProcessor st w).

(** *** Sampling *)

(** [Agent.samplePriorityTrace]. *)
Definition samplePriorityTrace (pt : ProcessedTrace) : M (bool * float64) :=
  let* (sampledPriority, ratePriority) := Sampler_Add PrioritySampler pt in
  if traceContainsError (PT_Trace pt) then
    let* (sampledError, rateError) := Sampler_Add ErrorsScoreSampler pt in
    ret (sampledError || sampledPriority, CombineRates ratePriority rateError)
  else
    let* sampled := ExceptionSampler_Add (PT_Env pt) (PT_Root pt) (PT_Trace pt) in
    if sampled then ret (sampled, f64_one)
    else ret (sampledPriority, ratePriority).

(** [Agent.sampleNoPriorityTrace]. *)
Definition sampleNoPriorityTrace (pt : ProcessedTrace) : M (bool * float64) :=
  if traceContainsError (PT_Trace pt) then Sampler_Add ErrorsScoreSampler pt
  else Sampler_Add ScoreSampler pt.

(** [Agent.runSamplers]. *)
Definition runSamplers (pt : ProcessedTrace) (hasPriority : bool) : M (bool * float64) :=
  if hasPriority then samplePriorityTrace pt else sampleNoPriorityTrace pt.

(** The counter that [Agent.sample] picks for a trace. *)
Definition priorityCounter (priority : Z) (hasPriority : bool) : Counter :=
  if hasPriority then
    if priority <? 0 then addr_TracesPriorityNeg
    else if priority =? 0 then addr_TracesPriority0
    else if priority =? 1 then addr_TracesPriority1
    else addr_TracesPriority2
  else addr_TracesPriorityNone.

(** [Agent.sample]: the events, the decision, and the trace of [pt] as the
    call leaves it (the root of a sampled trace is given the rate). *)
Definition sample (pt : ProcessedTrace) : M (list Span * bool * Trace) :=
  let (priority, hasPriority) := GetSamplingPriority (deref (PT_Trace pt) (PT_Root pt)) in
  let stat := priorityCounter priority hasPriority in
  let* _ := atomic_AddInt64 stat 1 in
  if priority <? 0 then ret ([], false, PT_Trace pt)
  else
    let* (sampled, rate) := runSamplers pt hasPriority in
    let t := if sampled then mutate (fun root => AddGlobalRate root rate) (PT_Root pt) (PT_Trace pt)
             else PT_Trace pt in
    let* (events, numExtracted) := EventProcessor_Process (PT_Root pt) t in
    let* _ := atomic_AddInt64 addr_EventsExtracted numExtracted in
    let* _ := atomic_AddInt64 addr_EventsSampled (len events) in
    ret (events, sampled, t).

(** *** Processing a payload *)

(** [for _, span := range t { a.obfuscator.Obfuscate(span); Truncate(span) }]. *)
Fixpoint sanitize (t : Trace) : M Trace :=
  match t with
  | [] => ret []
  | span :: rest =>
      let* span := obfuscator_Obfuscate span in
      let* span := Truncate span in
      let* rest := sanitize rest in
      ret (span :: rest)
  end.

(** The block of [Agent.Process] that sets up the tags of the root. *)
Definition setRootTags (p : Payload) (root : nat) (t : Trace) : M Trace :=
  let clientSampleRate := GetGlobalRate (deref t root) in
  let t := mutate (fun s => SetClientRate s clientSampleRate) root t in
  let* active := gets RateLimiter_Active in
  let* rate := gets RateLimiter_RealRate in
  let t := if active
           then mutate (fun s => AddGlobalRate s rate) root
                  (mutate (fun s => SetPreSampleRate s rate) root t)
           else t in
  ret (if decide (Payload_ContainerTags p = "") then t
       else mutate (fun s => SetMeta s tagContainersTags (Payload_ContainerTags p)) root t).

(** The loop of [Agent.Process] over the subtraces: the trace and
    [pt.Sublayers] after it. *)
Fixpoint sublayersLoop (keep : bool) (subtraces : list Subtrace)
    (t : Trace) (sublayers : gmap nat (list SublayerValue))
  : Trace * gmap nat (list SublayerValue) :=
  match subtraces with
  | [] => (t, sublayers)
  | subtrace :: rest =>
      let subtraceSublayers := ComputeSublayers (map (deref t) (Subtrace_Trace subtrace)) in
      let sublayers := <[Subtrace_Root subtrace := subtraceSublayers]> sublayers in
      let t := if keep
               then mutate (fun s => SetSublayersOnSpan s subtraceSublayers) (Subtrace_Root subtrace) t
               else t in
      sublayersLoop keep rest t sublayers
  end.

(** The end of an iteration of [Agent.Process]: the sampled trace and the
    events join the batch [ss]. *)
Definition appendSampled (ss : SampledSpans) (keep : bool) (t : Trace) (events : list Span)
  : SampledSpans :=
  let ss := if keep
            then {| SS_Traces := SS_Traces ss ++ [APITrace t];
                    SS_Events := SS_Events ss;
                    SS_Size := add64 (SS_Size ss) (Msgsize t);
                    SS_SpanCount := add64 (SS_SpanCount ss) (len t) |}
            else ss in
  if 0 <? len events
  then {| SS_Traces := SS_Traces ss;
          SS_Events := SS_Events ss ++ events;
          SS_Size := add64 (SS_Size ss) (Msgsize events);
          SS_SpanCount := SS_SpanCount ss |}
  else ss.

(** [if ss.Size > writer.MaxPayloadSize { a.TraceWriter.In <- ss; ss = new(writer.SampledSpans) }]. *)
Definition flushIfFull (ss : SampledSpans) : M SampledSpans :=
  if MaxPayloadSize <? SS_Size ss
  then let* _ := TraceWriter_In_send ss in ret new_SampledSpans
  else ret ss.

(** The iteration of [Agent.Process] from the sanitization steps on, for a
    trace [t] of root [root] that the blacklist allows. *)
Definition processAllowed (p : Payload) (ss : SampledSpans) (sinputs : list Input)
    (root : nat) (t : Trace) : M (SampledSpans * list Input) :=
  let* t := sanitize t in
  let* t := Replacer_Replace t in
  let* t := setRootTags p root t in
  let t := if Payload_ClientComputedTopLevel p then t else ComputeTopLevel t in
  let* env := gets conf_DefaultEnv in
  let env := if decide (GetEnv t = "") then env else GetEnv t in
  let pt := {| PT_Trace := t;
               PT_WeightedTrace := NewWeightedTrace t root;
               PT_Root := root;
               PT_Env := env;
               PT_Sublayers := ∅ |} in
  let* (events, keep, t) := sample pt in
  let subtraces := ExtractSubtraces t root in
  let (t, sublayers) := sublayersLoop keep subtraces t (PT_Sublayers pt) in
  let sinputs := sinputs ++ [ {| Input_Trace := PT_WeightedTrace pt;
                                 Input_Sublayers := sublayers;
                                 Input_Env := PT_Env pt;
                                 Input_SublayersOnly := Payload_ClientComputedStats p |} ] in
  let ss := appendSampled ss keep t events in
  let* ss := flushIfFull ss in
  ret (ss, sinputs).

(** One iteration of the loop of [Agent.Process] over [p.Traces], on the
    batch [ss] and the stats inputs [sinputs] gathered so far. *)
Definition processTrace (p : Payload) (ss : SampledSpans) (sinputs : list Input) (t : Trace)
  : M (SampledSpans * list Input) :=
  if len t =? 0 then ret (ss, sinputs)
  else
    let tracen := len t in
    let* _ := atomic_AddInt64 addr_SpansReceived tracen in
    let* (t, err) := normalizeTrace t in
    match err with
    | Some _ =>
        let* _ := atomic_AddInt64 addr_SpansDropped tracen in
        ret (ss, sinputs)
    | None =>
        let root := GetRoot t in
        let* allowed := Blacklister_Allows (deref t root) in
        if negb allowed then
          let* _ := atomic_AddInt64 addr_TracesFiltered 1 in
          let* _ := atomic_AddInt64 addr_SpansFiltered tracen in
          ret (ss, sinputs)
        else processAllowed p ss sinputs root t
    end.

(** The loop of [Agent.Process] over the traces of the payload. *)
Fixpoint processTraces (p : Payload) (traces : list Trace)
    (ss : SampledSpans) (sinputs : list Input) : M (SampledSpans * list Input) :=
  match traces with
  | [] => ret (ss, sinputs)
  | t :: rest =>
      let* (ss, sinputs) := processTrace p ss sinputs t in
      processTraces p rest ss sinputs
  end.

(** [Agent.Process]. The timing of the call and the log lines are left out. *)
Definition Process (p : Payload) : M unit :=
  if len (Payload_Traces p) =? 0 then ret tt
  else
    let* (ss, sinputs) := processTraces p (Payload_Traces p) new_SampledSpans [] in
    let* _ := if 0 <? SS_Size ss then TraceWriter_In_send ss else ret tt in
    if 0 <? len sinputs then Concentrator_In_send sinputs else ret tt.

(** *** Client stats *)

(** The three in-place passes of [Agent.ProcessStats] over a group. *)
Definition sanitizeGroup (b : ClientGroupedStats) (lang : string) : ClientGroupedStats :=
  filters_ReplaceStatsGroup (obfuscate_ObfuscateStatsGroup (agent_normalizeStatsGroup b lang)).

(** [tags] of [Agent.ProcessStats]; [strconv.Itoa] is the decimal [pretty]. *)
Definition groupTags (version : string) (b : ClientGroupedStats) : gmap string string :=
  let tags : gmap string string := {[ "version" := version ]} in
  if CGS_HTTPStatusCode b =? 0 then tags
  else <[ "http.status_code" := pretty (CGS_HTTPStatusCode b) ]> tags.

(** A [stats.Count] of [Agent.ProcessStats]. *)
Definition newCount (b : ClientGroupedStats) (measure grain : string) (tagset : TagSet)
    (value : Z) : Count :=
  {| Count_Key := GrainKey (CGS_Name b) measure grain;
     Count_Name := CGS_Name b;
     Count_Measure := measure;
     Count_TagSet := tagset;
     Count_TopLevel := float64_of_Z (CGS_Hits b);
     Count_Value := float64_of_Z value |}.

(** The body of the inner loop of [Agent.ProcessStats]: the bucket [newb]
    made from the group [b] of the client bucket [group]. *)
Definition newBucket (env version lang : string) (group : ClientStatsBucket)
    (b : ClientGroupedStats) : Bucket :=
  let b := sanitizeGroup b lang in
  let tags := groupTags version b in
  let (grain, tagset) := AssembleGrain env (CGS_Resource b) (CGS_Service b) tags in
  let counts : gmap string Count := ∅ in
  let key := GrainKey (CGS_Name b) HITS grain in
  let counts := <[ key := newCount b HITS grain tagset (CGS_Hits b) ]> counts in
  let key := GrainKey (CGS_Name b) ERRORS grain in
  let counts := <[ key := newCount b ERRORS grain tagset (CGS_Errors b) ]> counts in
  let key := GrainKey (CGS_Name b) DURATION grain in
  let counts := <[ key := newCount b DURATION grain tagset (CGS_Duration b) ]> counts in
  {| Bucket_Start := wrap64 (CSB_Start group);
     Bucket_Duration := wrap64 (CSB_Duration group);
     Bucket_Counts := counts |}.

(** [in.Env] once defaulted and normalised. *)
Definition statsEnv (defaultEnv : string) (in_ : ClientStatsPayload) : string :=
  NormalizeTag (if decide (CSP_Env in_ = "") then defaultEnv else CSP_Env in_).

(** [out.Stats] at the end of the loops of [Agent.ProcessStats]. *)
Definition statsBuckets (env lang : string) (in_ : ClientStatsPayload) : list Bucket :=
  flat_map (fun group => map (newBucket env (CSP_Version in_) lang group) (CSB_Stats group))
           (CSP_Stats in_).

(** [Agent.ProcessStats]. *)
Definition ProcessStats (in_ : ClientStatsPayload) (lang : string) : M unit :=
  let* defaultEnv := gets conf_DefaultEnv in
  let env := statsEnv defaultEnv in_ in
  let out := {| SP_HostName := CSP_Hostname in_;
                SP_Env := env;
                SP_Stats := statsBuckets env lang in_ |} in
  OutStats_send out.

(** *** What the statements about [Process] are written with *)

(** The trace after the loop [for _, span := range t] of [Agent.Process]. *)
Definition sanitized (t : Trace) : Trace :=
  map (fun span => agent_Truncate (obfuscate_Obfuscate span)) t.

(** The calls that loop makes. *)
Definition sanitize_calls (t : Trace) : list Call :=
  flat_map (fun span => [call_Obfuscate span; call_Truncate (obfuscate_Obfuscate span)]) t.

(** The trace that [Agent.Process] hands to the samplers: sanitized, with
    its tags replaced, the tags of its root set up and its top-level spans
    computed. *)
Definition prepared (p : Payload) (root : nat) (t : Trace) (w : World) : Trace :=
  let t := fst (setRootTags p root (filters_Replace (sanitized t)) w) in
  if Payload_ClientComputedTopLevel p then t else ComputeTopLevel t.

(** The [ProcessedTrace] that [Agent.Process] builds of it. *)
Definition processedTrace (p : Payload) (root : nat) (t : Trace) (w : World)
  : ProcessedTrace :=
  let t := prepared p root t w in
  {| PT_Trace := t;
     PT_WeightedTrace := NewWeightedTrace t root;
     PT_Root := root;
     PT_Env := if decide (GetEnv t = "") then conf_DefaultEnv w else GetEnv t;
     PT_Sublayers := ∅ |}.

(** The [stats.Input] that [Agent.Process] makes of a processed trace once
    [sample] has answered [keep] and left the trace as [t]. *)
Definition statsInput (p : Payload) (pt : ProcessedTrace) (keep : bool) (t : Trace) : Input :=
  {| Input_Trace := PT_WeightedTrace pt;
     Input_Sublayers :=
       snd (sublayersLoop keep (ExtractSubtraces t (PT_Root pt)) t (PT_Sublayers pt));
     Input_Env := PT_Env pt;
     Input_SublayersOnly := Payload_ClientComputedStats p |}.

(** A batch whose size exceeds the ceiling of the trace writer. *)
Definition exceeds (ss : SampledSpans) : Prop := MaxPayloadSize < SS_Size ss.

(** How the world may differ after some steps of [Agent.Process]: the rate
    limiter, the configuration, [Concentrator.In] and [OutStats] are as
    before, calls have been added after the earlier ones, and batches that
    all satisfy [P] have been sent on [TraceWriter.In]. *)
Definition evolves (P : SampledSpans -> Prop) (w w' : World) : Prop :=
  RateLimiter_Active w' = RateLimiter_Active w /\
  RateLimiter_RealRate w' = RateLimiter_RealRate w /\
  conf_DefaultEnv w' = conf_DefaultEnv w /\
  Concentrator_In w' = Concentrator_In w /\
  OutStats w' = OutStats w /\
  (exists cs, calls w' = calls w ++ cs) /\
  (exists batches, TraceWriter_In w' = TraceWriter_In w ++ batches /\ Forall P batches).

(** A computation all of whose runs are such steps. *)
Definition respects (P : SampledSpans -> Prop) {A} (c : M A) : Prop :=
  forall w, evolves P w (snd (c w)).

End Agent.

(** ** A concrete set of collaborators

    Small stand-ins for the collaborators, on which the agent can be run:
    the samplers answer what their state holds and count their calls, the
    obfuscator rewrites the digits-bearing resource of the example, the
    blacklist rejects by resource, the normaliser rejects spans without a
    name. *)
Module Demo.

#[export] Instance data : Data := {
  WeightedTrace := Trace;
  SublayerValue := string;
  APITraceT := Trace;
  TagSet := gmap string string
}.

(** The integer part of a float, for the priority kept in the metrics. *)
Definition Z_of_float64 (f : float64) : Z :=
  match f with
  | S754_finite s m e =>
      let v := if 0 <=? e then Z.pos m * 2 ^ e else Z.pos m / 2 ^ (- e) in
      if s then - v else v
  | _ => 0
  end.

Definition KeySamplingPriority : string := "_sampling_priority_v1".

(** A sampler that answers [(decision, rate)] and counts its calls. *)
Definition sampler_state : Type := bool * float64 * nat.

Definition half : float64 := f64_div f64_one (float64_of_Z 2).
Definition quarter : float64 := f64_div f64_one (float64_of_Z 4).

#[export] Instance collaborators : Collaborators := {
  SamplerSt := sampler_state;
  ExceptionSamplerSt := bool * nat;
  EventProcessorSt := nat;
  agent_normalizeTrace ts t :=
    if forallb (fun s => negb (String.eqb (Span_Name s) "")) t
    then (ts, t, None) else (ts, t, Some "empty span name");
  agent_Truncate s := s;
  agent_Sampler_Add st pt := let '(d, r, n) := st in ((d, r), (d, r, S n));
  agent_normalizeStatsGroup b lang := b;
  filters_Allows s := negb (String.eqb (Span_Resource s) "GET /user/?");
  filters_Replace t := t;
  filters_ReplaceStatsGroup b := b;
  obfuscate_Obfuscate s :=
    if String.eqb (Span_Resource s) "GET /user/42"
    then {| Span_Service := Span_Service s; Span_Name := Span_Name s;
            Span_Resource := "GET /user/?"; Span_Start := Span_Start s;
            Span_Duration := Span_Duration s; Span_Error := Span_Error s;
            Span_Meta := Span_Meta s; Span_Metrics := Span_Metrics s |}
    else s;
  obfuscate_ObfuscateStatsGroup b := b;
  GetSamplingPriority s :=
    match Span_Metrics s !! KeySamplingPriority with
    | Some f => (Z_of_float64 f, true)
    | None => (0, false)
    end;
  GetGlobalRate s := f64_one;
  SetClientRate s r := s;
  SetPreSampleRate s r := s;
  AddGlobalRate s r := s;
  sampler_ExceptionSampler_Add st env root t := let '(d, n) := st in (d, (d, S n));
  event_Process st root t := (([root], 1), S st);
  GetRoot t := 0%nat;
  SetMeta s k v := s;
  ComputeTopLevel t := t;
  GetEnv t := "";
  APITrace t := t;
  NormalizeTag s := s;
  Msgsize t := 10 * len t;
  NewWeightedTrace t root := t;
  ExtractSubtraces t root := [];
  ComputeSublayers t := [];
  SetSublayersOnSpan s v := s;
  AssembleGrain env resource service tags :=
    (env +:+ "," +:+ resource +:+ "," +:+ service, tags);
  GrainKey name measure aggr := name +:+ "|" +:+ measure +:+ "|" +:+ aggr;
  HITS := "hits";
  ERRORS := "errors";
  DURATION := "duration";
  MaxPayloadSize := 25
}.

Definition ts0 : TagStats := Build_TagStats 0 0 0 0 0 0 0 0 0 0 0.

(** A world whose priority sampler answers [p], whose errors sampler answers
    [e], whose score sampler drops and whose exception sampler answers [x]. *)
Definition world (p e : bool * float64) (x : bool) : World :=
  {| a_ScoreSampler := (false, half, 0%nat);
     a_ErrorsScoreSampler := (e, 0%nat);
     a_PrioritySampler := (p, 0%nat);
     a_ExceptionSampler := (x, 0%nat);
     a_EventProcessor := 0%nat;
     RateLimiter_Active := false;
     RateLimiter_RealRate := f64_one;
     conf_DefaultEnv := "none";
     TraceWriter_In := [];
     Concentrator_In := [];
     OutStats := [];
     Source := ts0;
     calls := [] |}.

Definition span (name resource : string) (error : Z) (priority : option Z) : Span :=
  {| Span_Service := "web"; Span_Name := name; Span_Resource := resource;
     Span_Start := 0; Span_Duration := 7; Span_Error := error;
     Span_Meta := ∅;
     Span_Metrics := match priority with
                     | Some p => {[ KeySamplingPriority := float64_of_Z p ]}
                     | None => ∅
                     end |}.

Definition processed (t : Trace) : ProcessedTrace :=
  {| PT_Trace := t; PT_WeightedTrace := t; PT_Root := 0%nat; PT_Env := "none";
     PT_Sublayers := ∅ |}.

Definition payload (traces : list Trace) : Payload :=
  {| Payload_Traces := traces; Payload_ContainerTags := "";
     Payload_ClientComputedTopLevel := false; Payload_ClientComputedStats := false |}.

(** A trace whose resource the obfuscator rewrites into one that the
    blacklist rejects, a trace that the blacklist rejects as it comes, a
    trace that the normaliser rejects, and one with an error span. *)
Definition userTrace : Trace := [span "http.request" "GET /user/42" 0 (Some 1)].
Definition invalidTrace : Trace := [span "" "GET /" 0 (Some 1)].
Definition errorTrace : Trace := [span "http.request" "GET /" 1 None].
Definition negativeTrace : Trace := [span "http.request" "GET /" 0 (Some (-1))].

(** The client stats of the end-to-end scenario of the spec. *)
Definition clientGroup : ClientGroupedStats :=
  {| CGS_Service := "S"; CGS_Name := "N"; CGS_Resource := "R"; CGS_HTTPStatusCode := 0;
     CGS_Type := ""; CGS_DBType := ""; CGS_Hits := 10; CGS_Errors := 2;
     CGS_Duration := 500 |}.

Definition clientBucket : ClientStatsBucket :=
  {| CSB_Start := 0; CSB_Duration := 10; CSB_Stats := [clientGroup] |}.

Definition clientStats : ClientStatsPayload :=
  {| CSP_Hostname := "host"; CSP_Env := ""; CSP_Version := "1"; CSP_Stats := [clientBucket] |}.


End Demo.


(** ** What the further statements are written with *)

Global Instance Counter_eq_dec : EqDecision Counter.
Proof. solve_decision. Defined.

(** The five counters among which [Agent.sample] picks one for a trace. *)
Definition priorityCounters : list Counter :=
  [addr_TracesPriorityNone; addr_TracesPriorityNeg; addr_TracesPriority0;
   addr_TracesPriority1; addr_TracesPriority2].

(** ** The wire format of the client stats

    The hand-rolled protocol buffer code of package [pb] (stats.pb.go):
    [Size], [MarshalTo], [Marshal] and [Unmarshal] of the three messages,
    with [sovStats], [sozStats], [encodeVarintStats], [encodeFixed64Stats],
    [encodeFixed32Stats] and [skipStats].

    A [[]byte] is a list of bytes, and an index into it a Go [int]. A write
    or a slice expression out of range panics, which is an outcome of its
    own. The loops of the Go code that no data structure bounds are given a
    number of rounds; [OutOfFuel], the outcome of a loop that used them up,
    is no outcome of the Go code. A Go [string] is the sequence of its
    bytes. *)

Inductive error :=
| ErrInvalidLengthStats
| ErrIntOverflowStats
| ErrUnexpectedEOF
| ErrEndGroup (message : string)
| ErrIllegalTag (message : string) (fieldNum wire : Z)
| ErrWrongWireType (wireType : Z) (field : string)
| ErrIllegalWireType (wireType : Z).

Inductive outcome (A : Type) :=
| Done (a : A)
| Fail (e : error)
| Panic
| OutOfFuel.

Arguments Done {A} a.
Arguments Fail {A} e.
Arguments Panic {A}.
Arguments OutOfFuel {A}.

Definition then_ {A B} (c : outcome A) (k : A -> outcome B) : outcome B :=
  match c with
  | Done a => k a
  | Fail e => Fail e
  | Panic => Panic
  | OutOfFuel => OutOfFuel
  end.

Notation "'let!' x ':=' c 'in' k" := (then_ c (fun x => k))
  (at level 10, x pattern, c at level 100, k at level 200, only parsing).

(** The value of a byte, [uint8(z)], [uint64(z)], [uint32(z)], [int32(z)];
    [int(z)] and [int64(z)] are [wrap64]. *)
Definition byteval (b : byte) : Z := Z.of_N (Byte.to_N b).

Definition uint8 (z : Z) : byte :=
  match Byte.of_N (Z.to_N (z mod 256)) with
  | Some b => b
  | None => x00
  end.

Definition to_uint64 (z : Z) : Z := z mod 2 ^ 64.
Definition to_uint32 (z : Z) : Z := z mod 2 ^ 32.
Definition to_int32 (z : Z) : Z := (z + 2 ^ 31) mod 2 ^ 32 - 2 ^ 31.

(** [len(s)] of a string. *)
Definition strlen (s : string) : Z := Z.of_nat (String.length s).

(** [data[i]], [data[i] = b] and [data[lo:hi]]; [None] stands for the panic
    of an index out of range. *)
Definition peek (data : list byte) (i : Z) : option byte :=
  if (0 <=? i) && (i <? len data) then data !! Z.to_nat i else None.

Definition poke (data : list byte) (i : Z) (b : byte) : option (list byte) :=
  if (0 <=? i) && (i <? len data) then Some (<[Z.to_nat i := b]> data) else None.

Definition slice (data : list byte) (lo hi : Z) : option (list byte) :=
  if (0 <=? lo) && (lo <=? hi) && (hi <=? len data)
  then Some (take (Z.to_nat (hi - lo)) (drop (Z.to_nat lo) data))
  else None.

(** [copy(data[i:], src)]: the buffer and the number of bytes copied. *)
Definition copy (data : list byte) (i : Z) (src : list byte) : outcome (list byte * Z) :=
  if (0 <=? i) && (i <=? len data) then
    let n := Z.min (len data - i) (len src) in
    Done (take (Z.to_nat i) data ++ take (Z.to_nat n) src ++ drop (Z.to_nat (i + n)) data, n)
  else Panic.

(** *** Varints and fixed-width integers *)

(** [sovStats]; ten rounds empty a [uint64]. *)
Fixpoint sovStats_loop (fuel : nat) (n x : Z) : Z :=
  match fuel with
  | O => n
  | S fuel =>
      let n := add64 n 1 in
      let x := Z.shiftr x 7 in
      if x =? 0 then n else sovStats_loop fuel n x
  end.

Definition sovStats (x : Z) : Z := sovStats_loop 10 0 x.

(** [sozStats]. *)
Definition sozStats (x : Z) : Z :=
  sovStats (to_uint64 (Z.lxor (to_uint64 (Z.shiftl x 1))
                              (to_uint64 (Z.shiftr (wrap64 x) 63)))).

(** [encodeVarintStats]: the buffer and the offset after the varint. *)
Fixpoint encodeVarintStats_loop (fuel : nat) (data : list byte) (offset v : Z)
  : outcome (list byte * Z) :=
  match fuel with
  | O => OutOfFuel
  | S fuel =>
      if 128 <=? v then
        match poke data offset (uint8 (Z.lor (Z.land v 127) 128)) with
        | Some data => encodeVarintStats_loop fuel data (add64 offset 1) (Z.shiftr v 7)
        | None => Panic
        end
      else
        match poke data offset (uint8 v) with
        | Some data => Done (data, add64 offset 1)
        | None => Panic
        end
  end.

Definition encodeVarintStats (data : list byte) (offset v : Z) : outcome (list byte * Z) :=
  encodeVarintStats_loop 10 data offset v.

(** [data[offset+k] = uint8(v >> (8*k))] for [k] from [from] on, [count] times. *)
Fixpoint encodeFixed (count : nat) (from : Z) (data : list byte) (offset v : Z)
  : option (list byte) :=
  match count with
  | O => Some data
  | S count =>
      match poke data (add64 offset from) (uint8 (Z.shiftr v (8 * from))) with
      | Some data => encodeFixed count (from + 1) data offset v
      | None => None
      end
  end.

(** [encodeFixed64Stats]. *)
Definition encodeFixed64Stats (data : list byte) (offset v : Z) : outcome (list byte * Z) :=
  match encodeFixed 8 0 data offset v with
  | Some data => Done (data, add64 offset 8)
  | None => Panic
  end.

(** [encodeFixed32Stats]. *)
Definition encodeFixed32Stats (data : list byte) (offset v : Z) : outcome (list byte * Z) :=
  match encodeFixed 4 0 data offset v with
  | Some data => Done (data, add64 offset 4)
  | None => Panic
  end.

(** The loop [for shift := uint(0); ; shift += 7] that reads a varint from
    [data[iNdEx]] on, into an unsigned integer of [width] bits: the value
    and the index after it. The eleventh round finds [shift >= 64]. *)
Fixpoint readVarint (fuel : nat) (width : Z) (data : list byte) (iNdEx shift acc : Z)
  : outcome (Z * Z) :=
  match fuel with
  | O => OutOfFuel
  | S fuel =>
      if 64 <=? shift then Fail ErrIntOverflowStats
      else if len data <=? iNdEx then Fail ErrUnexpectedEOF
      else
        match peek data iNdEx with
        | None => Panic
        | Some b =>
            let iNdEx := add64 iNdEx 1 in
            let acc := Z.lor acc (Z.shiftl (Z.land (byteval b) 127) shift mod 2 ^ width) in
            if byteval b <? 128 then Done (acc, iNdEx)
            else readVarint fuel width data iNdEx (shift + 7) acc
        end
  end.

Definition varint (width : Z) (data : list byte) (iNdEx : Z) : outcome (Z * Z) :=
  readVarint 11 width data iNdEx 0 0.

(** *** Sizes *)

(** [n += 1 + l + sovStats(uint64(l))]. *)
Definition sizeOfBytes (n l : Z) : Z :=
  add64 n (add64 (add64 1 l) (sovStats (to_uint64 l))).

(** The lines of [Size] for a string field and for an integer field. *)
Definition sizeString (n : Z) (s : string) : Z :=
  let l := strlen s in
  if 0 <? l then sizeOfBytes n l else n.

Definition sizeUvarint (n v : Z) : Z :=
  if v =? 0 then n else add64 n (add64 1 (sovStats (to_uint64 v))).

(** [ClientGroupedStats.Size]. *)
Definition ClientGroupedStats_Size (m : ClientGroupedStats) : Z :=
  let n := 0 in
  let n := sizeString n (CGS_Service m) in
  let n := sizeString n (CGS_Name m) in
  let n := sizeString n (CGS_Resource m) in
  let n := sizeUvarint n (CGS_HTTPStatusCode m) in
  let n := sizeString n (CGS_Type m) in
  let n := sizeString n (CGS_DBType m) in
  let n := sizeUvarint n (CGS_Hits m) in
  let n := sizeUvarint n (CGS_Errors m) in
  let n := sizeUvarint n (CGS_Duration m) in
  n.

(** [ClientStatsBucket.Size]. *)
Definition ClientStatsBucket_Size (m : ClientStatsBucket) : Z :=
  let n := 0 in
  let n := sizeUvarint n (CSB_Start m) in
  let n := sizeUvarint n (CSB_Duration m) in
  fold_left (fun n e => sizeOfBytes n (ClientGroupedStats_Size e)) (CSB_Stats m) n.

(** [ClientStatsPayload.Size]. *)
Definition ClientStatsPayload_Size (m : ClientStatsPayload) : Z :=
  let n := 0 in
  let n := sizeString n (CSP_Hostname m) in
  let n := sizeString n (CSP_Env m) in
  let n := sizeString n (CSP_Version m) in
  fold_left (fun n e => sizeOfBytes n (ClientStatsBucket_Size e)) (CSP_Stats m) n.

(** *** Marshalling *)

(** [data[i] = b; i++]. *)
Definition putByte (b : byte) (data : list byte) (i : Z) : outcome (list byte * Z) :=
  match poke data i b with
  | Some data => Done (data, add64 i 1)
  | None => Panic
  end.

(** The block of [MarshalTo] for a string field of tag [tag]. *)
Definition marshalString (tag : byte) (s : string) (data : list byte) (i : Z)
  : outcome (list byte * Z) :=
  if 0 <? strlen s then
    let! (data, i) := putByte tag data i in
    let! (data, i) := encodeVarintStats data i (to_uint64 (strlen s)) in
    let! (data, n) := copy data i (String.list_byte_of_string s) in
    Done (data, add64 i n)
  else Done (data, i).

(** The block of [MarshalTo] for an integer field of tag [tag]. *)
Definition marshalUvarint (tag : byte) (v : Z) (data : list byte) (i : Z)
  : outcome (list byte * Z) :=
  if v =? 0 then Done (data, i)
  else
    let! (data, i) := putByte tag data i in
    encodeVarintStats data i (to_uint64 v).

(** The body of the loop of [MarshalTo] over the messages of a repeated
    field of tag [tag]: [msg.MarshalTo(data[i:])] writes into the buffer
    from [i] on. *)
Definition marshalMessage {A} (tag : byte) (size : A -> Z)
    (marshalTo : A -> list byte -> outcome (list byte * Z))
    (msg : A) (data : list byte) (i : Z) : outcome (list byte * Z) :=
  let! (data, i) := putByte tag data i in
  let! (data, i) := encodeVarintStats data i (to_uint64 (size msg)) in
  match slice data i (len data) with
  | None => Panic
  | Some rest =>
      let! (rest, n) := marshalTo msg rest in
      Done (take (Z.to_nat i) data ++ rest, add64 i n)
  end.

Fixpoint marshalMessages {A} (tag : byte) (size : A -> Z)
    (marshalTo : A -> list byte -> outcome (list byte * Z))
    (msgs : list A) (data : list byte) (i : Z) : outcome (list byte * Z) :=
  match msgs with
  | [] => Done (data, i)
  | msg :: msgs =>
      let! (data, i) := marshalMessage tag size marshalTo msg data i in
      marshalMessages tag size marshalTo msgs data i
  end.

(** [ClientGroupedStats.MarshalTo]: the buffer and the number of bytes
    written. *)
Definition ClientGroupedStats_MarshalTo (m : ClientGroupedStats) (data : list byte)
  : outcome (list byte * Z) :=
  let i := 0 in
  let! (data, i) := marshalString x0a (CGS_Service m) data i in
  let! (data, i) := marshalString x12 (CGS_Name m) data i in
  let! (data, i) := marshalString x1a (CGS_Resource m) data i in
  let! (data, i) := marshalUvarint x20 (CGS_HTTPStatusCode m) data i in
  let! (data, i) := marshalString x2a (CGS_Type m) data i in
  let! (data, i) := marshalString x32 (CGS_DBType m) data i in
  let! (data, i) := marshalUvarint x38 (CGS_Hits m) data i in
  let! (data, i) := marshalUvarint x40 (CGS_Errors m) data i in
  let! (data, i) := marshalUvarint x48 (CGS_Duration m) data i in
  Done (data, i).

(** [ClientStatsBucket.MarshalTo]. *)
Definition ClientStatsBucket_MarshalTo (m : ClientStatsBucket) (data : list byte)
  : outcome (list byte * Z) :=
  let i := 0 in
  let! (data, i) := marshalUvarint x08 (CSB_Start m) data i in
  let! (data, i) := marshalUvarint x10 (CSB_Duration m) data i in
  marshalMessages x1a ClientGroupedStats_Size ClientGroupedStats_MarshalTo
    (CSB_Stats m) data i.

(** [ClientStatsPayload.MarshalTo]. *)
Definition ClientStatsPayload_MarshalTo (m : ClientStatsPayload) (data : list byte)
  : outcome (list byte * Z) :=
  let i := 0 in
  let! (data, i) := marshalString x0a (CSP_Hostname m) data i in
  let! (data, i) := marshalString x12 (CSP_Env m) data i in
  let! (data, i) := marshalString x1a (CSP_Version m) data i in
  marshalMessages x22 ClientStatsBucket_Size ClientStatsBucket_MarshalTo
    (CSP_Stats m) data i.

(** [Marshal]: [make([]byte, size)], [MarshalTo] and [data[:n]]. *)
Definition marshal {A} (size : A -> Z)
    (marshalTo : A -> list byte -> outcome (list byte * Z)) (m : A) : outcome (list byte) :=
  let size := size m in
  if size <? 0 then Panic
  else
    let data := repeat x00 (Z.to_nat size) in
    let! (data, n) := marshalTo m data in
    match slice data 0 n with
    | Some data => Done data
    | None => Panic
    end.

(** [ClientGroupedStats.Marshal], [ClientStatsBucket.Marshal] and
    [ClientStatsPayload.Marshal]. *)
Definition ClientGroupedStats_Marshal : ClientGroupedStats -> outcome (list byte) :=
  marshal ClientGroupedStats_Size ClientGroupedStats_MarshalTo.

Definition ClientStatsBucket_Marshal : ClientStatsBucket -> outcome (list byte) :=
  marshal ClientStatsBucket_Size ClientStatsBucket_MarshalTo.

Definition ClientStatsPayload_Marshal : ClientStatsPayload -> outcome (list byte) :=
  marshal ClientStatsPayload_Size ClientStatsPayload_MarshalTo.

(** *** Unmarshalling *)

(** [skipStats]: the number of bytes of the field that [data] starts with.
    A group (wire type 3) is skipped field by field, up to its end tag. *)
Fixpoint skipStats (fuel : nat) (data : list byte) : outcome Z :=
  match fuel with
  | O => OutOfFuel
  | S fuel =>
      if 0 <? len data then
        let! (wire, iNdEx) := varint 64 data 0 in
        let wireType := Z.land wire 7 in
        match wireType with
        | 0 => let! (_, iNdEx) := varint 64 data iNdEx in Done iNdEx
        | 1 => Done (add64 iNdEx 8)
        | 2 =>
            let! (length, iNdEx) := varint 64 data iNdEx in
            let length := wrap64 length in
            let iNdEx := add64 iNdEx length in
            if length <? 0 then Fail ErrInvalidLengthStats else Done iNdEx
        | 3 => skipGroup fuel data iNdEx
        | 4 => Done iNdEx
        | 5 => Done (add64 iNdEx 4)
        | _ => Fail (ErrIllegalWireType wireType)
        end
      else Panic
  end
with skipGroup (fuel : nat) (data : list byte) (iNdEx : Z) : outcome Z :=
  match fuel with
  | O => OutOfFuel
  | S fuel =>
      let start := iNdEx in
      let! (innerWire, iNdEx) := varint 64 data iNdEx in
      if Z.land innerWire 7 =? 4 then Done iNdEx
      else
        match slice data start (len data) with
        | None => Panic
        | Some rest =>
            let! next := skipStats fuel rest in
            skipGroup fuel data (add64 start next)
        end
  end.

(** The [default] case of the switch of [Unmarshal]: the index after the
    unknown field that starts at [preIndex]. *)
Definition skipField (data : list byte) (preIndex : Z) : outcome Z :=
  let iNdEx := preIndex in
  match slice data iNdEx (len data) with
  | None => Panic
  | Some rest =>
      let! skippy := skipStats (S (length rest)) rest in
      if skippy <? 0 then Fail ErrInvalidLengthStats
      else if len data <? add64 iNdEx skippy then Fail ErrUnexpectedEOF
      else Done (add64 iNdEx skippy)
  end.

(** The case of a field of length-delimited bytes: the bytes
    [data[iNdEx:postIndex]] and [postIndex]. *)
Definition readBytes (field : string) (data : list byte) (wireType iNdEx : Z)
  : outcome (list byte * Z) :=
  if negb (wireType =? 2) then Fail (ErrWrongWireType wireType field)
  else
    let! (length, iNdEx) := varint 64 data iNdEx in
    let length := wrap64 length in
    if length <? 0 then Fail ErrInvalidLengthStats
    else
      let postIndex := add64 iNdEx length in
      if len data <? postIndex then Fail ErrUnexpectedEOF
      else
        match slice data iNdEx postIndex with
        | None => Panic
        | Some bytes => Done (bytes, postIndex)
        end.

(** The case of a string field. *)
Definition readString (field : string) (data : list byte) (wireType iNdEx : Z)
  : outcome (string * Z) :=
  let! (bytes, postIndex) := readBytes field data wireType iNdEx in
  Done (String.string_of_list_byte bytes, postIndex).

(** The case of an integer field of [width] bits. *)
Definition readUvarint (width : Z) (field : string) (data : list byte) (wireType iNdEx : Z)
  : outcome (Z * Z) :=
  if negb (wireType =? 0) then Fail (ErrWrongWireType wireType field)
  else varint width data iNdEx.

(** A round of the loop [for iNdEx < l] of [Unmarshal]: the tag, then the
    switch on the field number, [fields]. *)
Definition unmarshalStep {M} (message : string)
    (fields : list byte -> M -> Z -> Z -> Z -> Z -> outcome (M * Z))
    (data : list byte) (m : M) (iNdEx : Z) : outcome (M * Z) :=
  let preIndex := iNdEx in
  let! (wire, iNdEx) := varint 64 data iNdEx in
  let fieldNum := to_int32 (Z.shiftr wire 3) in
  let wireType := Z.land wire 7 in
  if wireType =? 4 then Fail (ErrEndGroup message)
  else if fieldNum <=? 0 then Fail (ErrIllegalTag message fieldNum wire)
  else fields data m fieldNum wireType preIndex iNdEx.

(** The loop, and the test that follows it. Every round reads a byte at
    least. *)
Fixpoint unmarshalLoop {M} (fuel : nat) (message : string)
    (fields : list byte -> M -> Z -> Z -> Z -> Z -> outcome (M * Z))
    (data : list byte) (m : M) (iNdEx : Z) : outcome M :=
  if iNdEx <? len data then
    match fuel with
    | O => OutOfFuel
    | S fuel =>
        let! (m, iNdEx) := unmarshalStep message fields data m iNdEx in
        unmarshalLoop fuel message fields data m iNdEx
    end
  else if len data <? iNdEx then Fail ErrUnexpectedEOF
  else Done m.

Definition unmarshal {M} (message : string)
    (fields : list byte -> M -> Z -> Z -> Z -> Z -> outcome (M * Z))
    (data : list byte) (m : M) : outcome M :=
  unmarshalLoop (length data) message fields data m 0.

(** [ClientGroupedStats{}], and [m] with one field assigned. *)
Definition ClientGroupedStats_zero : ClientGroupedStats :=
  {| CGS_Service := ""; CGS_Name := ""; CGS_Resource := ""; CGS_HTTPStatusCode := 0;
     CGS_Type := ""; CGS_DBType := ""; CGS_Hits := 0; CGS_Errors := 0; CGS_Duration := 0 |}.

Definition CGS_set_Service (m : ClientGroupedStats) (v : string) : ClientGroupedStats :=
  let '(Build_ClientGroupedStats a b c d e f g h i) := m in
  Build_ClientGroupedStats v b c d e f g h i.
Definition CGS_set_Name (m : ClientGroupedStats) (v : string) : ClientGroupedStats :=
  let '(Build_ClientGroupedStats a b c d e f g h i) := m in
  Build_ClientGroupedStats a v c d e f g h i.
Definition CGS_set_Resource (m : ClientGroupedStats) (v : string) : ClientGroupedStats :=
  let '(Build_ClientGroupedStats a b c d e f g h i) := m in
  Build_ClientGroupedStats a b v d e f g h i.
Definition CGS_set_HTTPStatusCode (m : ClientGroupedStats) (v : Z) : ClientGroupedStats :=
  let '(Build_ClientGroupedStats a b c d e f g h i) := m in
  Build_ClientGroupedStats a b c v e f g h i.
Definition CGS_set_Type (m : ClientGroupedStats) (v : string) : ClientGroupedStats :=
  let '(Build_ClientGroupedStats a b c d e f g h i) := m in
  Build_ClientGroupedStats a b c d v f g h i.
Definition CGS_set_DBType (m : ClientGroupedStats) (v : string) : ClientGroupedStats :=
  let '(Build_ClientGroupedStats a b c d e f g h i) := m in
  Build_ClientGroupedStats a b c d e v g h i.
Definition CGS_set_Hits (m : ClientGroupedStats) (v : Z) : ClientGroupedStats :=
  let '(Build_ClientGroupedStats a b c d e f g h i) := m in
  Build_ClientGroupedStats a b c d e f v h i.
Definition CGS_set_Errors (m : ClientGroupedStats) (v : Z) : ClientGroupedStats :=
  let '(Build_ClientGroupedStats a b c d e f g h i) := m in
  Build_ClientGroupedStats a b c d e f g v i.
Definition CGS_set_Duration (m : ClientGroupedStats) (v : Z) : ClientGroupedStats :=
  let '(Build_ClientGroupedStats a b c d e f g h i) := m in
  Build_ClientGroupedStats a b c d e f g h v.

(** The switch of [ClientGroupedStats.Unmarshal]. *)
Definition ClientGroupedStats_fields (data : list byte) (m : ClientGroupedStats)
    (fieldNum wireType preIndex iNdEx : Z) : outcome (ClientGroupedStats * Z) :=
  match fieldNum with
  | 1 => let! (v, iNdEx) := readString "Service" data wireType iNdEx in
         Done (CGS_set_Service m v, iNdEx)
  | 2 => let! (v, iNdEx) := readString "Name" data wireType iNdEx in
         Done (CGS_set_Name m v, iNdEx)
  | 3 => let! (v, iNdEx) := readString "Resource" data wireType iNdEx in
         Done (CGS_set_Resource m v, iNdEx)
  | 4 => let! (v, iNdEx) := readUvarint 32 "HTTPStatusCode" data wireType iNdEx in
         Done (CGS_set_HTTPStatusCode m v, iNdEx)
  | 5 => let! (v, iNdEx) := readString "Type" data wireType iNdEx in
         Done (CGS_set_Type m v, iNdEx)
  | 6 => let! (v, iNdEx) := readString "DBType" data wireType iNdEx in
         Done (CGS_set_DBType m v, iNdEx)
  | 7 => let! (v, iNdEx) := readUvarint 64 "Hits" data wireType iNdEx in
         Done (CGS_set_Hits m v, iNdEx)
  | 8 => let! (v, iNdEx) := readUvarint 64 "Errors" data wireType iNdEx in
         Done (CGS_set_Errors m v, iNdEx)
  | 9 => let! (v, iNdEx) := readUvarint 64 "Duration" data wireType iNdEx in
         Done (CGS_set_Duration m v, iNdEx)
  | _ => let! iNdEx := skipField data preIndex in
         Done (m, iNdEx)
  end.

(** [ClientGroupedStats.Unmarshal], on the message [m] it is called on; what
    is left in [m] when an error is returned is not kept. *)
Definition ClientGroupedStats_Unmarshal (data : list byte) (m : ClientGroupedStats)
  : outcome ClientGroupedStats :=
  unmarshal "ClientGroupedStats" ClientGroupedStats_fields data m.

Definition ClientStatsBucket_zero : ClientStatsBucket :=
  {| CSB_Start := 0; CSB_Duration := 0; CSB_Stats := [] |}.

(** The switch of [ClientStatsBucket.Unmarshal]. *)
Definition ClientStatsBucket_fields (data : list byte) (m : ClientStatsBucket)
    (fieldNum wireType preIndex iNdEx : Z) : outcome (ClientStatsBucket * Z) :=
  match fieldNum with
  | 1 => let! (v, iNdEx) := readUvarint 64 "Start" data wireType iNdEx in
         Done ({| CSB_Start := v; CSB_Duration := CSB_Duration m; CSB_Stats := CSB_Stats m |},
               iNdEx)
  | 2 => let! (v, iNdEx) := readUvarint 64 "Duration" data wireType iNdEx in
         Done ({| CSB_Start := CSB_Start m; CSB_Duration := v; CSB_Stats := CSB_Stats m |},
               iNdEx)
  | 3 => let! (bytes, postIndex) := readBytes "Stats" data wireType iNdEx in
         let! e := ClientGroupedStats_Unmarshal bytes ClientGroupedStats_zero in
         Done ({| CSB_Start := CSB_Start m; CSB_Duration := CSB_Duration m;
                  CSB_Stats := CSB_Stats m ++ [e] |}, postIndex)
  | _ => let! iNdEx := skipField data preIndex in
         Done (m, iNdEx)
  end.

(** [ClientStatsBucket.Unmarshal]. *)
Definition ClientStatsBucket_Unmarshal (data : list byte) (m : ClientStatsBucket)
  : outcome ClientStatsBucket :=
  unmarshal "ClientStatsBucket" ClientStatsBucket_fields data m.

Definition ClientStatsPayload_zero : ClientStatsPayload :=
  {| CSP_Hostname := ""; CSP_Env := ""; CSP_Version := ""; CSP_Stats := [] |}.

(** The switch of [ClientStatsPayload.Unmarshal]. *)
Definition ClientStatsPayload_fields (data : list byte) (m : ClientStatsPayload)
    (fieldNum wireType preIndex iNdEx : Z) : outcome (ClientStatsPayload * Z) :=
  match fieldNum with
  | 1 => let! (v, iNdEx) := readString "Hostname" data wireType iNdEx in
         Done ({| CSP_Hostname := v; CSP_Env := CSP_Env m; CSP_Version := CSP_Version m;
                  CSP_Stats := CSP_Stats m |}, iNdEx)
  | 2 => let! (v, iNdEx) := readString "Env" data wireType iNdEx in
         Done ({| CSP_Hostname := CSP_Hostname m; CSP_Env := v; CSP_Version := CSP_Version m;
                  CSP_Stats := CSP_Stats m |}, iNdEx)
  | 3 => let! (v, iNdEx) := readString "Version" data wireType iNdEx in
         Done ({| CSP_Hostname := CSP_Hostname m; CSP_Env := CSP_Env m; CSP_Version := v;
                  CSP_Stats := CSP_Stats m |}, iNdEx)
  | 4 => let! (bytes, postIndex) := readBytes "Stats" data wireType iNdEx in
         let! e := ClientStatsBucket_Unmarshal bytes ClientStatsBucket_zero in
         Done ({| CSP_Hostname := CSP_Hostname m; CSP_Env := CSP_Env m;
                  CSP_Version := CSP_Version m; CSP_Stats := CSP_Stats m ++ [e] |}, postIndex)
  | _ => let! iNdEx := skipField data preIndex in
         Done (m, iNdEx)
  end.

(** [ClientStatsPayload.Unmarshal]. *)
Definition ClientStatsPayload_Unmarshal (data : list byte) (m : ClientStatsPayload)
  : outcome ClientStatsPayload :=
  unmarshal "ClientStatsPayload" ClientStatsPayload_fields data m.

(** *** The bytes of a message, field by field

    What the statements about [Marshal] and [Unmarshal] are written with:
    the bytes of a varint, of a field and of a message in the wire format,
    as lists that are put together, with no buffer and no bound. *)

Fixpoint varintBytes (fuel : nat) (v : Z) : list byte :=
  match fuel with
  | O => []
  | S fuel =>
      if 128 <=? v then uint8 (Z.lor (Z.land v 127) 128) :: varintBytes fuel (Z.shiftr v 7)
      else [uint8 v]
  end.

Definition wireVarint (v : Z) : list byte := varintBytes 10 v.

Definition wireString (tag : byte) (s : string) : list byte :=
  if 0 <? strlen s
  then tag :: wireVarint (strlen s) ++ String.list_byte_of_string s
  else [].

Definition wireUvarint (tag : byte) (v : Z) : list byte :=
  if v =? 0 then [] else tag :: wireVarint v.

Definition wireMessage (tag : byte) (bytes : list byte) : list byte :=
  tag :: wireVarint (len bytes) ++ bytes.

Definition ClientGroupedStats_wire (m : ClientGroupedStats) : list byte :=
  wireString x0a (CGS_Service m) ++ wireString x12 (CGS_Name m)
  ++ wireString x1a (CGS_Resource m) ++ wireUvarint x20 (CGS_HTTPStatusCode m)
  ++ wireString x2a (CGS_Type m) ++ wireString x32 (CGS_DBType m)
  ++ wireUvarint x38 (CGS_Hits m) ++ wireUvarint x40 (CGS_Errors m)
  ++ wireUvarint x48 (CGS_Duration m).

Definition ClientStatsBucket_wire (m : ClientStatsBucket) : list byte :=
  wireUvarint x08 (CSB_Start m) ++ wireUvarint x10 (CSB_Duration m)
  ++ flat_map (fun e => wireMessage x1a (ClientGroupedStats_wire e)) (CSB_Stats m).

Definition ClientStatsPayload_wire (m : ClientStatsPayload) : list byte :=
  wireString x0a (CSP_Hostname m) ++ wireString x12 (CSP_Env m)
  ++ wireString x1a (CSP_Version m)
  ++ flat_map (fun e => wireMessage x22 (ClientStatsBucket_wire e)) (CSP_Stats m).

(** The values that the Go types of the fields have. *)
Definition ClientGroupedStats_valid (m : ClientGroupedStats) : Prop :=
  0 <= CGS_HTTPStatusCode m < 2 ^ 32 /\
  0 <= CGS_Hits m < 2 ^ 64 /\
  0 <= CGS_Errors m < 2 ^ 64 /\
  0 <= CGS_Duration m < 2 ^ 64.

Definition ClientStatsBucket_valid (m : ClientStatsBucket) : Prop :=
  0 <= CSB_Start m < 2 ^ 64 /\
  0 <= CSB_Duration m < 2 ^ 64 /\
  Forall ClientGroupedStats_valid (CSB_Stats m).

Definition ClientStatsPayload_valid (m : ClientStatsPayload) : Prop :=
  Forall ClientStatsBucket_valid (CSP_Stats m).

(** The buffer [data] with [bytes] written from index [i] on. *)
Definition splice (data : list byte) (i : Z) (bytes : list byte) : list byte :=
  take (Z.to_nat i) data ++ bytes ++ drop (Z.to_nat (i + len bytes)) data.

(** A piece of [MarshalTo] that writes [bytes] at the index it is given, in
    any buffer with room for them, and returns the index after them. *)
Definition writes (w : list byte -> Z -> outcome (list byte * Z)) (bytes : list byte) : Prop :=
  forall data i,
    0 <= i -> i + len bytes <= len data -> len data < 2 ^ 63 ->
    w data i = Done (splice data i bytes, i + len bytes).

(** The loop of [Unmarshal] reads [bytes], wherever they stand in the data,
    in as many rounds as they have fields, and the message [m] becomes
    [upd m]. *)
Definition reads {M} (message : string)
    (fields : list byte -> M -> Z -> Z -> Z -> Z -> outcome (M * Z))
    (bytes : list byte) (upd : M -> M) : Prop :=
  exists n : nat,
    (n <= length bytes)%nat /\
    forall pre post m fuel,
      len (pre ++ bytes ++ post) < 2 ^ 63 ->
      unmarshalLoop (n + fuel) message fields (pre ++ bytes ++ post) m (len pre)
      = unmarshalLoop fuel message fields (pre ++ bytes ++ post) (upd m)
          (len pre + len bytes).

(** The number that [bytes] are, the least significant byte first. *)
Fixpoint littleEndian (bytes : list byte) : Z :=
  match bytes with
  | [] => 0
  | b :: bytes => byteval b + 256 * littleEndian bytes
  end.
(** ** Properties of the sampling decision *)

Section Sampling.
Context `{Collaborators}.

(** The setters of the world commute with its fields. *)
Ltac world w := destruct w; try reflexivity.

Lemma Source_set_Source (v : TagStats) (w : World) : Source (set_Source v w) = v.
Proof. world w. Qed.

Lemma TracesPriorityNeg_AddInt64 (n : Z) (ts : TagStats) :
  TracesPriorityNeg (AddInt64 addr_TracesPriorityNeg n ts) = add64 (TracesPriorityNeg ts) n.
Proof. destruct ts; reflexivity. Qed.

(** *** How the calls of the agent act on the world *)

Lemma Sampler_Add_run (s : SamplerField) (pt : ProcessedTrace) (w : World) :
  Sampler_Add s pt w =
  (fst (agent_Sampler_Add (get_Sampler s w) pt),
   set_Sampler s (snd (agent_Sampler_Add (get_Sampler s w) pt))
     (set_calls (calls w ++ [call_Sampler_Add s (PT_Trace pt)]) w)).
Proof.
  unfold Sampler_Add, bind, record. cbn.
  replace (get_Sampler s (set_calls (calls w ++ [call_Sampler_Add s (PT_Trace pt)]) w))
    with (get_Sampler s w) by (destruct w, s; reflexivity).
  destruct (agent_Sampler_Add (get_Sampler s w) pt). reflexivity.
Qed.

Lemma ExceptionSampler_Add_run (env : string) (root : nat) (t : Trace) (w : World) :
  ExceptionSampler_Add env root t w =
  (fst (sampler_ExceptionSampler_Add (a_ExceptionSampler w) env (deref t root) t),
   set_ExceptionSampler (snd (sampler_ExceptionSampler_Add (a_ExceptionSampler w) env (deref t root) t))
     (set_calls (calls w ++ [call_ExceptionSampler_Add t]) w)).
Proof.
  unfold ExceptionSampler_Add, bind, record. cbn.
  replace (a_ExceptionSampler (set_calls (calls w ++ [call_ExceptionSampler_Add t]) w))
    with (a_ExceptionSampler w) by (destruct w; reflexivity).
  destruct (sampler_ExceptionSampler_Add (a_ExceptionSampler w) env (deref t root) t).
  reflexivity.
Qed.

Lemma EventProcessor_Process_run (root : nat) (t : Trace) (w : World) :
  EventProcessor_Process root t w =
  (fst (event_Process (a_EventProcessor w) (deref t root) t),
   set_EventProcessor (snd (event_Process (a_EventProcessor w) (deref t root) t))
     (set_calls (calls w ++ [call_EventProcessor_Process (deref t root) t]) w)).
Proof.
  unfold EventProcessor_Process, bind, record. cbn.
  replace (a_EventProcessor (set_calls (calls w ++ [call_EventProcessor_Process (deref t root) t]) w))
    with (a_EventProcessor w) by (destruct w; reflexivity).
  destruct (event_Process (a_EventProcessor w) (deref t root) t). reflexivity.
Qed.

(** [samplePriorityTrace] on a trace with an error span. *)
Lemma samplePriorityTrace_error (pt : ProcessedTrace) (w : World) :
  traceContainsError (PT_Trace pt) = true ->
  samplePriorityTrace pt w =
  let p := agent_Sampler_Add (a_PrioritySampler w) pt in
  let e := agent_Sampler_Add (a_ErrorsScoreSampler w) pt in
  ((fst (fst e) || fst (fst p), CombineRates (snd (fst p)) (snd (fst e))),
   set_Sampler ErrorsScoreSampler (snd e)
     (set_Sampler PrioritySampler (snd p)
        (set_calls (calls w ++ [call_Sampler_Add PrioritySampler (PT_Trace pt);
                                call_Sampler_Add ErrorsScoreSampler (PT_Trace pt)]) w))).
Proof.
  intros He. unfold samplePriorityTrace, bind.
  rewrite Sampler_Add_run. cbn [get_Sampler].
  destruct (agent_Sampler_Add (a_PrioritySampler w) pt) as [[sp rp] stp] eqn:Ep.
  cbn [fst snd]. rewrite He, Sampler_Add_run. cbn [get_Sampler].
  replace (a_ErrorsScoreSampler
             (set_Sampler PrioritySampler stp
                (set_calls (calls w ++ [call_Sampler_Add PrioritySampler (PT_Trace pt)]) w)))
    with (a_ErrorsScoreSampler w) by (destruct w; reflexivity).
  destruct (agent_Sampler_Add (a_ErrorsScoreSampler w) pt) as [[se re] ste] eqn:Ee.
  cbn. destruct w; cbn. rewrite <- app_assoc. reflexivity.
Qed.

(** [samplePriorityTrace] on a trace without an error span. *)
Lemma samplePriorityTrace_no_error (pt : ProcessedTrace) (w : World) :
  traceContainsError (PT_Trace pt) = false ->
  samplePriorityTrace pt w =
  let p := agent_Sampler_Add (a_PrioritySampler w) pt in
  let x := sampler_ExceptionSampler_Add (a_ExceptionSampler w) (PT_Env pt)
             (deref (PT_Trace pt) (PT_Root pt)) (PT_Trace pt) in
  ((if fst x then (true, f64_one) else fst p),
   set_ExceptionSampler (snd x)
     (set_Sampler PrioritySampler (snd p)
        (set_calls (calls w ++ [call_Sampler_Add PrioritySampler (PT_Trace pt);
                                call_ExceptionSampler_Add (PT_Trace pt)]) w))).
Proof.
  intros He. unfold samplePriorityTrace, bind.
  rewrite Sampler_Add_run. cbn [get_Sampler].
  destruct (agent_Sampler_Add (a_PrioritySampler w) pt) as [[sp rp] stp] eqn:Ep.
  cbn [fst snd]. rewrite He, ExceptionSampler_Add_run.
  replace (a_ExceptionSampler
             (set_Sampler PrioritySampler stp
                (set_calls (calls w ++ [call_Sampler_Add PrioritySampler (PT_Trace pt)]) w)))
    with (a_ExceptionSampler w) by (destruct w; reflexivity).
  destruct (sampler_ExceptionSampler_Add (a_ExceptionSampler w) (PT_Env pt)
              (deref (PT_Trace pt) (PT_Root pt)) (PT_Trace pt)) as [x stx] eqn:Ex.
  cbn [fst snd]. destruct x; cbn; destruct w; cbn; rewrite <- app_assoc; reflexivity.
Qed.

(** [sampleNoPriorityTrace] runs one sampler, picked by the error spans. *)
Lemma sampleNoPriorityTrace_run (pt : ProcessedTrace) (w : World) :
  sampleNoPriorityTrace pt w =
  Sampler_Add (if traceContainsError (PT_Trace pt) then ErrorsScoreSampler else ScoreSampler) pt w.
Proof. unfold sampleNoPriorityTrace. destruct (traceContainsError (PT_Trace pt)); reflexivity. Qed.

(** [sample] on a trace whose priority is not negative. *)
Lemma sample_nonneg (pt : ProcessedTrace) (w : World) (priority : Z) (hasPriority : bool) :
  GetSamplingPriority (deref (PT_Trace pt) (PT_Root pt)) = (priority, hasPriority) ->
  0 <= priority ->
  sample pt w =
  let w0 := set_Source (AddInt64 (priorityCounter priority hasPriority) 1 (Source w)) w in
  let r := runSamplers pt hasPriority w0 in
  let t := if fst (fst r)
           then mutate (fun root => AddGlobalRate root (snd (fst r))) (PT_Root pt) (PT_Trace pt)
           else PT_Trace pt in
  let e := EventProcessor_Process (PT_Root pt) t (snd r) in
  ((fst (fst e), fst (fst r), t),
   set_Source (AddInt64 addr_EventsSampled (len (fst (fst e)))
                 (AddInt64 addr_EventsExtracted (snd (fst e)) (Source (snd e)))) (snd e)).
Proof.
  intros Hp Hge. unfold sample. rewrite Hp.
  assert (Hlt : (priority <? 0) = false) by (apply Z.ltb_ge; exact Hge).
  unfold bind at 1. unfold atomic_AddInt64 at 1. rewrite Hlt.
  unfold bind at 1.
  destruct (runSamplers pt hasPriority
              (set_Source (AddInt64 (priorityCounter priority hasPriority) 1 (Source w)) w))
    as [[sampled rate] w1] eqn:Er.
  cbn [fst snd]. unfold bind at 1.
  destruct (EventProcessor_Process (PT_Root pt)
              (if sampled
               then mutate (fun root => AddGlobalRate root rate) (PT_Root pt) (PT_Trace pt)
               else PT_Trace pt) w1) as [[events numExtracted] w2] eqn:Ee.
  cbn [fst snd]. unfold bind, atomic_AddInt64, ret.
  rewrite Source_set_Source. destruct w2; reflexivity.
Qed.

(** [sample] on a trace whose priority is negative: the guard returns before
    any sampler and before the event processor. *)
Lemma sample_negative (pt : ProcessedTrace) (w : World) (priority : Z) (hasPriority : bool) :
  GetSamplingPriority (deref (PT_Trace pt) (PT_Root pt)) = (priority, hasPriority) ->
  priority < 0 ->
  sample pt w =
  (([], false, PT_Trace pt),
   set_Source (AddInt64 (priorityCounter priority hasPriority) 1 (Source w)) w).
Proof.
  intros Hprio Hneg. unfold sample. rewrite Hprio.
  assert (Hlt : (priority <? 0) = true) by (apply Z.ltb_lt; exact Hneg).
  unfold bind, atomic_AddInt64, ret. rewrite Hlt. reflexivity.
Qed.

(** The samplers leave the event processor alone. *)
Lemma runSamplers_frame (pt : ProcessedTrace) (hasPriority : bool) (w : World) :
  a_EventProcessor (snd (runSamplers pt hasPriority w)) = a_EventProcessor w /\
  Source (snd (runSamplers pt hasPriority w)) = Source w.
Proof.
  unfold runSamplers. destruct hasPriority.
  - destruct (traceContainsError (PT_Trace pt)) eqn:He.
    + rewrite samplePriorityTrace_error by exact He. destruct w; split; reflexivity.
    + rewrite samplePriorityTrace_no_error by exact He. destruct w; split; reflexivity.
  - rewrite sampleNoPriorityTrace_run, Sampler_Add_run.
    destruct (traceContainsError (PT_Trace pt)); destruct w; split; reflexivity.
Qed.

(** C3. A trace that carries a sampling priority below zero is not kept by
    [sample]: the call returns no events and [keep = false], adds one to
    [TracesPriorityNeg] and to no other counter, calls no collaborator (no
    sampler in particular) and leaves the state of every sampler as it was. *)
Theorem sample_negative_priority (pt : ProcessedTrace) (w : World) (priority : Z) :
  GetSamplingPriority (deref (PT_Trace pt) (PT_Root pt)) = (priority, true) ->
  priority < 0 ->
  exists w',
    sample pt w = (([], false, PT_Trace pt), w') /\
    Source w' = AddInt64 addr_TracesPriorityNeg 1 (Source w) /\
    TracesPriorityNeg (Source w') = add64 (TracesPriorityNeg (Source w)) 1 /\
    calls w' = calls w /\
    a_PrioritySampler w' = a_PrioritySampler w /\
    a_ScoreSampler w' = a_ScoreSampler w /\
    a_ErrorsScoreSampler w' = a_ErrorsScoreSampler w /\
    a_ExceptionSampler w' = a_ExceptionSampler w /\
    a_EventProcessor w' = a_EventProcessor w.
Proof.
  intros Hprio Hneg.
  exists (set_Source (AddInt64 addr_TracesPriorityNeg 1 (Source w)) w).
  assert (Hlt : (priority <? 0) = true) by (apply Z.ltb_lt; exact Hneg).
  split.
  - rewrite (sample_negative pt w priority true Hprio Hneg).
    unfold priorityCounter. rewrite Hlt. reflexivity.
  - rewrite Source_set_Source, TracesPriorityNeg_AddInt64.
    repeat split; world w.
Qed.


(** C2. On a trace that has a priority (not negative) the priority sampler
    runs first. If the trace has an error span the errors sampler runs as
    well, the decision is the disjunction of the two decisions and the rate
    is [1 / (1/r1 + 1/r2 - 1)], computed in [float64], for the rates [r1] of
    the priority sampler and [r2] of the errors sampler; [sample] returns
    that decision. If the trace has no error span and the exception sampler
    does not flag it, decision and rate are those of the priority sampler
    alone, and the errors sampler is not run. *)
Theorem priority_trace_rates (pt : ProcessedTrace) (w : World) (priority : Z)
    (sampledPriority : bool) (ratePriority : float64) (stP : SamplerSt) :
  GetSamplingPriority (deref (PT_Trace pt) (PT_Root pt)) = (priority, true) ->
  0 <= priority ->
  agent_Sampler_Add (a_PrioritySampler w) pt = ((sampledPriority, ratePriority), stP) ->
  (forall (sampledError : bool) (rateError : float64) (stE : SamplerSt),
     traceContainsError (PT_Trace pt) = true ->
     agent_Sampler_Add (a_ErrorsScoreSampler w) pt = ((sampledError, rateError), stE) ->
     exists w',
       runSamplers pt true w =
         ((sampledError || sampledPriority,
           f64_div f64_one
             (f64_sub (f64_add (f64_div f64_one ratePriority) (f64_div f64_one rateError))
                f64_one)), w') /\
       a_PrioritySampler w' = stP /\
       a_ErrorsScoreSampler w' = stE /\
       calls w' = calls w ++ [call_Sampler_Add PrioritySampler (PT_Trace pt);
                              call_Sampler_Add ErrorsScoreSampler (PT_Trace pt)] /\
       snd (fst (fst (sample pt w))) = sampledError || sampledPriority) /\
  (traceContainsError (PT_Trace pt) = false ->
   fst (sampler_ExceptionSampler_Add (a_ExceptionSampler w) (PT_Env pt)
          (deref (PT_Trace pt) (PT_Root pt)) (PT_Trace pt)) = false ->
   exists w',
     runSamplers pt true w = ((sampledPriority, ratePriority), w') /\
     a_PrioritySampler w' = stP /\
     a_ErrorsScoreSampler w' = a_ErrorsScoreSampler w /\
     calls w' = calls w ++ [call_Sampler_Add PrioritySampler (PT_Trace pt);
                            call_ExceptionSampler_Add (PT_Trace pt)] /\
     snd (fst (fst (sample pt w))) = sampledPriority).
Proof.
  intros Hprio Hge HP. split.
  - intros sampledError rateError stE He HE.
    eexists. split; [|split; [|split; [|split]]].
    + unfold runSamplers. rewrite samplePriorityTrace_error by exact He.
      rewrite HP, HE. cbn [fst snd]. reflexivity.
    + destruct w; reflexivity.
    + destruct w; reflexivity.
    + destruct w; reflexivity.
    + rewrite (sample_nonneg pt w priority true Hprio Hge). cbn [fst snd].
      unfold runSamplers. rewrite samplePriorityTrace_error by exact He.
      cbn [fst snd].
      replace (a_PrioritySampler _) with (a_PrioritySampler w) by (destruct w; reflexivity).
      replace (a_ErrorsScoreSampler _) with (a_ErrorsScoreSampler w) by (destruct w; reflexivity).
      rewrite HP, HE. reflexivity.
  - intros He HX.
    eexists. split; [|split; [|split; [|split]]].
    + unfold runSamplers. rewrite samplePriorityTrace_no_error by exact He.
      cbv zeta. rewrite HP, HX. cbn [fst snd]. reflexivity.
    + destruct w; reflexivity.
    + destruct w; reflexivity.
    + destruct w; reflexivity.
    + rewrite (sample_nonneg pt w priority true Hprio Hge). cbn [fst snd].
      unfold runSamplers. rewrite samplePriorityTrace_no_error by exact He.
      cbv zeta. cbn [fst snd].
      replace (a_PrioritySampler _) with (a_PrioritySampler w) by (destruct w; reflexivity).
      replace (a_ExceptionSampler _) with (a_ExceptionSampler w) by (destruct w; reflexivity).
      rewrite HP, HX. reflexivity.
Qed.

(** C8. On a trace without an error span that the exception sampler flags,
    [samplePriorityTrace] answers [keep = true] with rate 1, whatever the
    priority sampler (which has run) decided. The exception sampler is
    consulted in that case only: when [sample] is given a trace without a
    priority, with a negative priority or with an error span, the state of
    the exception sampler is left as it was and none of the calls made is a
    call to it. *)
Theorem exception_sampler_forces_keep (pt : ProcessedTrace) (w : World) :
  (traceContainsError (PT_Trace pt) = false ->
   fst (sampler_ExceptionSampler_Add (a_ExceptionSampler w) (PT_Env pt)
          (deref (PT_Trace pt) (PT_Root pt)) (PT_Trace pt)) = true ->
   fst (samplePriorityTrace pt w) = (true, f64_one) /\
   a_PrioritySampler (snd (samplePriorityTrace pt w))
     = snd (agent_Sampler_Add (a_PrioritySampler w) pt)) /\
  (forall (priority : Z) (hasPriority : bool),
     GetSamplingPriority (deref (PT_Trace pt) (PT_Root pt)) = (priority, hasPriority) ->
     hasPriority = false \/ priority < 0 \/ traceContainsError (PT_Trace pt) = true ->
     a_ExceptionSampler (snd (sample pt w)) = a_ExceptionSampler w /\
     exists cs, calls (snd (sample pt w)) = calls w ++ cs /\
                forall t, ~ In (call_ExceptionSampler_Add t) cs).
Proof.
  split.
  - intros He HX. rewrite samplePriorityTrace_no_error by exact He.
    cbv zeta. rewrite HX. cbn [fst snd]. split; [reflexivity|].
    destruct w; reflexivity.
  - intros priority hasPriority Hp Hcase.
    destruct (Z.lt_ge_cases priority 0) as [Hneg|Hge].
    + rewrite (sample_negative pt w priority hasPriority Hp Hneg). cbn [snd].
      split; [destruct w; reflexivity|].
      exists []. split; [destruct w; cbn; rewrite app_nil_r; reflexivity|].
      intros t [].
    + rewrite (sample_nonneg pt w priority hasPriority Hp Hge). cbv zeta. cbn [snd].
      rewrite EventProcessor_Process_run. cbn [fst snd].
      assert (Hrun :
        a_ExceptionSampler
          (snd (runSamplers pt hasPriority
                  (set_Source (AddInt64 (priorityCounter priority hasPriority) 1 (Source w)) w)))
          = a_ExceptionSampler w /\
        exists cs, calls (snd (runSamplers pt hasPriority
                  (set_Source (AddInt64 (priorityCounter priority hasPriority) 1 (Source w)) w)))
                   = calls w ++ cs /\ forall t, ~ In (call_ExceptionSampler_Add t) cs).
      { destruct hasPriority.
        - destruct Hcase as [Hno|[Hneg|He]]; [discriminate|lia|].
          unfold runSamplers. rewrite samplePriorityTrace_error by exact He.
          cbv zeta. cbn [snd]. split; [destruct w; reflexivity|].
          eexists. split; [destruct w; reflexivity|].
          intros t [Hin|[Hin|[]]]; discriminate.
        - unfold runSamplers. rewrite sampleNoPriorityTrace_run, Sampler_Add_run. cbn [snd].
          split; [destruct (traceContainsError (PT_Trace pt)), w; reflexivity|].
          exists [call_Sampler_Add (if traceContainsError (PT_Trace pt)
                                    then ErrorsScoreSampler else ScoreSampler) (PT_Trace pt)].
          split; [destruct (traceContainsError (PT_Trace pt)), w; reflexivity|].
          intros t [Hin|[]]; discriminate. }
      destruct Hrun as [Hst (cs & Hcs & Hnot)].
      set (r := runSamplers pt hasPriority _) in *. clearbody r.
      destruct r as [[sampled rate] w1]. cbn [fst snd] in *.
      split.
      * rewrite <- Hst. destruct w1; reflexivity.
      * eexists (cs ++ [_]). split.
        -- rewrite app_assoc, <- Hcs. destruct w1; reflexivity.
        -- intros t Hin. apply in_app_or in Hin. destruct Hin as [Hin|[Hin|[]]].
           ++ exact (Hnot t Hin).
           ++ discriminate.
Qed.

(** C4, as the code has it. For a trace whose priority is not negative,
    [sample] runs the event processor on the root and the trace (as the
    samplers leave them: the root of a kept trace carries the rate) and
    returns the events it extracts, together with whatever decision the
    samplers took. A trace with a negative priority returns from [sample]
    with no events, and the event processor is not run. *)
Theorem events_extracted_unless_negative (pt : ProcessedTrace) (w : World)
    (priority : Z) (hasPriority : bool) :
  GetSamplingPriority (deref (PT_Trace pt) (PT_Root pt)) = (priority, hasPriority) ->
  (0 <= priority ->
   exists (sampled : bool) (rate : float64) (w1 w' : World),
     runSamplers pt hasPriority
       (set_Source (AddInt64 (priorityCounter priority hasPriority) 1 (Source w)) w)
       = ((sampled, rate), w1) /\
     let t := if sampled
              then mutate (fun root => AddGlobalRate root rate) (PT_Root pt) (PT_Trace pt)
              else PT_Trace pt in
     let r := event_Process (a_EventProcessor w) (deref t (PT_Root pt)) t in
     sample pt w = ((fst (fst r), sampled, t), w') /\
     a_EventProcessor w' = snd r /\
     calls w' = calls w1 ++ [call_EventProcessor_Process (deref t (PT_Root pt)) t]) /\
  (priority < 0 ->
   fst (sample pt w) = ([], false, PT_Trace pt) /\
   a_EventProcessor (snd (sample pt w)) = a_EventProcessor w /\
   calls (snd (sample pt w)) = calls w).
Proof.
  intros Hp. split.
  - intros Hge.
    pose proof (runSamplers_frame pt hasPriority
      (set_Source (AddInt64 (priorityCounter priority hasPriority) 1 (Source w)) w)) as [Hev _].
    rewrite (sample_nonneg pt w priority hasPriority Hp Hge). cbv zeta.
    destruct (runSamplers pt hasPriority
      (set_Source (AddInt64 (priorityCounter priority hasPriority) 1 (Source w)) w))
      as [[sampled rate] w1].
    cbn [fst snd] in *.
    assert (Hev' : a_EventProcessor w1 = a_EventProcessor w)
      by (rewrite Hev; destruct w; reflexivity).
    exists sampled, rate, w1. eexists. split; [reflexivity|].
    rewrite EventProcessor_Process_run. cbn [fst snd]. rewrite Hev'.
    split; [reflexivity|]. split; destruct w1; reflexivity.
  - intros Hneg. rewrite (sample_negative pt w priority hasPriority Hp Hneg).
    cbn [fst snd]. repeat split; destruct w; reflexivity.
Qed.

End Sampling.

(** ** Properties of [Process] *)

Section Processing.
Context `{Collaborators}.

Lemma evolves_refl (P : SampledSpans -> Prop) (w : World) : evolves P w w.
Proof.
  repeat split; try reflexivity.
  - exists []. symmetry. apply app_nil_r.
  - exists []. split; [symmetry; apply app_nil_r | constructor].
Qed.

Lemma evolves_trans (P : SampledSpans -> Prop) (w1 w2 w3 : World) :
  evolves P w1 w2 -> evolves P w2 w3 -> evolves P w1 w3.
Proof.
  intros (A1 & B1 & C1 & D1 & E1 & (cs1 & F1) & (bs1 & G1 & K1))
         (A2 & B2 & C2 & D2 & E2 & (cs2 & F2) & (bs2 & G2 & K2)).
  repeat split; try congruence.
  - exists (cs1 ++ cs2). rewrite F2, F1. symmetry. apply app_assoc.
  - exists (bs1 ++ bs2). split.
    + rewrite G2, G1. symmetry. apply app_assoc.
    + apply Forall_app. split; assumption.
Qed.

Lemma respects_ret (P : SampledSpans -> Prop) {A} (a : A) : respects P (ret a).
Proof. intros w. apply evolves_refl. Qed.

Lemma respects_bind (P : SampledSpans -> Prop) {A B} (c : M A) (k : A -> M B) :
  respects P c -> (forall a, respects P (k a)) -> respects P (bind c k).
Proof.
  intros Hc Hk w. unfold bind. specialize (Hc w).
  destruct (c w) as [a w1]. cbn [snd] in Hc.
  eapply evolves_trans; [exact Hc | apply Hk].
Qed.

Lemma respects_gets (P : SampledSpans -> Prop) {A} (f : World -> A) : respects P (gets f).
Proof. intros w. apply evolves_refl. Qed.

(** Steps that only touch the counters, the samplers or the event processor. *)
Ltac quiet :=
  cbn; repeat split; try reflexivity;
  [ exists []; symmetry; apply app_nil_r
  | exists []; split; [symmetry; apply app_nil_r | constructor] ].

Lemma evolves_calls (P : SampledSpans -> Prop) (w : World) (cs : list Call) : evolves P w (set_calls (calls w ++ cs) w).
Proof.
  destruct w; cbn. repeat split; try reflexivity.
  - exists cs. reflexivity.
  - exists []. split; [symmetry; apply app_nil_r | constructor].
Qed.

Lemma evolves_Source (P : SampledSpans -> Prop) (w : World) (ts : TagStats) : evolves P w (set_Source ts w).
Proof. destruct w; quiet. Qed.

Lemma evolves_Sampler (P : SampledSpans -> Prop) (w : World) (s : SamplerField) (st : SamplerSt) :
  evolves P w (set_Sampler s st w).
Proof. destruct w, s; quiet. Qed.

Lemma evolves_ExceptionSampler (P : SampledSpans -> Prop) (w : World) (st : ExceptionSamplerSt) :
  evolves P w (set_ExceptionSampler st w).
Proof. destruct w; quiet. Qed.

Lemma evolves_EventProcessor (P : SampledSpans -> Prop) (w : World) (st : EventProcessorSt) :
  evolves P w (set_EventProcessor st w).
Proof. destruct w; quiet. Qed.

Lemma respects_record (P : SampledSpans -> Prop) (c : Call) : respects P (record c).
Proof. intros w. apply evolves_calls. Qed.

Lemma respects_atomic_AddInt64 (P : SampledSpans -> Prop) (c : Counter) (n : Z) : respects P (atomic_AddInt64 c n).
Proof. intros w. apply evolves_Source. Qed.

Lemma respects_normalizeTrace (P : SampledSpans -> Prop) (t : Trace) : respects P (normalizeTrace t).
Proof.
  apply respects_bind; [apply respects_record|]. intros _ w. cbn.
  destruct (agent_normalizeTrace (Source w) t) as [[ts t'] err]. apply evolves_Source.
Qed.

Lemma respects_Blacklister_Allows (P : SampledSpans -> Prop) (root : Span) : respects P (Blacklister_Allows root).
Proof. apply respects_bind; [apply respects_record | intros; apply respects_ret]. Qed.

Lemma respects_obfuscator_Obfuscate (P : SampledSpans -> Prop) (span : Span) : respects P (obfuscator_Obfuscate span).
Proof. apply respects_bind; [apply respects_record | intros; apply respects_ret]. Qed.

Lemma respects_Truncate (P : SampledSpans -> Prop) (span : Span) : respects P (Truncate span).
Proof. apply respects_bind; [apply respects_record | intros; apply respects_ret]. Qed.

Lemma respects_Replacer_Replace (P : SampledSpans -> Prop) (t : Trace) : respects P (Replacer_Replace t).
Proof. apply respects_bind; [apply respects_record | intros; apply respects_ret]. Qed.

Lemma respects_Sampler_Add (P : SampledSpans -> Prop) (s : SamplerField) (pt : ProcessedTrace) :
  respects P (Sampler_Add s pt).
Proof.
  intros w. rewrite Sampler_Add_run. cbn [snd].
  eapply evolves_trans; [apply evolves_calls | apply evolves_Sampler].
Qed.

Lemma respects_ExceptionSampler_Add (P : SampledSpans -> Prop) (env : string) (root : nat) (t : Trace) :
  respects P (ExceptionSampler_Add env root t).
Proof.
  intros w. rewrite ExceptionSampler_Add_run. cbn [snd].
  eapply evolves_trans; [apply evolves_calls | apply evolves_ExceptionSampler].
Qed.

Lemma respects_EventProcessor_Process (P : SampledSpans -> Prop) (root : nat) (t : Trace) :
  respects P (EventProcessor_Process root t).
Proof.
  intros w. rewrite EventProcessor_Process_run. cbn [snd].
  eapply evolves_trans; [apply evolves_calls | apply evolves_EventProcessor].
Qed.

Lemma respects_flushIfFull (ss : SampledSpans) : respects exceeds (flushIfFull ss).
Proof.
  unfold flushIfFull. destruct (MaxPayloadSize <? SS_Size ss) eqn:Hfull.
  - intros w. apply Z.ltb_lt in Hfull. destruct w; cbn.
    repeat split; try reflexivity.
    + exists []. symmetry. apply app_nil_r.
    + exists [ss]. split; [reflexivity|]. constructor; [exact Hfull | constructor].
  - apply respects_ret.
Qed.

Create HintDb respects.
Hint Resolve respects_ret respects_gets respects_record respects_atomic_AddInt64
  respects_normalizeTrace respects_Blacklister_Allows respects_obfuscator_Obfuscate
  respects_Truncate respects_Replacer_Replace respects_Sampler_Add
  respects_ExceptionSampler_Add respects_EventProcessor_Process respects_flushIfFull
  : respects.

(** Splits a computation at its binds and branches. *)
Ltac respects :=
  repeat first
    [ solve [auto with respects]
    | apply respects_bind; [ | intros ? ]
    | match goal with
      | |- respects _ (match ?x with _ => _ end) => destruct x
      end ].

Lemma respects_sanitize (P : SampledSpans -> Prop) (t : Trace) : respects P (sanitize t).
Proof. induction t as [|span rest IH]; cbn [sanitize]; respects. Qed.

Lemma respects_setRootTags (P : SampledSpans -> Prop) (p : Payload) (root : nat) (t : Trace) :
  respects P (setRootTags p root t).
Proof. unfold setRootTags. respects. Qed.

Lemma respects_samplePriorityTrace (P : SampledSpans -> Prop) (pt : ProcessedTrace) : respects P (samplePriorityTrace pt).
Proof. unfold samplePriorityTrace. respects. Qed.

Lemma respects_runSamplers (P : SampledSpans -> Prop) (pt : ProcessedTrace) (hasPriority : bool) :
  respects P (runSamplers pt hasPriority).
Proof.
  unfold runSamplers, sampleNoPriorityTrace. pose proof (respects_samplePriorityTrace P pt).
  respects.
Qed.

Lemma respects_sample (P : SampledSpans -> Prop) (pt : ProcessedTrace) : respects P (sample pt).
Proof.
  unfold sample. pose proof (respects_runSamplers P pt).
  destruct (GetSamplingPriority (deref (PT_Trace pt) (PT_Root pt))) as [priority hasPriority].
  respects.
Qed.

Hint Resolve respects_sanitize respects_setRootTags respects_sample : respects.

Lemma respects_processAllowed (p : Payload) (ss : SampledSpans) (sinputs : list Input)
    (root : nat) (t : Trace) : respects exceeds (processAllowed p ss sinputs root t).
Proof. unfold processAllowed. respects. Qed.

Hint Resolve respects_processAllowed : respects.

Lemma respects_processTrace (p : Payload) (ss : SampledSpans) (sinputs : list Input)
    (t : Trace) : respects exceeds (processTrace p ss sinputs t).
Proof. unfold processTrace. respects. Qed.

Lemma respects_processTraces (p : Payload) (traces : list Trace) :
  forall ss sinputs, respects exceeds (processTraces p traces ss sinputs).
Proof.
  induction traces as [|t rest IH]; intros ss sinputs; cbn [processTraces].
  - apply respects_ret.
  - apply respects_bind; [apply respects_processTrace|]. intros [ss' sinputs']. apply IH.
Qed.

(** *** What an iteration computes *)

Lemma sanitize_run (t : Trace) (w : World) :
  sanitize t w = (sanitized t, set_calls (calls w ++ sanitize_calls t) w).
Proof.
  revert w. induction t as [|span rest IH]; intros w.
  - cbn. unfold ret. destruct w; cbn. rewrite app_nil_r. reflexivity.
  - cbn [sanitize]. unfold bind at 1. unfold obfuscator_Obfuscate, bind, record, ret.
    unfold Truncate, bind, record, ret. rewrite IH.
    destruct w; cbn. rewrite <- !app_assoc. reflexivity.
Qed.

Lemma setRootTags_run (p : Payload) (root : nat) (t : Trace) (w : World) :
  setRootTags p root t w = (fst (setRootTags p root t w), w).
Proof. unfold setRootTags, bind, gets, ret. reflexivity. Qed.

Lemma setRootTags_calls (p : Payload) (root : nat) (t : Trace) (w : World) (cs : list Call) :
  fst (setRootTags p root t (set_calls cs w)) = fst (setRootTags p root t w).
Proof. unfold setRootTags, bind, gets, ret. destruct w; reflexivity. Qed.

(** The iteration for an allowed trace, step by step. *)
Lemma processAllowed_run (p : Payload) (ss : SampledSpans) (sinputs : list Input)
    (root : nat) (t : Trace) (w : World) :
  processAllowed p ss sinputs root t w =
  let w1 := set_calls (calls w ++ sanitize_calls t ++ [call_Replace (sanitized t)]) w in
  let pt := processedTrace p root t w in
  let r := sample pt w1 in
  let keep := snd (fst (fst r)) in
  let events := fst (fst (fst r)) in
  let tL := fst (sublayersLoop keep (ExtractSubtraces (snd (fst r)) root) (snd (fst r)) ∅) in
  let ss1 := appendSampled ss keep tL events in
  ((if MaxPayloadSize <? SS_Size ss1 then new_SampledSpans else ss1,
    sinputs ++ [statsInput p pt keep (snd (fst r))]),
   if MaxPayloadSize <? SS_Size ss1
   then set_TraceWriter_In (TraceWriter_In (snd r) ++ [ss1]) (snd r)
   else snd r).
Proof.
  unfold processAllowed. unfold bind at 1. rewrite sanitize_run.
  unfold bind at 1. unfold Replacer_Replace, bind, record, ret.
  cbn [fst snd]. rewrite setRootTags_run. cbn [fst snd].
  rewrite !setRootTags_calls.
  replace (set_calls _ (set_calls _ w))
    with (set_calls (calls w ++ sanitize_calls t ++ [call_Replace (sanitized t)]) w)
    by (destruct w; cbn; rewrite <- app_assoc; reflexivity).
  unfold gets. cbn [fst snd].
  replace (conf_DefaultEnv (set_calls _ w)) with (conf_DefaultEnv w) by (destruct w; reflexivity).
  cbv zeta. fold (prepared p root t w).
  change {| PT_Trace := prepared p root t w;
            PT_WeightedTrace := NewWeightedTrace (prepared p root t w) root;
            PT_Root := root;
            PT_Env := if decide (GetEnv (prepared p root t w) = "")
                      then conf_DefaultEnv w else GetEnv (prepared p root t w);
            PT_Sublayers := ∅ |} with (processedTrace p root t w).
  destruct (sample (processedTrace p root t w) _) as [[[events keep] tS] w2].
  cbn [fst snd]. unfold statsInput. cbn [PT_Root PT_Sublayers processedTrace].
  destruct (sublayersLoop keep (ExtractSubtraces tS root) tS ∅) as [tL sublayers].
  cbn [fst snd]. unfold flushIfFull.
  destruct (MaxPayloadSize <? SS_Size (appendSampled ss keep tL events)); reflexivity.
Qed.

(** An iteration on a trace that is not empty, up to the blacklist. *)
Lemma processTrace_run (p : Payload) (ss : SampledSpans) (sinputs : list Input)
    (t : Trace) (w : World) :
  t <> [] ->
  processTrace p ss sinputs t w =
  let r := agent_normalizeTrace (AddInt64 addr_SpansReceived (len t) (Source w)) t in
  let ts' := fst (fst r) in
  let t' := snd (fst r) in
  let root := deref t' (GetRoot t') in
  match snd r with
  | Some _ =>
      ((ss, sinputs),
       set_Source (AddInt64 addr_SpansDropped (len t) ts')
         (set_calls (calls w ++ [call_normalizeTrace t]) w))
  | None =>
      if filters_Allows root
      then processAllowed p ss sinputs (GetRoot t') t'
             (set_Source ts' (set_calls (calls w ++ [call_normalizeTrace t; call_Allows root]) w))
      else ((ss, sinputs),
            set_Source (AddInt64 addr_SpansFiltered (len t) (AddInt64 addr_TracesFiltered 1 ts'))
              (set_calls (calls w ++ [call_normalizeTrace t; call_Allows root]) w))
  end.
Proof.
  intros Hne. unfold processTrace.
  assert (Hlen : (len t =? 0) = false).
  { apply Z.eqb_neq. unfold len. destruct t; [congruence | cbn; lia]. }
  rewrite Hlen. unfold bind at 1. unfold atomic_AddInt64 at 1.
  unfold bind at 1. unfold normalizeTrace, bind, record.
  replace (Source (set_calls _ (set_Source _ w)))
    with (AddInt64 addr_SpansReceived (len t) (Source w)) by (destruct w; reflexivity).
  destruct (agent_normalizeTrace (AddInt64 addr_SpansReceived (len t) (Source w)) t)
    as [[ts' t'] err].
  cbn [fst snd]. destruct err as [e|].
  - unfold atomic_AddInt64, ret. destruct w; reflexivity.
  - unfold Blacklister_Allows, bind, record, ret.
    destruct (filters_Allows (deref t' (GetRoot t'))); cbn [negb].
    + f_equal. destruct w; cbn. rewrite <- app_assoc. reflexivity.
    + unfold atomic_AddInt64. destruct w; cbn. rewrite <- app_assoc. reflexivity.
Qed.

(** Steps that send no batch leave [TraceWriter.In] as it is. *)
Lemma quiet_TraceWriter_In {A} (c : M A) (w : World) :
  respects (fun _ => False) c -> TraceWriter_In (snd (c w)) = TraceWriter_In w.
Proof.
  intros Hc. destruct (Hc w) as (_ & _ & _ & _ & _ & _ & (batches & Heq & Hall)).
  destruct batches as [|b rest].
  - rewrite Heq. apply app_nil_r.
  - inversion Hall as [|? ? Hb _]. destruct Hb.
Qed.

Lemma processedTrace_frame (P : SampledSpans -> Prop) (p : Payload) (root : nat) (t : Trace)
    (w w' : World) :
  evolves P w w' -> processedTrace p root t w' = processedTrace p root t w.
Proof.
  intros (Ha & Hr & He & _). unfold processedTrace, prepared, setRootTags, bind, gets, ret.
  cbn [fst snd]. rewrite Ha, Hr, He. reflexivity.
Qed.

Lemma processedTrace_set (p : Payload) (root : nat) (t : Trace) (w : World)
    (ts : TagStats) (cs : list Call) :
  processedTrace p root t (set_Source ts (set_calls cs w)) = processedTrace p root t w.
Proof. destruct w; reflexivity. Qed.

(** The stats inputs gathered so far are kept by the iterations to come. *)
Lemma processTrace_sinputs (p : Payload) (ss : SampledSpans) (sinputs : list Input)
    (t : Trace) (w : World) :
  exists more, snd (fst (processTrace p ss sinputs t w)) = sinputs ++ more.
Proof.
  destruct t as [|span rest].
  - exists []. cbn. symmetry. apply app_nil_r.
  - rewrite processTrace_run by discriminate. cbv zeta.
    destruct (snd (agent_normalizeTrace _ _)) as [e|].
    + exists []. cbn. symmetry. apply app_nil_r.
    + destruct (filters_Allows _).
      * rewrite processAllowed_run. cbv zeta. cbn [fst snd]. eexists. reflexivity.
      * exists []. cbn. symmetry. apply app_nil_r.
Qed.

Lemma processTraces_sinputs (p : Payload) (traces : list Trace) :
  forall ss sinputs w,
    exists more, snd (fst (processTraces p traces ss sinputs w)) = sinputs ++ more.
Proof.
  induction traces as [|t rest IH]; intros ss sinputs w.
  - exists []. cbn. symmetry. apply app_nil_r.
  - cbn [processTraces]. unfold bind.
    destruct (processTrace_sinputs p ss sinputs t w) as [m1 H1].
    destruct (processTrace p ss sinputs t w) as [[ss1 si1] w1]. cbn [fst snd] in H1.
    destruct (IH ss1 si1 w1) as [m2 H2].
    exists (m1 ++ m2). rewrite H2, H1. symmetry. apply app_assoc.
Qed.

Lemma processTraces_app (p : Payload) (l1 l2 : list Trace) :
  forall ss sinputs w,
    processTraces p (l1 ++ l2) ss sinputs w =
    processTraces p l2 (fst (fst (processTraces p l1 ss sinputs w)))
      (snd (fst (processTraces p l1 ss sinputs w))) (snd (processTraces p l1 ss sinputs w)).
Proof.
  induction l1 as [|t rest IH]; intros ss sinputs w.
  - reflexivity.
  - cbn [app processTraces]. unfold bind.
    destruct (processTrace p ss sinputs t w) as [[ss1 si1] w1]. apply IH.
Qed.

(** What [Process] sends once the loop is over. *)
Lemma Process_run (p : Payload) (w : World) :
  let r := processTraces p (Payload_Traces p) new_SampledSpans [] w in
  TraceWriter_In (snd (Process p w)) =
    TraceWriter_In (snd r) ++ (if 0 <? SS_Size (fst (fst r)) then [fst (fst r)] else []) /\
  Concentrator_In (snd (Process p w)) =
    Concentrator_In w ++ (if 0 <? len (snd (fst r)) then [snd (fst r)] else []).
Proof.
  cbv zeta. unfold Process.
  destruct (len (Payload_Traces p) =? 0) eqn:Hlen.
  - apply Z.eqb_eq in Hlen. unfold len in Hlen.
    destruct (Payload_Traces p); [|cbn in Hlen; lia].
    cbn. rewrite !app_nil_r. split; reflexivity.
  - pose proof (respects_processTraces p (Payload_Traces p) new_SampledSpans [] w)
      as (_ & _ & _ & Hci & _).
    unfold bind.
    destruct (processTraces p (Payload_Traces p) new_SampledSpans [] w) as [[ss si] w1].
    cbn [fst snd] in *. unfold TraceWriter_In_send, Concentrator_In_send, ret.
    destruct (0 <? SS_Size ss), (0 <? len si); cbn [fst snd];
      rewrite <- Hci; destruct w1; cbn; rewrite ?app_nil_r; split; reflexivity.
Qed.

(** All of [Process]: the loop, then what is sent. *)
Lemma Process_world (p : Payload) (w : World) :
  let r := processTraces p (Payload_Traces p) new_SampledSpans [] w in
  let ss := fst (fst r) in
  let sinputs := snd (fst r) in
  let w1 := if 0 <? SS_Size ss
            then set_TraceWriter_In (TraceWriter_In (snd r) ++ [ss]) (snd r)
            else snd r in
  Process p w =
  (tt, if 0 <? len sinputs
       then set_Concentrator_In (Concentrator_In w1 ++ [sinputs]) w1
       else w1).
Proof.
  cbv zeta. unfold Process.
  destruct (len (Payload_Traces p) =? 0) eqn:Hlen.
  - apply Z.eqb_eq in Hlen. unfold len in Hlen.
    destruct (Payload_Traces p); [reflexivity | cbn in Hlen; lia].
  - unfold bind.
    destruct (processTraces p (Payload_Traces p) new_SampledSpans [] w) as [[ss si] w1].
    cbn [fst snd]. unfold TraceWriter_In_send, Concentrator_In_send, ret.
    destruct (0 <? SS_Size ss), (0 <? len si); reflexivity.
Qed.

(** C9. Let [normalizeTrace] return an error for a trace of the payload.
    The iteration of [Process] on that trace ends there: [SpansDropped]
    grows by the number of spans of the trace (on top of what the normaliser
    left in the counters), the only call made is the one to the normaliser
    (no blacklist check, no obfuscation or tag replacement, no sampler, no
    event processor), and nothing is sent to the trace writer or to the
    concentrator. [Process] goes on with the traces after it from the batch
    of sampled spans and the stats inputs that the traces before it left,
    and what it returns, counts and sends for the payload is what that rest
    of the loop leaves: the trace is in no batch and in no stats input. *)
Theorem invalid_trace_dropped (p : Payload) (pre post : list Trace) (t : Trace)
    (w : World) (ts' : TagStats) (t' : Trace) (e : string) :
  Payload_Traces p = pre ++ t :: post ->
  let r1 := processTraces p pre new_SampledSpans [] w in
  let ss1 := fst (fst r1) in
  let sinputs1 := snd (fst r1) in
  let w1 := snd r1 in
  t <> [] ->
  agent_normalizeTrace (AddInt64 addr_SpansReceived (len t) (Source w1)) t = (ts', t', Some e) ->
  exists w2,
    processTrace p ss1 sinputs1 t w1 = ((ss1, sinputs1), w2) /\
    Source w2 = AddInt64 addr_SpansDropped (len t) ts' /\
    SpansDropped (Source w2) = add64 (SpansDropped ts') (len t) /\
    calls w2 = calls w1 ++ [call_normalizeTrace t] /\
    a_ScoreSampler w2 = a_ScoreSampler w1 /\
    a_ErrorsScoreSampler w2 = a_ErrorsScoreSampler w1 /\
    a_PrioritySampler w2 = a_PrioritySampler w1 /\
    a_ExceptionSampler w2 = a_ExceptionSampler w1 /\
    a_EventProcessor w2 = a_EventProcessor w1 /\
    TraceWriter_In w2 = TraceWriter_In w1 /\
    Concentrator_In w2 = Concentrator_In w1 /\
    (let r3 := processTraces p post ss1 sinputs1 w2 in
     let ss := fst (fst r3) in
     let sinputs := snd (fst r3) in
     let w3 := if 0 <? SS_Size ss
               then set_TraceWriter_In (TraceWriter_In (snd r3) ++ [ss]) (snd r3)
               else snd r3 in
     Process p w =
     (tt, if 0 <? len sinputs
          then set_Concentrator_In (Concentrator_In w3 ++ [sinputs]) w3
          else w3)).
Proof.
  intros Hp r1 ss1 sinputs1 w1 Hne Hnorm.
  assert (Hiter : processTrace p ss1 sinputs1 t w1 =
            ((ss1, sinputs1),
             set_Source (AddInt64 addr_SpansDropped (len t) ts')
               (set_calls (calls w1 ++ [call_normalizeTrace t]) w1))).
  { rewrite processTrace_run by exact Hne. cbv zeta. rewrite Hnorm. reflexivity. }
  eexists. split; [exact Hiter|].
  rewrite Source_set_Source. split; [reflexivity|].
  split; [destruct ts'; reflexivity|].
  do 8 (split; [destruct w1; reflexivity|]).
  cbv zeta. rewrite Process_world. cbv zeta. rewrite Hp, processTraces_app.
  fold r1. fold ss1 sinputs1 w1. cbn [processTraces]. unfold bind.
  rewrite Hiter. reflexivity.
Qed.


(** C5. Let a trace of the payload be neither empty, nor rejected by the
    normaliser, nor rejected by the blacklist. Whatever [keep] the samplers
    answer for it, its iteration adds one [stats.Input] at the end of the
    inputs gathered so far: the weighted trace and the environment of the
    processed trace, and the sublayers computed after sampling. The later
    iterations keep it, and [Process] sends the inputs gathered, this one
    among them, to the concentrator as one message. *)
Theorem stats_input_whatever_decision (p : Payload) (pre post : list Trace) (t : Trace)
    (w : World) (ts' : TagStats) (t' : Trace) :
  Payload_Traces p = pre ++ t :: post ->
  let r1 := processTraces p pre new_SampledSpans [] w in
  let ss1 := fst (fst r1) in
  let sinputs1 := snd (fst r1) in
  let w1 := snd r1 in
  t <> [] ->
  agent_normalizeTrace (AddInt64 addr_SpansReceived (len t) (Source w1)) t = (ts', t', None) ->
  filters_Allows (deref t' (GetRoot t')) = true ->
  let pt := processedTrace p (GetRoot t') t' w in
  exists (wS wS' : World) (events : list Span) (keep : bool) (tS : Trace) (more : list Input),
    sample pt wS = ((events, keep, tS), wS') /\
    snd (fst (processTrace p ss1 sinputs1 t w1)) = sinputs1 ++ [statsInput p pt keep tS] /\
    Concentrator_In (snd (Process p w)) =
      Concentrator_In w ++ [sinputs1 ++ statsInput p pt keep tS :: more].
Proof.
  intros Hp r1 ss1 sinputs1 w1 Hne Hnorm Hallow pt.
  assert (Hpt : processedTrace p (GetRoot t') t' w1 = pt).
  { apply (processedTrace_frame exceeds). apply respects_processTraces. }
  assert (Hstep : exists wS, 
            snd (fst (processTrace p ss1 sinputs1 t w1)) =
              sinputs1 ++ [statsInput p pt (snd (fst (fst (sample pt wS)))) (snd (fst (sample pt wS)))]).
  { rewrite processTrace_run by exact Hne. cbv zeta. rewrite Hnorm. cbn [fst snd].
    rewrite Hallow, processAllowed_run. cbv zeta. cbn [fst snd].
    rewrite processedTrace_set, Hpt. eexists. reflexivity. }
  destruct Hstep as [wS Hstep].
  destruct (sample pt wS) as [[[events keep] tS] wS'] eqn:Hs. cbn [fst snd] in Hstep.
  destruct (processTraces_sinputs p post
              (fst (fst (processTrace p ss1 sinputs1 t w1)))
              (snd (fst (processTrace p ss1 sinputs1 t w1)))
              (snd (processTrace p ss1 sinputs1 t w1))) as [more Hmore].
  exists wS, wS', events, keep, tS, more.
  split; [exact Hs|]. split; [exact Hstep|].
  destruct (Process_run p w) as [_ Hci]. rewrite Hci, Hp, processTraces_app.
  fold r1. fold ss1 sinputs1 w1. cbn [processTraces]. unfold bind at 1 2.
  destruct (processTrace p ss1 sinputs1 t w1) as [[ss2 sinputs2] w2].
  cbn [fst snd] in *. rewrite Hmore, Hstep, <- app_assoc. cbn [app].
  assert (Hpos : (0 <? len (sinputs1 ++ statsInput p pt keep tS :: more)) = true).
  { apply Z.ltb_lt. unfold len. rewrite length_app. cbn. lia. }
  rewrite Hpos. reflexivity.
Qed.

(** The batch after an iteration, and what the iteration sent. *)
Lemma processTrace_batch (p : Payload) (ss : SampledSpans) (sinputs : list Input)
    (t : Trace) (w : World) :
  SS_Size ss <= MaxPayloadSize ->
  exists ss1,
    (ss1 = ss \/ exists keep tL events, ss1 = appendSampled ss keep tL events) /\
    (MaxPayloadSize < SS_Size ss1 ->
     fst (fst (processTrace p ss sinputs t w)) = new_SampledSpans /\
     TraceWriter_In (snd (processTrace p ss sinputs t w)) = TraceWriter_In w ++ [ss1]) /\
    (SS_Size ss1 <= MaxPayloadSize ->
     fst (fst (processTrace p ss sinputs t w)) = ss1 /\
     TraceWriter_In (snd (processTrace p ss sinputs t w)) = TraceWriter_In w).
Proof.
  intros Hsize.
  assert (Hskip : forall (w' : World),
            TraceWriter_In w' = TraceWriter_In w ->
            exists ss1,
              (ss1 = ss \/ exists keep tL events, ss1 = appendSampled ss keep tL events) /\
              (MaxPayloadSize < SS_Size ss1 ->
               fst (fst ((ss, sinputs), w')) = new_SampledSpans /\
               TraceWriter_In (snd ((ss, sinputs), w')) = TraceWriter_In w ++ [ss1]) /\
              (SS_Size ss1 <= MaxPayloadSize ->
               fst (fst ((ss, sinputs), w')) = ss1 /\
               TraceWriter_In (snd ((ss, sinputs), w')) = TraceWriter_In w)).
  { intros w' Hw'. exists ss. split; [left; reflexivity|]. split.
    - intros Hbig. lia.
    - intros _. split; [reflexivity | exact Hw']. }
  destruct t as [|span rest].
  - apply (Hskip w). reflexivity.
  - rewrite processTrace_run by discriminate. cbv zeta.
    destruct (snd (agent_normalizeTrace _ _)) as [e|].
    + apply Hskip. destruct w; reflexivity.
    + destruct (filters_Allows _).
      * clear Hskip. rewrite processAllowed_run. cbv zeta. cbn [fst snd].
        match goal with
        | |- context [sample ?pt ?w1] =>
            pose proof (quiet_TraceWriter_In (sample pt) w1
                          (respects_sample (fun _ => False) pt)) as Hq;
            set (r := sample pt w1) in *
        end.
        assert (Hw : TraceWriter_In (snd r) = TraceWriter_In w)
          by (rewrite Hq; destruct w; reflexivity).
        clear Hq.
        match goal with
        | |- context [MaxPayloadSize <? SS_Size ?s] => exists s
        end.
        split; [right; eexists _, _, _; reflexivity|].
        match goal with
        | |- context [MaxPayloadSize <? ?s] => destruct (Z.ltb_spec MaxPayloadSize s)
        end.
        -- split; [|intros; lia]. intros _. split; [reflexivity|].
           rewrite <- Hw. destruct (snd r); reflexivity.
        -- split; [intros; lia|]. intros _. split; [reflexivity | exact Hw].
      * apply Hskip. destruct w; reflexivity.
Qed.

(** The batch that the loop carries from one trace to the next never
    exceeds the ceiling. *)
Lemma processTraces_size (p : Payload) (traces : list Trace) :
  0 <= MaxPayloadSize ->
  forall ss sinputs w,
    SS_Size ss <= MaxPayloadSize ->
    SS_Size (fst (fst (processTraces p traces ss sinputs w))) <= MaxPayloadSize.
Proof.
  intros Hmax. induction traces as [|t rest IH]; intros ss sinputs w Hsize.
  - exact Hsize.
  - cbn [processTraces]. unfold bind.
    destruct (processTrace_batch p ss sinputs t w Hsize) as (ss1 & _ & Hbig & Hsmall).
    destruct (processTrace p ss sinputs t w) as [[ss2 si2] w2]. cbn [fst snd] in *.
    apply IH. destruct (Z.lt_ge_cases MaxPayloadSize (SS_Size ss1)) as [Hlt|Hle].
    + destruct (Hbig Hlt) as [-> _]. exact Hmax.
    + destruct (Hsmall Hle) as [-> _]. exact Hle.
Qed.

(** C7. With a ceiling that is not negative: an iteration of [Process]
    that starts with a batch within the ceiling brings the batch to some
    [ss1] (the batch as it was when the trace is skipped or dropped, the
    batch with the sampled trace and the events otherwise); if the size of
    [ss1] is strictly above [MaxPayloadSize] then [ss1] is sent to the trace
    writer and the next iteration starts with a fresh batch, and if not
    nothing is sent and [ss1] is carried on. So the batch carried through
    the loop stays within the ceiling and every batch sent during the loop
    exceeds it. Once the loop is over, the batch left is sent exactly when
    its size is positive; [Process] keeps no batch. *)
Theorem batch_flushed_when_full (p : Payload) (w : World) :
  0 <= MaxPayloadSize ->
  (forall (ss : SampledSpans) (sinputs : list Input) (t : Trace) (w0 : World),
     SS_Size ss <= MaxPayloadSize ->
     exists ss1,
       (ss1 = ss \/ exists keep tL events, ss1 = appendSampled ss keep tL events) /\
       (MaxPayloadSize < SS_Size ss1 ->
        fst (fst (processTrace p ss sinputs t w0)) = new_SampledSpans /\
        TraceWriter_In (snd (processTrace p ss sinputs t w0)) = TraceWriter_In w0 ++ [ss1]) /\
       (SS_Size ss1 <= MaxPayloadSize ->
        fst (fst (processTrace p ss sinputs t w0)) = ss1 /\
        TraceWriter_In (snd (processTrace p ss sinputs t w0)) = TraceWriter_In w0)) /\
  let r := processTraces p (Payload_Traces p) new_SampledSpans [] w in
  SS_Size (fst (fst r)) <= MaxPayloadSize /\
  (exists batches,
     TraceWriter_In (snd r) = TraceWriter_In w ++ batches /\
     Forall (fun b => MaxPayloadSize < SS_Size b) batches) /\
  TraceWriter_In (snd (Process p w)) =
    TraceWriter_In (snd r) ++ (if 0 <? SS_Size (fst (fst r)) then [fst (fst r)] else []).
Proof.
  intros Hmax. split.
  - intros ss sinputs t w0. apply processTrace_batch.
  - cbv zeta. split; [|split].
    + apply processTraces_size; [exact Hmax | exact Hmax].
    + pose proof (respects_processTraces p (Payload_Traces p) new_SampledSpans [] w)
        as (_ & _ & _ & _ & _ & _ & Hb).
      exact Hb.
    + apply (Process_run p w).
Qed.

End Processing.

(** ** Properties of [ProcessStats] *)

Section ClientStats.
Context `{Collaborators}.

Lemma ProcessStats_run (in_ : ClientStatsPayload) (lang : string) (w : World) :
  OutStats (snd (ProcessStats in_ lang w)) =
  OutStats w ++ [ {| SP_HostName := CSP_Hostname in_;
                     SP_Env := statsEnv (conf_DefaultEnv w) in_;
                     SP_Stats := statsBuckets (statsEnv (conf_DefaultEnv w) in_) lang in_ |} ].
Proof. unfold ProcessStats, bind, gets, OutStats_send. destruct w; reflexivity. Qed.

Lemma newBucket_in (in_ : ClientStatsPayload) (env lang : string)
    (group : ClientStatsBucket) (b : ClientGroupedStats) :
  In group (CSP_Stats in_) -> In b (CSB_Stats group) ->
  In (newBucket env (CSP_Version in_) lang group b) (statsBuckets env lang in_).
Proof.
  intros Hg Hb. unfold statsBuckets. apply in_flat_map. exists group.
  split; [exact Hg|]. apply in_map. exact Hb.
Qed.

(** The counts of the bucket made from a group. *)
Lemma newBucket_Counts (env version lang : string) (group : ClientStatsBucket)
    (b : ClientGroupedStats) :
  let b' := sanitizeGroup b lang in
  let g := AssembleGrain env (CGS_Resource b') (CGS_Service b') (groupTags version b') in
  Bucket_Counts (newBucket env version lang group b) =
  <[ GrainKey (CGS_Name b') DURATION (fst g) := newCount b' DURATION (fst g) (snd g) (CGS_Duration b') ]>
    (<[ GrainKey (CGS_Name b') ERRORS (fst g) := newCount b' ERRORS (fst g) (snd g) (CGS_Errors b') ]>
       (<[ GrainKey (CGS_Name b') HITS (fst g) := newCount b' HITS (fst g) (snd g) (CGS_Hits b') ]> ∅)).
Proof.
  cbv zeta. unfold newBucket.
  destruct (AssembleGrain env _ _ _) as [grain tagset]. reflexivity.
Qed.

(** C6. For every group of the client payload, [ProcessStats] sends a
    payload with a bucket that holds three counts and no other: under the
    key of the name and [HITS] a count of measure [HITS] and value the hits
    of the group, under the key of the name and [ERRORS] one of measure
    [ERRORS] and value its errors, under the key of the name and [DURATION]
    one of measure [DURATION] and value its duration, the three keys made
    by [GrainKey] from one grain (that [AssembleGrain] makes of the
    environment, the resource, the service and the tags). The name,
    resource, service, hits, errors and duration are the fields of the
    group as [ProcessStats] reads them, after the normalisation,
    obfuscation and tag replacement of the group; the values are
    [float64]; the three keys are taken to differ. *)
Theorem client_group_three_counts (in_ : ClientStatsPayload) (lang : string) (w : World)
    (group : ClientStatsBucket) (b : ClientGroupedStats) :
  In group (CSP_Stats in_) ->
  In b (CSB_Stats group) ->
  let env := statsEnv (conf_DefaultEnv w) in_ in
  let b' := sanitizeGroup b lang in
  let grain := fst (AssembleGrain env (CGS_Resource b') (CGS_Service b')
                      (groupTags (CSP_Version in_) b')) in
  let key := fun measure => GrainKey (CGS_Name b') measure grain in
  key HITS <> key ERRORS ->
  key HITS <> key DURATION ->
  key ERRORS <> key DURATION ->
  exists (out : StatsPayload) (bucket : Bucket) (hits errors duration : Count),
    OutStats (snd (ProcessStats in_ lang w)) = OutStats w ++ [out] /\
    In bucket (SP_Stats out) /\
    size (Bucket_Counts bucket) = 3%nat /\
    Bucket_Counts bucket !! key HITS = Some hits /\
    Bucket_Counts bucket !! key ERRORS = Some errors /\
    Bucket_Counts bucket !! key DURATION = Some duration /\
    (Count_Key hits = key HITS /\ Count_Measure hits = HITS /\
     Count_Value hits = float64_of_Z (CGS_Hits b')) /\
    (Count_Key errors = key ERRORS /\ Count_Measure errors = ERRORS /\
     Count_Value errors = float64_of_Z (CGS_Errors b')) /\
    (Count_Key duration = key DURATION /\ Count_Measure duration = DURATION /\
     Count_Value duration = float64_of_Z (CGS_Duration b')).
Proof.
  intros Hg Hb env b' grain key Hhe Hhd Hed.
  eexists. exists (newBucket env (CSP_Version in_) lang group b).
  eexists. eexists. eexists.
  split; [apply ProcessStats_run|].
  split; [apply newBucket_in; assumption|].
  rewrite newBucket_Counts. cbv zeta. fold env b' grain. fold (key HITS) (key ERRORS) (key DURATION).
  split; [|split; [|split; [|split]]].
  - rewrite !map_size_insert_None, map_size_empty; [reflexivity| | |].
    + apply lookup_empty.
    + rewrite lookup_insert_ne by exact Hhe. apply lookup_empty.
    + rewrite lookup_insert_ne by exact Hed.
      rewrite lookup_insert_ne by exact Hhd. apply lookup_empty.
  - rewrite lookup_insert_ne by (intros Heq; apply Hhd; symmetry; exact Heq).
    rewrite lookup_insert_ne by (intros Heq; apply Hhe; symmetry; exact Heq).
    apply lookup_insert_eq.
  - rewrite lookup_insert_ne by (intros Heq; apply Hed; symmetry; exact Heq).
    apply lookup_insert_eq.
  - apply lookup_insert_eq.
  - repeat split.
Qed.

(** C10. Every count of every bucket that [ProcessStats] sends was made
    from a group of the client payload, and its [TopLevel] is the hits of
    that group converted to [float64], be the count one of hits, of errors
    or of duration; its [Value] is the hits, the errors or the duration of
    the group, according to its measure. *)
Theorem counts_top_level_is_hits (in_ : ClientStatsPayload) (lang : string) (w : World) :
  exists out : StatsPayload,
    OutStats (snd (ProcessStats in_ lang w)) = OutStats w ++ [out] /\
    forall (bucket : Bucket) (key : string) (c : Count),
      In bucket (SP_Stats out) ->
      Bucket_Counts bucket !! key = Some c ->
      exists (group : ClientStatsBucket) (b : ClientGroupedStats),
        In group (CSP_Stats in_) /\ In b (CSB_Stats group) /\
        let b' := sanitizeGroup b lang in
        Count_TopLevel c = float64_of_Z (CGS_Hits b') /\
        ((Count_Measure c = HITS /\ Count_Value c = float64_of_Z (CGS_Hits b')) \/
         (Count_Measure c = ERRORS /\ Count_Value c = float64_of_Z (CGS_Errors b')) \/
         (Count_Measure c = DURATION /\ Count_Value c = float64_of_Z (CGS_Duration b'))).
Proof.
  eexists. split; [apply ProcessStats_run|].
  cbn [SP_Stats]. intros bucket key c Hin Hc.
  unfold statsBuckets in Hin. apply in_flat_map in Hin. destruct Hin as (group & Hg & Hin).
  apply in_map_iff in Hin. destruct Hin as (b & <- & Hb).
  exists group, b. split; [exact Hg|]. split; [exact Hb|].
  rewrite newBucket_Counts in Hc. cbv zeta in Hc.
  apply lookup_insert_Some in Hc. destruct Hc as [[_ <-]|[_ Hc]].
  { cbn. split; [reflexivity|]. right. right. split; reflexivity. }
  apply lookup_insert_Some in Hc. destruct Hc as [[_ <-]|[_ Hc]].
  { cbn. split; [reflexivity|]. right. left. split; reflexivity. }
  apply lookup_insert_Some in Hc. destruct Hc as [[_ <-]|[_ Hc]].
  { cbn. split; [reflexivity|]. left. split; reflexivity. }
  rewrite lookup_empty in Hc. discriminate.
Qed.

End ClientStats.

(** ** Further properties of the agent *)

Section More.
Context `{Collaborators}.

(** X1. [traceContainsError] finds an error span exactly when there is one. *)
Theorem traceContainsError_iff (trace : Trace) :
  traceContainsError trace = true <->
  exists span, In span trace /\ Span_Error span <> 0.
Proof.
  induction trace as [|span rest IH]; cbn [traceContainsError].
  - split; [discriminate | intros (s & [] & _)].
  - destruct (Z.eqb_spec (Span_Error span) 0) as [Hz|Hnz].
    + rewrite IH. split.
      * intros (s & Hin & Hs). exists s. split; [right; exact Hin | exact Hs].
      * intros (s & [<-|Hin] & Hs); [contradiction|]. exists s. split; assumption.
    + split; [|reflexivity]. intros _. exists span. split; [left; reflexivity | exact Hnz].
Qed.

Lemma load_AddInt64 (c c' : Counter) (n : Z) (ts : TagStats) :
  load c' (AddInt64 c n ts) = if decide (c' = c) then add64 (load c ts) n else load c' ts.
Proof. destruct ts, c, c'; reflexivity. Qed.

(** All that [sample] does to the counters. *)
Lemma sample_Source (pt : ProcessedTrace) (w : World) :
  let priority := fst (GetSamplingPriority (deref (PT_Trace pt) (PT_Root pt))) in
  let hasPriority := snd (GetSamplingPriority (deref (PT_Trace pt) (PT_Root pt))) in
  let ts1 := AddInt64 (priorityCounter priority hasPriority) 1 (Source w) in
  Source (snd (sample pt w)) =
  if priority <? 0 then ts1
  else
    let t' := snd (fst (sample pt w)) in
    let r := event_Process (a_EventProcessor w) (deref t' (PT_Root pt)) t' in
    AddInt64 addr_EventsSampled (len (fst (fst r)))
      (AddInt64 addr_EventsExtracted (snd (fst r)) ts1).
Proof.
  cbv zeta.
  destruct (GetSamplingPriority (deref (PT_Trace pt) (PT_Root pt)))
    as [priority hasPriority] eqn:Hp.
  cbn [fst snd]. destruct (Z.ltb_spec priority 0) as [Hneg|Hge].
  - rewrite (sample_negative pt w priority hasPriority Hp Hneg). cbn [snd].
    apply Source_set_Source.
  - rewrite (sample_nonneg pt w priority hasPriority Hp Hge). cbv zeta. cbn [fst snd].
    rewrite Source_set_Source, EventProcessor_Process_run. cbn [fst snd].
    destruct (runSamplers_frame pt hasPriority
      (set_Source (AddInt64 (priorityCounter priority hasPriority) 1 (Source w)) w))
      as [Hev Hsrc].
    set (r := runSamplers pt hasPriority _) in *.
    replace (a_EventProcessor (snd r)) with (a_EventProcessor w)
      by (rewrite Hev; destruct w; reflexivity).
    replace (Source (set_EventProcessor _ (set_calls _ (snd r))))
      with (Source (snd r)) by (destruct (snd r); reflexivity).
    rewrite Hsrc, Source_set_Source. reflexivity.
Qed.

(** X2. [sample] counts every trace it is given once, whatever becomes of it:
    the counter picked for the priority of the trace grows by one and the
    four other priority counters are as before. *)
Theorem sample_counts_trace_once (pt : ProcessedTrace) (w : World) :
  let priority := fst (GetSamplingPriority (deref (PT_Trace pt) (PT_Root pt))) in
  let hasPriority := snd (GetSamplingPriority (deref (PT_Trace pt) (PT_Root pt))) in
  let c := priorityCounter priority hasPriority in
  In c priorityCounters /\
  load c (Source (snd (sample pt w))) = add64 (load c (Source w)) 1 /\
  forall c', In c' priorityCounters -> c' <> c ->
             load c' (Source (snd (sample pt w))) = load c' (Source w).
Proof.
  cbv zeta. pose proof (sample_Source pt w) as Hs. cbv zeta in Hs.
  set (priority := fst (GetSamplingPriority _)) in *.
  set (hasPriority := snd (GetSamplingPriority _)) in *.
  assert (Hin : In (priorityCounter priority hasPriority) priorityCounters).
  { unfold priorityCounter, priorityCounters.
    destruct hasPriority, (priority <? 0), (priority =? 0), (priority =? 1); cbn; tauto. }
  assert (Hev : forall c', In c' priorityCounters ->
            c' <> addr_EventsSampled /\ c' <> addr_EventsExtracted).
  { intros c' Hc'. unfold priorityCounters in Hc'. cbn in Hc'.
    destruct Hc' as [<-|[<-|[<-|[<-|[<-|[]]]]]]; split; discriminate. }
  assert (Hload : forall c',
            In c' priorityCounters ->
            load c' (Source (snd (sample pt w))) =
            load c' (AddInt64 (priorityCounter priority hasPriority) 1 (Source w))).
  { intros c' Hc'. destruct (Hev c' Hc') as [Hs1 Hs2]. rewrite Hs.
    destruct (priority <? 0); [reflexivity|].
    rewrite !load_AddInt64.
    destruct (decide (c' = addr_EventsSampled)) as [->|_]; [contradiction|].
    destruct (decide (c' = addr_EventsExtracted)) as [->|_]; [contradiction|].
    reflexivity. }
  split; [exact Hin|]. split.
  - rewrite (Hload _ Hin), load_AddInt64.
    destruct (decide _) as [_|Hne]; [reflexivity | contradiction].
  - intros c' Hc' Hne. rewrite (Hload c' Hc'), load_AddInt64.
    destruct (decide _) as [Heq|_]; [contradiction | reflexivity].
Qed.

(** X3. For a trace whose priority is not negative, [sample] adds the number of
    events the event processor says it extracted to [EventsExtracted] and
    the number of events it returns to [EventsSampled]. *)
Theorem sample_counts_events (pt : ProcessedTrace) (w : World) :
  0 <= fst (GetSamplingPriority (deref (PT_Trace pt) (PT_Root pt))) ->
  let t' := snd (fst (sample pt w)) in
  let r := event_Process (a_EventProcessor w) (deref t' (PT_Root pt)) t' in
  fst (fst (fst (sample pt w))) = fst (fst r) /\
  EventsExtracted (Source (snd (sample pt w)))
    = add64 (EventsExtracted (Source w)) (snd (fst r)) /\
  EventsSampled (Source (snd (sample pt w)))
    = add64 (EventsSampled (Source w)) (len (fst (fst (fst (sample pt w))))).
Proof.
  intros Hge. cbv zeta.
  assert (Hevents : fst (fst (fst (sample pt w))) =
            fst (fst (event_Process (a_EventProcessor w)
                        (deref (snd (fst (sample pt w))) (PT_Root pt))
                        (snd (fst (sample pt w)))))).
  { destruct (GetSamplingPriority (deref (PT_Trace pt) (PT_Root pt)))
      as [priority hasPriority] eqn:Hp. cbn [fst] in Hge.
    rewrite (sample_nonneg pt w priority hasPriority Hp Hge). cbv zeta. cbn [fst snd].
    rewrite EventProcessor_Process_run. cbn [fst snd].
    destruct (runSamplers_frame pt hasPriority
      (set_Source (AddInt64 (priorityCounter priority hasPriority) 1 (Source w)) w))
      as [Hev _].
    rewrite Hev. destruct w; reflexivity. }
  split; [exact Hevents|].
  pose proof (sample_Source pt w) as Hs. cbv zeta in Hs.
  assert (Hlt : (fst (GetSamplingPriority (deref (PT_Trace pt) (PT_Root pt))) <? 0) = false)
    by (apply Z.ltb_ge; exact Hge).
  rewrite Hlt in Hs. rewrite Hs, <- Hevents.
  set (c := priorityCounter _ _).
  assert (Hc : In c priorityCounters).
  { unfold c, priorityCounter, priorityCounters.
    generalize (fst (GetSamplingPriority (deref (PT_Trace pt) (PT_Root pt)))).
    generalize (snd (GetSamplingPriority (deref (PT_Trace pt) (PT_Root pt)))).
    intros hasPriority priority.
    destruct hasPriority, (priority <? 0), (priority =? 0), (priority =? 1); cbn; tauto. }
  clearbody c.
  change (EventsExtracted ?ts) with (load addr_EventsExtracted ts).
  change (EventsSampled ?ts) with (load addr_EventsSampled ts).
  rewrite !load_AddInt64.
  unfold priorityCounters in Hc. cbn in Hc.
  destruct Hc as [<-|[<-|[<-|[<-|[<-|[]]]]]]; cbn; split; reflexivity.
Qed.

(** X5. A trace without a priority is shown to one sampler only, the errors
    sampler if it has an error span and the score sampler if not, and the
    answer of that sampler is the decision of [sample]; the priority
    sampler, the exception sampler and the sampler not picked are left as
    they were. *)
Theorem no_priority_one_sampler (pt : ProcessedTrace) (w : World) (priority : Z) :
  GetSamplingPriority (deref (PT_Trace pt) (PT_Root pt)) = (priority, false) ->
  0 <= priority ->
  let picked := if traceContainsError (PT_Trace pt) then ErrorsScoreSampler else ScoreSampler in
  let other := if traceContainsError (PT_Trace pt) then ScoreSampler else ErrorsScoreSampler in
  let r := agent_Sampler_Add (get_Sampler picked w) pt in
  let w' := snd (sample pt w) in
  snd (fst (fst (sample pt w))) = fst (fst r) /\
  get_Sampler picked w' = snd r /\
  get_Sampler other w' = get_Sampler other w /\
  a_PrioritySampler w' = a_PrioritySampler w /\
  a_ExceptionSampler w' = a_ExceptionSampler w /\
  exists root t', calls w' = calls w ++ [call_Sampler_Add picked (PT_Trace pt);
                                         call_EventProcessor_Process root t'].
Proof.
  intros Hp Hge. cbv zeta.
  rewrite (sample_nonneg pt w priority false Hp Hge). cbv zeta. cbn [fst snd].
  unfold runSamplers. rewrite sampleNoPriorityTrace_run, Sampler_Add_run. cbn [fst snd].
  rewrite EventProcessor_Process_run. cbn [fst snd].
  destruct (traceContainsError (PT_Trace pt)); cbn [get_Sampler].
  - replace (a_ErrorsScoreSampler (set_Source _ w)) with (a_ErrorsScoreSampler w)
      by (destruct w; reflexivity).
    repeat split; try (destruct w; reflexivity).
    destruct w; cbn. eexists _, _. rewrite <- app_assoc. reflexivity.
  - replace (a_ScoreSampler (set_Source _ w)) with (a_ScoreSampler w)
      by (destruct w; reflexivity).
    repeat split; try (destruct w; reflexivity).
    destruct w; cbn. eexists _, _. rewrite <- app_assoc. reflexivity.
Qed.

(** X6. [Process] does nothing at all with a payload that has no trace, or
    whose traces are all empty: no counter moves, no call is made and
    nothing is sent. *)
Theorem Process_empty_traces (p : Payload) (w : World) :
  Forall (fun t : Trace => t = []) (Payload_Traces p) ->
  Process p w = (tt, w).
Proof.
  intros Hall.
  assert (Hloop : forall ss sinputs,
            processTraces p (Payload_Traces p) ss sinputs w = ((ss, sinputs), w)).
  { induction Hall as [|t rest -> _ IH]; intros ss sinputs; [reflexivity|].
    cbn [processTraces]. unfold bind. cbn. apply IH. }
  unfold Process. destruct (len (Payload_Traces p) =? 0); [reflexivity|].
  unfold bind. rewrite Hloop. reflexivity.
Qed.

(** An iteration adds at most one stats input. *)
Lemma processTrace_sinputs_length (p : Payload) (ss : SampledSpans) (sinputs : list Input)
    (t : Trace) (w : World) :
  (length (snd (fst (processTrace p ss sinputs t w))) <= S (length sinputs))%nat.
Proof.
  destruct t as [|span rest].
  - change (processTrace p ss sinputs [] w) with ((ss, sinputs), w). cbn. lia.
  - rewrite processTrace_run by discriminate. cbv zeta.
    destruct (snd (agent_normalizeTrace _ _)) as [e|]; [cbn; lia|].
    destruct (filters_Allows _); [|cbn; lia].
    rewrite processAllowed_run. cbv zeta. cbn [fst snd]. rewrite length_app. cbn. lia.
Qed.

Lemma processTraces_sinputs_length (p : Payload) (traces : list Trace) :
  forall ss sinputs w,
    (length (snd (fst (processTraces p traces ss sinputs w)))
     <= length sinputs + length traces)%nat.
Proof.
  induction traces as [|t rest IH]; intros ss sinputs w.
  - cbn. lia.
  - cbn [processTraces]. unfold bind.
    pose proof (processTrace_sinputs_length p ss sinputs t w) as Hone.
    destruct (processTrace p ss sinputs t w) as [[ss1 si1] w1]. cbn [fst snd] in Hone.
    specialize (IH ss1 si1 w1). cbn [length]. lia.
Qed.

(** X7. [Process] sends at most one message to the concentrator for a payload,
    never an empty one, with at most one stats input for each trace of the
    payload; it sends nothing on [OutStats]. *)
Theorem Process_concentrator_message (p : Payload) (w : World) :
  OutStats (snd (Process p w)) = OutStats w /\
  exists msgs,
    Concentrator_In (snd (Process p w)) = Concentrator_In w ++ msgs /\
    (msgs = [] \/
     exists sinputs, msgs = [sinputs] /\ sinputs <> [] /\
                     (length sinputs <= length (Payload_Traces p))%nat).
Proof.
  split.
  - unfold Process. destruct (len (Payload_Traces p) =? 0); [reflexivity|].
    pose proof (respects_processTraces p (Payload_Traces p) new_SampledSpans [] w)
      as (_ & _ & _ & _ & Hos & _).
    unfold bind.
    destruct (processTraces p (Payload_Traces p) new_SampledSpans [] w) as [[ss si] w1].
    cbn [fst snd] in *. unfold TraceWriter_In_send, Concentrator_In_send, ret.
    destruct (0 <? SS_Size ss), (0 <? len si); cbn [fst snd];
      rewrite <- Hos; destruct w1; reflexivity.
  - destruct (Process_run p w) as [_ Hci]. rewrite Hci.
    pose proof (processTraces_sinputs_length p (Payload_Traces p) new_SampledSpans [] w)
      as Hlen.
    set (si := snd (fst (processTraces p (Payload_Traces p) new_SampledSpans [] w))) in *.
    clearbody si. eexists. split; [reflexivity|].
    destruct (Z.ltb_spec 0 (len si)) as [Hpos|Hzero].
    + right. exists si. split; [reflexivity|]. split.
      * intros ->. unfold len in Hpos. cbn in Hpos. lia.
      * cbn in Hlen. exact Hlen.
    + left. reflexivity.
Qed.

(** X8. With a ceiling that is not negative, every batch that [Process] sends
    to the trace writer has a positive size: the batches sent during the
    loop exceed the ceiling, the one sent after it is sent for its size
    being positive. *)
Theorem Process_batches_positive (p : Payload) (w : World) :
  0 <= MaxPayloadSize ->
  exists batches,
    TraceWriter_In (snd (Process p w)) = TraceWriter_In w ++ batches /\
    Forall (fun b => 0 < SS_Size b) batches.
Proof.
  intros Hmax. destruct (Process_run p w) as [Htw _]. rewrite Htw.
  pose proof (respects_processTraces p (Payload_Traces p) new_SampledSpans [] w)
    as (_ & _ & _ & _ & _ & _ & (batches & Hb & Hall)).
  rewrite Hb, <- app_assoc. eexists. split; [reflexivity|].
  apply Forall_app. split.
  - eapply Forall_impl; [exact Hall|]. unfold exceeds. intros b Hbig. cbn in Hbig. lia.
  - destruct (Z.ltb_spec 0 (SS_Size (fst (fst (processTraces p (Payload_Traces p)
                                                  new_SampledSpans [] w))))).
    + constructor; [assumption | constructor].
    + constructor.
Qed.

(** X9. The loop over the subtraces records sublayers for the root of every
    subtrace, whether the trace is kept or not, and keeps the entries it
    was given for other spans; it never changes the number of spans, and it
    leaves a trace that is not kept as it was. *)
Theorem sublayersLoop_records_every_root (keep : bool) (subtraces : list Subtrace)
    (t : Trace) (sublayers : gmap nat (list SublayerValue)) :
  (forall subtrace, In subtrace subtraces ->
     is_Some (snd (sublayersLoop keep subtraces t sublayers) !! Subtrace_Root subtrace)) /\
  (forall root, ~ In root (map Subtrace_Root subtraces) ->
     snd (sublayersLoop keep subtraces t sublayers) !! root = sublayers !! root) /\
  length (fst (sublayersLoop keep subtraces t sublayers)) = length t /\
  (keep = false -> fst (sublayersLoop keep subtraces t sublayers) = t).
Proof.
  revert t sublayers.
  induction subtraces as [|subtrace rest IH]; intros t sublayers; cbn [sublayersLoop].
  - repeat split; intros s [].
  - cbv zeta.
    set (v := ComputeSublayers (map (deref t) (Subtrace_Trace subtrace))).
    set (t1 := if keep then mutate _ _ t else t).
    destruct (IH t1 (<[Subtrace_Root subtrace := v]> sublayers)) as (Hroots & Hother & Hlen & Hsame).
    assert (Hlen1 : length t1 = length t).
    { unfold t1, mutate. destruct keep; [apply length_alter | reflexivity]. }
    split; [|split; [|split]].
    + intros s [<-|Hin]; [|apply Hroots; exact Hin].
      destruct (in_dec Nat.eq_dec (Subtrace_Root subtrace) (map Subtrace_Root rest))
        as [Hagain|Hfresh].
      * apply in_map_iff in Hagain. destruct Hagain as (s' & Hs' & Hin').
        specialize (Hroots s' Hin'). rewrite Hs' in Hroots. exact Hroots.
      * rewrite (Hother _ Hfresh), lookup_insert_eq. eexists. reflexivity.
    + intros root Hnot. cbn [map] in Hnot.
      rewrite Hother by (intros Hin; apply Hnot; right; exact Hin).
      apply lookup_insert_ne. intros Heq. apply Hnot. left. exact Heq.
    + rewrite Hlen. exact Hlen1.
    + intros ->. rewrite Hsame by reflexivity. reflexivity.
Qed.

(** X10. [ProcessStats] sends one payload on [OutStats], also when the client
    payload has no bucket, and changes nothing else in the world; the
    payload has the host name of the client payload and one bucket for each
    group of each of its buckets. *)
Theorem ProcessStats_one_payload (in_ : ClientStatsPayload) (lang : string) (w : World) :
  exists out : StatsPayload,
    ProcessStats in_ lang w = (tt, set_OutStats (OutStats w ++ [out]) w) /\
    SP_HostName out = CSP_Hostname in_ /\
    length (SP_Stats out)
      = list_sum (map (fun group => length (CSB_Stats group)) (CSP_Stats in_)).
Proof.
  eexists. split; [|split].
  - unfold ProcessStats, bind, gets, OutStats_send. reflexivity.
  - reflexivity.
  - cbn [SP_Stats]. unfold statsBuckets.
    induction (CSP_Stats in_) as [|group rest IH]; [reflexivity|].
    cbn [flat_map map list_sum]. rewrite length_app, length_map, IH. reflexivity.
Qed.

End More.

(** ** Properties of the wire format *)

Lemma add64_small (a b : Z) : - 2 ^ 63 <= a + b < 2 ^ 63 -> add64 a b = a + b.
Proof.
  intros Hab. unfold add64, wrap64.
  rewrite Z.mod_small by lia. lia.
Qed.

Lemma wrap64_small (a : Z) : - 2 ^ 63 <= a < 2 ^ 63 -> wrap64 a = a.
Proof. intros Ha. unfold wrap64. rewrite Z.mod_small by lia. lia. Qed.

Lemma len_app {A} (l1 l2 : list A) : len (l1 ++ l2) = len l1 + len l2.
Proof. unfold len. rewrite length_app. lia. Qed.

Lemma len_cons {A} (a : A) (l : list A) : len (a :: l) = 1 + len l.
Proof. unfold len. cbn [length]. lia. Qed.

Lemma len_nonneg {A} (l : list A) : 0 <= len l.
Proof. unfold len. lia. Qed.

Lemma byteval_bounds (b : byte) : 0 <= byteval b < 256.
Proof. unfold byteval. pose proof (Byte.to_N_bounded b). lia. Qed.

Lemma byteval_uint8 (z : Z) : byteval (uint8 z) = z mod 256.
Proof.
  unfold uint8, byteval.
  assert (Hr : 0 <= z mod 256 < 256) by (apply Z.mod_pos_bound; lia).
  pose proof (Byte.to_of_N_option_map (Z.to_N (z mod 256))) as Hopt.
  destruct (Byte.of_N (Z.to_N (z mod 256))) as [b|] eqn:Hb; cbn in Hopt.
  - destruct (Z.to_N (z mod 256) <=? 255)%N; [|discriminate].
    injection Hopt as ->. lia.
  - destruct (N.leb_spec (Z.to_N (z mod 256)) 255); [discriminate | lia].
Qed.

Lemma uint8_byteval (b : byte) : uint8 (byteval b) = b.
Proof.
  unfold uint8, byteval. pose proof (byteval_bounds b) as Hb. unfold byteval in Hb.
  rewrite Z.mod_small by lia. rewrite N2Z.id, Byte.of_to_N. reflexivity.
Qed.

(** Bits that do not meet add up. *)
Lemma lor_shiftl_add (acc y s : Z) :
  0 <= s -> 0 <= acc < 2 ^ s -> 0 <= y ->
  Z.lor acc (Z.shiftl y s) = acc + y * 2 ^ s.
Proof.
  intros Hs Hacc Hy. rewrite <- Z.shiftl_mul_pow2 by exact Hs.
  rewrite <- Z.add_lor_land.
  assert (Hland : Z.land acc (Z.shiftl y s) = 0).
  { apply Z.bits_inj'. intros n Hn. rewrite Z.land_spec, Z.bits_0.
    destruct (Z.lt_ge_cases n s) as [Hlt|Hge].
    - rewrite (Z.shiftl_spec_low y s n Hlt). apply andb_false_r.
    - destruct (Z.eq_dec acc 0) as [->|Hnz]; [rewrite Z.bits_0; reflexivity|].
      rewrite (Z.bits_above_log2 acc n); [reflexivity | lia |].
      apply Z.log2_lt_pow2; [lia|].
      eapply Z.lt_le_trans; [apply Hacc|]. apply Z.pow_le_mono_r; lia. }
  rewrite Hland. lia.
Qed.

Lemma land_127 (v : Z) : 0 <= v -> Z.land v 127 = v mod 128.
Proof. intros Hv. change 127 with (Z.ones 7). rewrite Z.land_ones by lia. reflexivity. Qed.

Lemma lor_128 (x : Z) : 0 <= x < 128 -> Z.lor x 128 = x + 128.
Proof.
  intros Hx. rewrite Z.lor_comm.
  change 128 with (Z.shiftl 1 7) at 1.
  rewrite Z.lor_comm, (lor_shiftl_add x 1 7) by lia. lia.
Qed.

(** The byte of a varint that has a byte after it, and the last one. *)
Lemma byteval_continued (v : Z) :
  0 <= v -> byteval (uint8 (Z.lor (Z.land v 127) 128)) = v mod 128 + 128.
Proof.
  intros Hv. rewrite byteval_uint8, land_127 by exact Hv.
  pose proof (Z.mod_pos_bound v 128 ltac:(lia)) as Hm.
  rewrite lor_128 by exact Hm. apply Z.mod_small. lia.
Qed.

Lemma byteval_last (v : Z) : 0 <= v < 128 -> byteval (uint8 v) = v.
Proof. intros Hv. rewrite byteval_uint8. apply Z.mod_small. lia. Qed.

(** *** Buffers *)

Lemma peek_app (pre post : list byte) (b : byte) :
  peek (pre ++ b :: post) (len pre) = Some b.
Proof.
  unfold peek. rewrite len_app, len_cons.
  pose proof (len_nonneg pre). pose proof (len_nonneg post).
  replace ((0 <=? len pre) && (len pre <? len pre + (1 + len post))) with true
    by (symmetry; apply andb_true_intro; split; [apply Z.leb_le | apply Z.ltb_lt]; lia).
  unfold len. rewrite Nat2Z.id. apply list_lookup_middle. reflexivity.
Qed.

Lemma len_splice (data : list byte) (i : Z) (bytes : list byte) :
  0 <= i -> i + len bytes <= len data -> len (splice data i bytes) = len data.
Proof.
  intros Hi Hroom. unfold splice, len in *.
  rewrite !length_app, length_take, length_drop. lia.
Qed.

Lemma splice_nil (data : list byte) (i : Z) : 0 <= i -> splice data i [] = data.
Proof.
  intros Hi. unfold splice. cbn [app]. rewrite Z.add_0_r. apply take_drop.
Qed.

Lemma splice_splice (data : list byte) (i : Z) (b1 b2 : list byte) :
  0 <= i -> i + len b1 + len b2 <= len data ->
  splice (splice data i b1) (i + len b1) b2 = splice data i (b1 ++ b2).
Proof.
  intros Hi Hroom. pose proof (len_nonneg b1). pose proof (len_nonneg b2).
  unfold splice, len in *. rewrite length_app.
  set (front := take (Z.to_nat i) data).
  assert (Hfront : length front = Z.to_nat i) by (unfold front; rewrite length_take; lia).
  replace (Z.to_nat (i + Z.of_nat (length b1))) with (length (front ++ b1))
    by (rewrite length_app; lia).
  rewrite (app_assoc front b1), take_app_length.
  rewrite <- !app_assoc. f_equal. f_equal. f_equal.
  replace (Z.to_nat (i + Z.of_nat (length b1) + Z.of_nat (length b2)))
    with (length (front ++ b1) + length b2)%nat by (rewrite length_app; lia).
  rewrite (app_assoc front b1), <- drop_drop, drop_app_length, drop_drop. f_equal.
  rewrite length_app. lia.
Qed.

Lemma poke_splice (data : list byte) (i : Z) (b : byte) :
  0 <= i < len data -> poke data i b = Some (splice data i [b]).
Proof.
  intros Hi. unfold poke.
  replace ((0 <=? i) && (i <? len data)) with true
    by (symmetry; apply andb_true_intro; split; [apply Z.leb_le | apply Z.ltb_lt]; lia).
  f_equal. unfold splice, len in *. cbn [length app].
  rewrite insert_take_drop by lia. f_equal. f_equal. f_equal. lia.
Qed.

Lemma poke_out (data : list byte) (i : Z) (b : byte) :
  len data <= i -> poke data i b = None.
Proof.
  intros Hi. unfold poke. destruct (Z.ltb_spec i (len data)); [lia|].
  rewrite andb_false_r. reflexivity.
Qed.

(** *** Varints *)

Lemma sovStats_loop_varintBytes (f : nat) : forall v n,
  0 <= v < 2 ^ (7 * Z.of_nat f) -> 0 <= n -> n + Z.of_nat f < 2 ^ 63 ->
  sovStats_loop f n v = n + len (varintBytes f v).
Proof.
  induction f as [|f IH]; intros v n Hv Hn Hroom.
  - cbn. unfold len. cbn. lia.
  - cbn [sovStats_loop varintBytes]. rewrite add64_small by lia.
    rewrite Z.shiftr_div_pow2 by lia. change (2 ^ 7) with 128.
    destruct (Z.leb_spec 128 v) as [Hbig|Hsmall].
    + destruct (Z.eqb_spec (v / 128) 0) as [Hz|Hnz].
      { apply Z.div_small_iff in Hz; lia. }
      rewrite len_cons, IH; [lia | | lia | lia].
      split; [apply Z.div_pos; lia|].
      apply Z.div_lt_upper_bound; [lia|].
      replace (7 * Z.of_nat (S f)) with (7 + 7 * Z.of_nat f) in Hv by lia.
      rewrite Z.pow_add_r in Hv by lia. lia.
    + rewrite Z.div_small by lia. cbn. unfold len. cbn. lia.
Qed.

Lemma sovStats_wireVarint (v : Z) :
  0 <= v < 2 ^ 64 -> sovStats v = len (wireVarint v).
Proof.
  intros Hv. unfold sovStats, wireVarint.
  rewrite sovStats_loop_varintBytes; lia.
Qed.

Lemma varintBytes_S (f : nat) (v : Z) :
  varintBytes (S f) v
  = if 128 <=? v then uint8 (Z.lor (Z.land v 127) 128) :: varintBytes f (Z.shiftr v 7)
    else [uint8 v].
Proof. reflexivity. Qed.

Lemma len_varintBytes (f : nat) : forall v,
  len (varintBytes (S f) v) <= Z.of_nat (S f) /\ 1 <= len (varintBytes (S f) v).
Proof.
  induction f as [|f IH]; intros v.
  - cbn. destruct (128 <=? v); unfold len; cbn; lia.
  - rewrite varintBytes_S. destruct (128 <=? v).
    + rewrite len_cons. specialize (IH (Z.shiftr v 7)). lia.
    + unfold len. cbn. lia.
Qed.

Lemma len_wireVarint (v : Z) : 1 <= len (wireVarint v) <= 10.
Proof. pose proof (len_varintBytes 9 v). unfold wireVarint. lia. Qed.
Lemma encodeVarintStats_loop_S (f : nat) (data : list byte) (offset v : Z) :
  encodeVarintStats_loop (S f) data offset v
  = if 128 <=? v then
      match poke data offset (uint8 (Z.lor (Z.land v 127) 128)) with
      | Some data => encodeVarintStats_loop f data (add64 offset 1) (Z.shiftr v 7)
      | None => Panic
      end
    else
      match poke data offset (uint8 v) with
      | Some data => Done (data, add64 offset 1)
      | None => Panic
      end.
Proof. reflexivity. Qed.

Lemma pow_7_S (f : nat) : 2 ^ (7 * Z.of_nat (S f)) = 128 * 2 ^ (7 * Z.of_nat f).
Proof.
  replace (7 * Z.of_nat (S f)) with (7 + 7 * Z.of_nat f) by lia.
  rewrite Z.pow_add_r by lia. reflexivity.
Qed.

Lemma shiftr_7_bounds (f : nat) (v : Z) :
  128 <= v < 2 ^ (7 * Z.of_nat (S f)) ->
  1 <= Z.shiftr v 7 < 2 ^ (7 * Z.of_nat f) /\ Z.shiftr v 7 = v / 128.
Proof.
  intros Hv. rewrite pow_7_S in Hv. rewrite Z.shiftr_div_pow2 by lia.
  change (2 ^ 7) with 128. repeat split.
  - apply Z.div_le_lower_bound; lia.
  - apply Z.div_lt_upper_bound; lia.
Qed.

Lemma encodeVarintStats_loop_writes (f : nat) : forall v,
  0 <= v < 2 ^ (7 * Z.of_nat (S f)) ->
  writes (fun data i => encodeVarintStats_loop (S f) data i v) (varintBytes (S f) v).
Proof.
  induction f as [|f IH]; intros v Hv data i Hi Hroom Hlen;
    rewrite encodeVarintStats_loop_S; rewrite varintBytes_S in *.
  - destruct (Z.leb_spec 128 v) as [Hbig|Hsmall]; [change (2 ^ (7 * Z.of_nat 1)) with 128 in Hv; lia|].
    rewrite len_cons in Hroom. change (len []) with 0 in Hroom.
    rewrite poke_splice by lia. rewrite add64_small by lia. reflexivity.
  - destruct (Z.leb_spec 128 v) as [Hbig|Hsmall].
    + destruct (shiftr_7_bounds (S f) v) as [Hv' _]; [lia|].
      rewrite len_cons in *. pose proof (len_nonneg (varintBytes (S f) (Z.shiftr v 7))).
      rewrite poke_splice by lia. rewrite add64_small by lia.
      rewrite (IH (Z.shiftr v 7)); [| lia | lia | | ].
      * change (i + 1) with (i + len [uint8 (Z.lor (Z.land v 127) 128)]).
        rewrite splice_splice by (change (len [_]) with 1; lia).
        change (len [_]) with 1. f_equal. f_equal. lia.
      * rewrite len_splice; change (len [_]) with 1; lia.
      * rewrite len_splice; change (len [_]) with 1; lia.
    + rewrite len_cons in *. change (len []) with 0 in *.
      rewrite poke_splice by lia. rewrite add64_small by lia. reflexivity.
Qed.

Lemma encodeVarintStats_writes (v : Z) :
  0 <= v < 2 ^ 64 -> writes (fun data i => encodeVarintStats data i v) (wireVarint v).
Proof.
  intros Hv. apply (encodeVarintStats_loop_writes 9 v).
  change (2 ^ (7 * Z.of_nat 10)) with (2 ^ 70). lia.
Qed.

Lemma encodeVarintStats_loop_short (f : nat) : forall v data i,
  0 <= v < 2 ^ (7 * Z.of_nat (S f)) ->
  0 <= i -> len data < i + len (varintBytes (S f) v) -> len data < 2 ^ 63 ->
  encodeVarintStats_loop (S f) data i v = Panic.
Proof.
  induction f as [|f IH]; intros v data i Hv Hi Hroom Hlen;
    rewrite encodeVarintStats_loop_S; rewrite varintBytes_S in *.
  - destruct (Z.leb_spec 128 v) as [Hbig|Hsmall];
      [change (2 ^ (7 * Z.of_nat 1)) with 128 in Hv; lia|].
    rewrite len_cons in Hroom; change (len []) with 0 in Hroom.
    rewrite poke_out by lia. reflexivity.
  - destruct (Z.leb_spec 128 v) as [Hbig|Hsmall]; rewrite ?len_cons in Hroom.
    + destruct (shiftr_7_bounds (S f) v) as [Hv' _]; [lia|].
      destruct (Z.lt_ge_cases i (len data)) as [Hin|Hout].
      * rewrite poke_splice by lia. rewrite add64_small by lia.
        apply IH; [lia | lia | | ]; rewrite len_splice; change (len [_]) with 1; lia.
      * rewrite poke_out by lia. reflexivity.
    + change (len []) with 0 in Hroom. rewrite poke_out by lia. reflexivity.
Qed.
Lemma readVarint_S (fuel : nat) (width : Z) (data : list byte) (iNdEx shift acc : Z) :
  readVarint (S fuel) width data iNdEx shift acc
  = if 64 <=? shift then Fail ErrIntOverflowStats
    else if len data <=? iNdEx then Fail ErrUnexpectedEOF
    else
      match peek data iNdEx with
      | None => Panic
      | Some b =>
          let iNdEx := add64 iNdEx 1 in
          let acc := Z.lor acc (Z.shiftl (Z.land (byteval b) 127) shift mod 2 ^ width) in
          if byteval b <? 128 then Done (acc, iNdEx)
          else readVarint fuel width data iNdEx (shift + 7) acc
      end.
Proof. reflexivity. Qed.

Lemma app_cons_middle {A} (pre : list A) (b : A) (rest : list A) :
  pre ++ b :: rest = (pre ++ [b]) ++ rest.
Proof. rewrite <- app_assoc. reflexivity. Qed.

Lemma lor_shiftl_mod (width acc y shift : Z) :
  0 <= shift -> 0 <= acc < 2 ^ shift -> 0 <= y -> y * 2 ^ shift < 2 ^ width ->
  Z.lor acc (Z.shiftl y shift mod 2 ^ width) = acc + y * 2 ^ shift.
Proof.
  intros Hs Hacc Hy Hfit.
  assert (Hpow : 0 < 2 ^ shift) by (apply Z.pow_pos_nonneg; lia).
  rewrite (Z.mod_small (Z.shiftl y shift)) by (rewrite Z.shiftl_mul_pow2; nia).
  apply lor_shiftl_add; lia.
Qed.

Lemma readVarint_varintBytes (width : Z) (f : nat) :
  forall v pre post shift acc fuel,
  0 <= v < 2 ^ (7 * Z.of_nat (S f)) ->
  0 <= shift < 64 -> 0 <= acc < 2 ^ shift -> v * 2 ^ shift < 2 ^ width -> width <= 64 ->
  (length (varintBytes (S f) v) <= fuel)%nat ->
  len (pre ++ varintBytes (S f) v ++ post) < 2 ^ 63 ->
  readVarint fuel width (pre ++ varintBytes (S f) v ++ post) (len pre) shift acc
  = Done (acc + v * 2 ^ shift, len pre + len (varintBytes (S f) v)).
Proof.
  induction f as [|f IH]; intros v pre post shift acc fuel Hv Hshift Hacc Hfit Hwidth Hfuel Hlen;
    rewrite varintBytes_S in *.
  - destruct (Z.leb_spec 128 v) as [Hbig|Hsmall];
      [change (2 ^ (7 * Z.of_nat 1)) with 128 in Hv; lia|].
    destruct fuel as [|fuel]; [cbn in Hfuel; lia|].
    rewrite readVarint_S. cbn [app] in *. rewrite !len_app, !len_cons in *.
    pose proof (len_nonneg pre). pose proof (len_nonneg post).
    destruct (Z.leb_spec 64 shift); [lia|].
    destruct (Z.leb_spec (len pre + (1 + len post)) (len pre)); [lia|].
    rewrite peek_app. cbv zeta. rewrite byteval_last by lia.
    destruct (Z.ltb_spec v 128); [|lia].
    rewrite land_127, (Z.mod_small v 128) by lia.
    rewrite lor_shiftl_mod, add64_small by lia.
    change (len []) with 0. reflexivity.
  - destruct (Z.leb_spec 128 v) as [Hbig|Hsmall].
    + destruct (shiftr_7_bounds (S f) v) as [Hv' Hdiv]; [lia|].
      destruct fuel as [|fuel]; [cbn in Hfuel; lia|].
      rewrite readVarint_S. cbn [app] in *. rewrite !len_app, !len_cons in *.
      pose proof (len_nonneg pre). pose proof (len_nonneg post).
      pose proof (len_nonneg (varintBytes (S f) (Z.shiftr v 7))).
      destruct (Z.leb_spec 64 shift); [lia|].
      match goal with |- context [len pre + ?n <=? len pre] =>
        destruct (Z.leb_spec (len pre + n) (len pre)); [rewrite len_app in *; lia|] end.
      rewrite peek_app. cbv zeta. rewrite byteval_continued by lia.
      destruct (Z.ltb_spec (v mod 128 + 128) 128) as [Hlt|_];
        [pose proof (Z.mod_pos_bound v 128); lia|].
      assert (Hlow : 0 <= v mod 128 < 128) by (apply Z.mod_pos_bound; lia).
      assert (Hpow : 0 < 2 ^ shift) by (apply Z.pow_pos_nonneg; lia).
      rewrite (land_127 (v mod 128 + 128)) by lia.
      replace ((v mod 128 + 128) mod 128) with (v mod 128)
        by (rewrite <- Z.add_mod_idemp_r, Z.mod_same, Z.add_0_r, Z.mod_mod by lia; reflexivity).
      assert (Hv128 : v = 128 * (v / 128) + v mod 128) by (apply Z.div_mod; lia).
      assert (Hq : 1 <= v / 128) by lia.
      rewrite lor_shiftl_mod, add64_small by (lia || nia).
      rewrite app_cons_middle.
      replace (len pre + 1) with (len (pre ++ [uint8 (Z.lor (Z.land v 127) 128)]))
        by (rewrite len_app; reflexivity).
      assert (Hpow7 : 2 ^ (shift + 7) = 128 * 2 ^ shift)
        by (rewrite Z.pow_add_r by lia; change (2 ^ 7) with 128; lia).
      assert (Hs63 : shift + 7 < 64).
      { destruct (Z.lt_ge_cases (shift + 7) 64) as [|Hge]; [assumption|].
        assert (2 ^ 64 <= 2 ^ (shift + 7)) by (apply Z.pow_le_mono_r; lia).
        assert (2 ^ width <= 2 ^ 64) by (apply Z.pow_le_mono_r; lia).
        nia. }
      rewrite IH; [ | lia | lia | | | lia | cbn [length] in Hfuel; lia | ].
      * rewrite len_app. change (len [_]) with 1. f_equal. f_equal; [|lia].
        rewrite Hpow7, Hdiv. lia.
      * rewrite Hpow7. nia.
      * rewrite Hpow7, Hdiv. nia.
      * rewrite <- app_cons_middle. rewrite !len_app, !len_cons, !len_app.
        rewrite len_app in Hlen. lia.
    + destruct fuel as [|fuel]; [cbn in Hfuel; lia|].
      rewrite readVarint_S. cbn [app] in *. rewrite !len_app, !len_cons in *.
      pose proof (len_nonneg pre). pose proof (len_nonneg post).
      destruct (Z.leb_spec 64 shift); [lia|].
      destruct (Z.leb_spec (len pre + (1 + len post)) (len pre)); [lia|].
      rewrite peek_app. cbv zeta. rewrite byteval_last by lia.
      destruct (Z.ltb_spec v 128); [|lia].
      rewrite land_127, (Z.mod_small v 128) by lia.
      rewrite lor_shiftl_mod, add64_small by lia.
      change (len []) with 0. reflexivity.
Qed.
Lemma varint_wireVarint (width v : Z) (pre post : list byte) :
  0 <= v < 2 ^ width -> width <= 64 ->
  len (pre ++ wireVarint v ++ post) < 2 ^ 63 ->
  varint width (pre ++ wireVarint v ++ post) (len pre)
  = Done (v, len pre + len (wireVarint v)).
Proof.
  intros Hv Hwidth Hlen. unfold varint, wireVarint in *.
  assert (2 ^ width <= 2 ^ 64) by (apply Z.pow_le_mono_r; lia).
  rewrite (readVarint_varintBytes width 9); try lia.
  - f_equal. f_equal. lia.
  - pose proof (len_varintBytes 9 v) as [Hten _]. unfold len in Hten. clear - Hten. lia.
Qed.

Lemma sovStats_loop_spec (f : nat) : forall v n,
  0 <= v < 2 ^ (7 * Z.of_nat (S f)) -> 0 <= n -> n + Z.of_nat (S f) < 2 ^ 63 ->
  n + 1 <= sovStats_loop (S f) n v <= n + Z.of_nat (S f) /\
  v < 2 ^ (7 * (sovStats_loop (S f) n v - n)) /\
  (128 <= v -> 2 ^ (7 * (sovStats_loop (S f) n v - n - 1)) <= v).
Proof.
  induction f as [|f IH]; intros v n Hv Hn Hroom.
  - change (2 ^ (7 * Z.of_nat 1)) with 128 in Hv.
    cbn [sovStats_loop]. rewrite add64_small by lia.
    destruct (_ =? 0); replace (n + 1 - n) with 1 by lia; change (2 ^ (7 * 1)) with 128; lia.
  - change (sovStats_loop (S (S f)) n v)
      with (if Z.shiftr v 7 =? 0 then add64 n 1
            else sovStats_loop (S f) (add64 n 1) (Z.shiftr v 7)).
    rewrite add64_small by lia.
    destruct (Z.leb_spec 128 v) as [Hbig|Hsmall].
    + destruct (shiftr_7_bounds (S f) v) as [Hv' Hdiv]; [lia|].
      destruct (Z.eqb_spec (Z.shiftr v 7) 0) as [Hz|_]; [lia|].
      destruct (IH (Z.shiftr v 7) (n + 1)) as (Hr & Hup & Hlow); [lia | lia | lia |].
      set (r := sovStats_loop (S f) (n + 1) (Z.shiftr v 7)) in *.
      assert (Hv128 : v = 128 * (v / 128) + v mod 128) by (apply Z.div_mod; lia).
      pose proof (Z.mod_pos_bound v 128 ltac:(lia)) as Hm.
      assert (Hp : 2 ^ (7 * (r - n)) = 128 * 2 ^ (7 * (r - (n + 1)))).
      { replace (7 * (r - n)) with (7 + 7 * (r - (n + 1))) by lia.
        rewrite Z.pow_add_r by lia. reflexivity. }
      split; [lia|]. split; [rewrite Hp; lia|]. intros _.
      destruct (Z.leb_spec 128 (Z.shiftr v 7)) as [Hbig'|Hsmall'].
      * specialize (Hlow Hbig').
        replace (7 * (r - n - 1)) with (7 + 7 * (r - (n + 1) - 1)) by lia.
        rewrite Z.pow_add_r by lia. change (2 ^ 7) with 128. lia.
      * assert (Hr1 : r = n + 2).
        { unfold r. cbn [sovStats_loop]. rewrite add64_small by lia.
          replace (Z.shiftr (Z.shiftr v 7) 7) with 0; [cbn; lia|].
          symmetry. rewrite (Z.shiftr_div_pow2 _ 7) by lia. apply Z.div_small.
          change (2 ^ 7) with 128. lia. }
        rewrite Hr1. replace (7 * (n + 2 - n - 1)) with 7 by lia.
        change (2 ^ 7) with 128. lia.
    + replace (Z.shiftr v 7) with 0
        by (symmetry; rewrite Z.shiftr_div_pow2 by lia; apply Z.div_small;
            change (2 ^ 7) with 128; lia).
      cbn [Z.eqb]. replace (n + 1 - n) with 1 by lia. change (2 ^ (7 * 1)) with 128. lia.
Qed.

(** A byte of a varint with the bit set that says another one follows. *)
Lemma readVarint_continued (width : Z) (post : list byte) :
  forall bs pre shift acc fuel,
  Forall (fun b => 128 <= byteval b) bs ->
  (length bs <= fuel)%nat ->
  len (pre ++ bs ++ post) < 2 ^ 63 ->
  0 <= shift -> shift + 7 * len bs < 71 ->
  exists acc',
    readVarint fuel width (pre ++ bs ++ post) (len pre) shift acc
    = readVarint (fuel - length bs) width (pre ++ bs ++ post)
        (len pre + len bs) (shift + 7 * len bs) acc'.
Proof.
  induction bs as [|b bs IH]; intros pre shift acc fuel Hall Hfuel Hlen Hshift Hlast.
  - exists acc. cbn [length]. change (len []) with 0.
    rewrite Nat.sub_0_r, Z.mul_0_r, !Z.add_0_r. reflexivity.
  - apply Forall_cons in Hall as [Hb Hall].
    destruct fuel as [|fuel]; [cbn in Hfuel; lia|].
    rewrite len_cons in Hlast. pose proof (len_nonneg bs).
    rewrite readVarint_S. cbn [app].
    destruct (Z.leb_spec 64 shift); [lia|].
    destruct (Z.leb_spec (len (pre ++ b :: bs ++ post)) (len pre)) as [Hend|_].
    { rewrite len_app, len_cons in Hend. pose proof (len_nonneg (bs ++ post)). lia. }
    rewrite peek_app. cbv zeta.
    destruct (Z.ltb_spec (byteval b) 128); [lia|].
    rewrite add64_small
      by (cbn [app] in Hlen; rewrite len_app, len_cons in Hlen;
          pose proof (len_nonneg pre); pose proof (len_nonneg (bs ++ post)); lia).
    rewrite app_cons_middle.
    replace (len pre + 1) with (len (pre ++ [b])) by (rewrite len_app; reflexivity).
    edestruct (IH (pre ++ [b]) (shift + 7)) as [acc' Heq];
      [exact Hall | cbn [length] in Hfuel; apply le_S_n; exact Hfuel
      | rewrite <- app_cons_middle; exact Hlen | lia | lia | ].
    exists acc'. rewrite Heq. cbn [length Nat.sub].
    rewrite len_app, !len_cons. change (len []) with 0.
    f_equal; lia.
Qed.

Lemma take_splice (data : list byte) (i : Z) (bytes : list byte) :
  0 <= i <= len data ->
  take (Z.to_nat i) (splice data i bytes) = take (Z.to_nat i) data.
Proof.
  intros Hi. unfold splice, len in *.
  rewrite take_app_le by (rewrite length_take; lia).
  rewrite take_take. f_equal. lia.
Qed.

Lemma drop_splice (data : list byte) (i : Z) (bytes : list byte) :
  0 <= i -> i + len bytes <= len data ->
  drop (Z.to_nat (i + len bytes)) (splice data i bytes)
  = drop (Z.to_nat (i + len bytes)) data.
Proof.
  intros Hi Hroom. unfold splice, len in *.
  rewrite app_assoc.
  replace (Z.to_nat (i + Z.of_nat (length bytes)))
    with (length (take (Z.to_nat i) data ++ bytes)) at 1
    by (rewrite length_app, length_take; lia).
  apply drop_app_length.
Qed.
(** X11. sovStats (stats.pb.go): for a [uint64] [v], [sovStats v] is between 1
    and 10 and is the least number of groups of seven bits that hold [v]:
    [v < 2^(7 * sovStats v)], and [2^(7 * (sovStats v - 1)) <= v] unless [v]
    fits in one group. *)
Theorem sovStats_least_groups (v : Z) :
  0 <= v < 2 ^ 64 ->
  1 <= sovStats v <= 10 /\
  v < 2 ^ (7 * sovStats v) /\
  (128 <= v -> 2 ^ (7 * (sovStats v - 1)) <= v).
Proof.
  intros Hv. unfold sovStats.
  destruct (sovStats_loop_spec 9 v 0) as (Hr & Hup & Hlow); [| lia | lia |].
  - change (2 ^ (7 * Z.of_nat 10)) with (2 ^ 70). lia.
  - rewrite Z.sub_0_r in *. repeat split; [lia | lia | exact Hup | exact Hlow].
Qed.

(** X12. encodeVarintStats and the varint loop of Unmarshal (stats.pb.go): in a
    buffer with room for it, [encodeVarintStats] writes [sovStats v] bytes
    from [offset] on, returns the offset after them and leaves the rest of
    the buffer as it was; the loop that reads a varint at [offset] of the
    buffer then gives [v] back, and the same offset after it. *)
Theorem encodeVarintStats_then_varint (data : list byte) (offset v : Z) :
  0 <= v < 2 ^ 64 -> 0 <= offset ->
  offset + sovStats v <= len data -> len data < 2 ^ 63 ->
  exists data',
    encodeVarintStats data offset v = Done (data', offset + sovStats v) /\
    len data' = len data /\
    take (Z.to_nat offset) data' = take (Z.to_nat offset) data /\
    drop (Z.to_nat (offset + sovStats v)) data'
    = drop (Z.to_nat (offset + sovStats v)) data /\
    varint 64 data' offset = Done (v, offset + sovStats v).
Proof.
  intros Hv Hoffset Hroom Hlen.
  rewrite sovStats_wireVarint in * by exact Hv.
  pose proof (len_wireVarint v) as Hbytes.
  exists (splice data offset (wireVarint v)). split; [|split; [|split; [|split]]].
  - apply (encodeVarintStats_writes v Hv); assumption.
  - apply len_splice; assumption.
  - apply take_splice. lia.
  - apply drop_splice; assumption.
  - unfold splice.
    assert (Hpre : len (take (Z.to_nat offset) data) = offset)
      by (unfold len in *; rewrite length_take; lia).
    pose proof (varint_wireVarint 64 v (take (Z.to_nat offset) data)
                  (drop (Z.to_nat (offset + len (wireVarint v))) data)) as Hread.
    rewrite Hpre in Hread. apply Hread; [exact Hv | lia |].
    fold (splice data offset (wireVarint v)). rewrite len_splice; assumption.
Qed.

(** X13. encodeVarintStats (stats.pb.go): in a buffer that ends before the last
    byte of the varint, the write out of range panics. *)
Theorem encodeVarintStats_short_buffer (data : list byte) (offset v : Z) :
  0 <= v < 2 ^ 64 -> 0 <= offset ->
  len data < offset + sovStats v -> len data < 2 ^ 63 ->
  encodeVarintStats data offset v = Panic.
Proof.
  intros Hv Hoffset Hroom Hlen.
  rewrite sovStats_wireVarint in Hroom by exact Hv.
  apply (encodeVarintStats_loop_short 9); try assumption.
  change (2 ^ (7 * Z.of_nat 10)) with (2 ^ 70). lia.
Qed.

(** X14. The varint loop of Unmarshal and skipStats (stats.pb.go): when the data
    ends after fewer than ten bytes that all announce a next byte (or where
    the varint should start), the loop returns io.ErrUnexpectedEOF. *)
Theorem varint_cut_off (width : Z) (pre bs : list byte) :
  Forall (fun b => 128 <= byteval b) bs ->
  (length bs < 10)%nat ->
  len (pre ++ bs) < 2 ^ 63 ->
  varint width (pre ++ bs) (len pre) = Fail ErrUnexpectedEOF.
Proof.
  intros Hall Hshort Hlen. unfold varint.
  destruct (readVarint_continued width [] bs pre 0 0 11) as [acc' Heq];
    [exact Hall | lia | rewrite app_nil_r; exact Hlen | lia | unfold len; lia |].
  rewrite app_nil_r in Heq. rewrite Heq.
  destruct (11 - length bs)%nat as [|fuel] eqn:Hfuel; [lia|].
  rewrite readVarint_S.
  destruct (Z.leb_spec 64 (0 + 7 * len bs)); [unfold len in *; lia|].
  rewrite <- len_app, Z.leb_refl. reflexivity.
Qed.

(** X15. The varint loop of Unmarshal and skipStats (stats.pb.go): ten bytes that
    all announce a next byte are answered with ErrIntOverflowStats, whatever
    follows them. *)
Theorem varint_too_long (width : Z) (pre bs post : list byte) :
  Forall (fun b => 128 <= byteval b) bs ->
  length bs = 10%nat ->
  len (pre ++ bs ++ post) < 2 ^ 63 ->
  varint width (pre ++ bs ++ post) (len pre) = Fail ErrIntOverflowStats.
Proof.
  intros Hall Hten Hlen. unfold varint.
  destruct (readVarint_continued width post bs pre 0 0 11) as [acc' Heq];
    [exact Hall | lia | exact Hlen | lia | unfold len; lia |].
  rewrite Heq, Hten. unfold len at 3. rewrite Hten. reflexivity.
Qed.

(** *** Marshalling *)

Lemma len_list_byte_of_string (s : string) :
  len (String.list_byte_of_string s) = strlen s.
Proof.
  unfold len, strlen. f_equal.
  unfold String.list_byte_of_string. rewrite length_map.
  induction s as [|c s IH]; [reflexivity|]. cbn. f_equal. exact IH.
Qed.

Lemma strlen_nonneg (s : string) : 0 <= strlen s.
Proof. unfold strlen. lia. Qed.

Lemma strlen_0 (s : string) : strlen s <= 0 -> s = EmptyString.
Proof. destruct s; [reflexivity|]. unfold strlen. cbn [String.length]. lia. Qed.

Lemma to_uint64_small (v : Z) : 0 <= v < 2 ^ 64 -> to_uint64 v = v.
Proof. intros Hv. unfold to_uint64. apply Z.mod_small. exact Hv. Qed.

Lemma writes_putByte (b : byte) : writes (putByte b) [b].
Proof.
  intros data i Hi Hroom Hlen. change (len [b]) with 1 in *.
  unfold putByte. rewrite poke_splice by lia. rewrite add64_small by lia. reflexivity.
Qed.

Lemma writes_copy (src : list byte) :
  writes (fun data i => let! (data, n) := copy data i src in Done (data, add64 i n)) src.
Proof.
  intros data i Hi Hroom Hlen. pose proof (len_nonneg src). unfold copy.
  destruct (Z.leb_spec 0 i); [|lia]. destruct (Z.leb_spec i (len data)); [|lia].
  cbn [andb then_]. rewrite Z.min_r by lia. rewrite add64_small by lia.
  unfold splice. unfold len at 1. rewrite Nat2Z.id, firstn_all. reflexivity.
Qed.

(** One step of a chain of writes: [done] is written already. *)
Lemma writes_step (w : list byte -> Z -> outcome (list byte * Z)) (bytes : list byte) :
  writes w bytes ->
  forall {B} (data : list byte) (i0 : Z) (done : list byte)
         (k : list byte * Z -> outcome B) (r : outcome B),
  0 <= i0 -> i0 + len done + len bytes <= len data -> len data < 2 ^ 63 ->
  k (splice data i0 (done ++ bytes), i0 + len (done ++ bytes)) = r ->
  then_ (w (splice data i0 done) (i0 + len done)) k = r.
Proof.
  intros Hw B data i0 done k r Hi Hroom Hlen Hk.
  pose proof (len_nonneg done). pose proof (len_nonneg bytes).
  rewrite Hw; [| lia | rewrite len_splice; lia | rewrite len_splice; lia].
  cbn [then_]. rewrite splice_splice by lia. rewrite len_app in Hk.
  rewrite <- Z.add_assoc. exact Hk.
Qed.

(** The last step. *)
Lemma writes_last (w : list byte -> Z -> outcome (list byte * Z)) (bytes : list byte) :
  writes w bytes ->
  forall (data : list byte) (i0 : Z) (done : list byte),
  0 <= i0 -> i0 + len done + len bytes <= len data -> len data < 2 ^ 63 ->
  w (splice data i0 done) (i0 + len done)
  = Done (splice data i0 (done ++ bytes), i0 + len (done ++ bytes)).
Proof.
  intros Hw data i0 done Hi Hroom Hlen.
  pose proof (len_nonneg done). pose proof (len_nonneg bytes).
  rewrite Hw; [| lia | rewrite len_splice; lia | rewrite len_splice; lia].
  rewrite splice_splice by lia. rewrite len_app, Z.add_assoc. reflexivity.
Qed.

(** The first step. *)
Lemma writes_first (w : list byte -> Z -> outcome (list byte * Z)) (bytes : list byte) :
  writes w bytes ->
  forall {B} (data : list byte) (i0 : Z)
         (k : list byte * Z -> outcome B) (r : outcome B),
  0 <= i0 -> i0 + len bytes <= len data -> len data < 2 ^ 63 ->
  k (splice data i0 bytes, i0 + len bytes) = r ->
  then_ (w data i0) k = r.
Proof.
  intros Hw B data i0 k r Hi Hroom Hlen Hk.
  rewrite Hw by assumption. exact Hk.
Qed.

Lemma len_wireString (tag : byte) (s : string) :
  len (wireString tag s)
  = if 0 <? strlen s then 1 + len (wireVarint (strlen s)) + strlen s else 0.
Proof.
  unfold wireString. destruct (0 <? strlen s); [|reflexivity].
  rewrite len_cons, len_app, len_list_byte_of_string. lia.
Qed.

Lemma len_wireUvarint (tag : byte) (v : Z) :
  len (wireUvarint tag v) = if v =? 0 then 0 else 1 + len (wireVarint v).
Proof.
  unfold wireUvarint. destruct (v =? 0); [reflexivity|]. apply len_cons.
Qed.

Lemma len_wireMessage (tag : byte) (bytes : list byte) :
  len (wireMessage tag bytes) = 1 + len (wireVarint (len bytes)) + len bytes.
Proof. unfold wireMessage. rewrite len_cons, len_app. lia. Qed.

Lemma writes_marshalString (tag : byte) (s : string) :
  writes (marshalString tag s) (wireString tag s).
Proof.
  intros data i Hi Hroom Hlen. rewrite len_wireString in Hroom.
  unfold marshalString, wireString.
  pose proof (len_wireVarint (strlen s)) as Hvar.
  destruct (Z.ltb_spec 0 (strlen s)) as [Hpos|Hempty].
  - assert (Hs : 0 <= strlen s < 2 ^ 64) by lia.
    rewrite to_uint64_small by exact Hs.
    apply (writes_first _ _ (writes_putByte tag)); [lia | change (len [tag]) with 1; lia | lia |].
    apply (writes_step _ _ (encodeVarintStats_writes _ Hs) data i [tag]);
      [lia | change (len [tag]) with 1; lia | lia |].
    rewrite (writes_last _ _ (writes_copy (String.list_byte_of_string s)) data i
               ([tag] ++ wireVarint (strlen s)));
      [| lia | rewrite len_app, len_list_byte_of_string; change (len [tag]) with 1; lia | lia].
    rewrite <- !app_assoc. reflexivity.
  - change (len []) with 0. rewrite splice_nil, Z.add_0_r by lia. reflexivity.
Qed.

Lemma writes_marshalUvarint (tag : byte) (v : Z) :
  0 <= v < 2 ^ 64 -> writes (marshalUvarint tag v) (wireUvarint tag v).
Proof.
  intros Hv data i Hi Hroom Hlen. rewrite len_wireUvarint in Hroom.
  unfold marshalUvarint, wireUvarint.
  pose proof (len_wireVarint v) as Hvar.
  destruct (Z.eqb_spec v 0) as [Hz|Hnz].
  - change (len []) with 0. rewrite splice_nil, Z.add_0_r by lia. reflexivity.
  - rewrite to_uint64_small by exact Hv.
    apply (writes_first _ _ (writes_putByte tag)); [lia | change (len [tag]) with 1; lia | lia |].
    rewrite (writes_last _ _ (encodeVarintStats_writes v Hv) data i [tag]);
      [| lia | change (len [tag]) with 1; lia | lia].
    reflexivity.
Qed.

Lemma sizeString_wire (tag : byte) (n : Z) (s : string) :
  0 <= n -> n + len (wireString tag s) < 2 ^ 63 ->
  sizeString n s = n + len (wireString tag s).
Proof.
  intros Hn Hfit. rewrite len_wireString in *. unfold sizeString, sizeOfBytes.
  pose proof (len_wireVarint (strlen s)). revert Hfit.
  destruct (Z.ltb_spec 0 (strlen s)); intros Hfit; [|lia].
  rewrite to_uint64_small, sovStats_wireVarint by lia.
  rewrite (add64_small 1) by lia. rewrite (add64_small (1 + _)) by lia.
  rewrite add64_small by lia. lia.
Qed.

Lemma sizeUvarint_wire (tag : byte) (n v : Z) :
  0 <= v < 2 ^ 64 -> 0 <= n -> n + len (wireUvarint tag v) < 2 ^ 63 ->
  sizeUvarint n v = n + len (wireUvarint tag v).
Proof.
  intros Hv Hn Hfit. rewrite len_wireUvarint in *. unfold sizeUvarint.
  pose proof (len_wireVarint v). revert Hfit.
  destruct (v =? 0); intros Hfit; [lia|].
  rewrite to_uint64_small, sovStats_wireVarint by lia.
  rewrite (add64_small 1) by lia. rewrite add64_small by lia. lia.
Qed.

Lemma sizeOfBytes_wire (tag : byte) (n : Z) (bytes : list byte) :
  0 <= n -> n + len (wireMessage tag bytes) < 2 ^ 63 ->
  sizeOfBytes n (len bytes) = n + len (wireMessage tag bytes).
Proof.
  intros Hn Hfit. rewrite len_wireMessage in *. unfold sizeOfBytes.
  pose proof (len_wireVarint (len bytes)). pose proof (len_nonneg bytes).
  rewrite to_uint64_small, sovStats_wireVarint by lia.
  rewrite (add64_small 1) by lia. rewrite (add64_small (1 + _)) by lia.
  rewrite add64_small by lia. lia.
Qed.

Lemma ClientGroupedStats_Size_wire (m : ClientGroupedStats) :
  ClientGroupedStats_valid m -> len (ClientGroupedStats_wire m) < 2 ^ 63 ->
  ClientGroupedStats_Size m = len (ClientGroupedStats_wire m).
Proof.
  intros (Hcode & Hhits & Herrors & Hduration) Hfit.
  unfold ClientGroupedStats_Size, ClientGroupedStats_wire in *.
  rewrite !len_app in *.
  pose proof (len_nonneg (wireString x0a (CGS_Service m))).
  pose proof (len_nonneg (wireString x12 (CGS_Name m))).
  pose proof (len_nonneg (wireString x1a (CGS_Resource m))).
  pose proof (len_nonneg (wireUvarint x20 (CGS_HTTPStatusCode m))).
  pose proof (len_nonneg (wireString x2a (CGS_Type m))).
  pose proof (len_nonneg (wireString x32 (CGS_DBType m))).
  pose proof (len_nonneg (wireUvarint x38 (CGS_Hits m))).
  pose proof (len_nonneg (wireUvarint x40 (CGS_Errors m))).
  pose proof (len_nonneg (wireUvarint x48 (CGS_Duration m))).
  cbv zeta.
  rewrite (sizeString_wire x0a _ (CGS_Service m)) by lia.
  rewrite (sizeString_wire x12 _ (CGS_Name m)) by lia.
  rewrite (sizeString_wire x1a _ (CGS_Resource m)) by lia.
  rewrite (sizeUvarint_wire x20 _ (CGS_HTTPStatusCode m)) by lia.
  rewrite (sizeString_wire x2a _ (CGS_Type m)) by lia.
  rewrite (sizeString_wire x32 _ (CGS_DBType m)) by lia.
  rewrite (sizeUvarint_wire x38 _ (CGS_Hits m)) by lia.
  rewrite (sizeUvarint_wire x40 _ (CGS_Errors m)) by lia.
  rewrite (sizeUvarint_wire x48 _ (CGS_Duration m)) by lia.
  lia.
Qed.

Lemma ClientGroupedStats_MarshalTo_wire (m : ClientGroupedStats) (data : list byte) :
  ClientGroupedStats_valid m ->
  len (ClientGroupedStats_wire m) <= len data -> len data < 2 ^ 63 ->
  ClientGroupedStats_MarshalTo m data
  = Done (splice data 0 (ClientGroupedStats_wire m), len (ClientGroupedStats_wire m)).
Proof.
  intros (Hcode & Hhits & Herrors & Hduration) Hroom Hlen.
  unfold ClientGroupedStats_MarshalTo, ClientGroupedStats_wire in *.
  rewrite !len_app in Hroom.
  pose proof (len_nonneg (wireString x0a (CGS_Service m))).
  pose proof (len_nonneg (wireString x12 (CGS_Name m))).
  pose proof (len_nonneg (wireString x1a (CGS_Resource m))).
  pose proof (len_nonneg (wireUvarint x20 (CGS_HTTPStatusCode m))).
  pose proof (len_nonneg (wireString x2a (CGS_Type m))).
  pose proof (len_nonneg (wireString x32 (CGS_DBType m))).
  pose proof (len_nonneg (wireUvarint x38 (CGS_Hits m))).
  pose proof (len_nonneg (wireUvarint x40 (CGS_Errors m))).
  pose proof (len_nonneg (wireUvarint x48 (CGS_Duration m))).
  cbv zeta.
  apply (writes_first _ _ (writes_marshalString x0a _)); [lia | lia | lia |].
  apply (writes_step _ _ (writes_marshalString x12 _)); [lia | rewrite ?len_app; lia | lia |].
  apply (writes_step _ _ (writes_marshalString x1a _)); [lia | rewrite ?len_app; lia | lia |].
  assert (Hcode' : 0 <= CGS_HTTPStatusCode m < 2 ^ 64) by lia.
  apply (writes_step _ _ (writes_marshalUvarint x20 _ Hcode'));
    [lia | rewrite ?len_app; lia | lia |].
  apply (writes_step _ _ (writes_marshalString x2a _)); [lia | rewrite ?len_app; lia | lia |].
  apply (writes_step _ _ (writes_marshalString x32 _)); [lia | rewrite ?len_app; lia | lia |].
  apply (writes_step _ _ (writes_marshalUvarint x38 _ Hhits));
    [lia | rewrite ?len_app; lia | lia |].
  apply (writes_step _ _ (writes_marshalUvarint x40 _ Herrors));
    [lia | rewrite ?len_app; lia | lia |].
  apply (writes_step _ _ (writes_marshalUvarint x48 _ Hduration));
    [lia | rewrite ?len_app; lia | lia |].
  rewrite <- !app_assoc. reflexivity.
Qed.

Lemma slice_to_end (data : list byte) (lo : Z) :
  0 <= lo <= len data -> slice data lo (len data) = Some (drop (Z.to_nat lo) data).
Proof.
  intros Hlo. unfold slice.
  destruct (Z.leb_spec 0 lo); [|lia]. destruct (Z.leb_spec lo (len data)); [|lia].
  rewrite Z.leb_refl. cbn [andb]. f_equal. apply take_ge.
  unfold len in *. rewrite length_drop. lia.
Qed.

Lemma splice_drop (data : list byte) (i : Z) (bytes : list byte) :
  0 <= i <= len data ->
  take (Z.to_nat i) data ++ splice (drop (Z.to_nat i) data) 0 bytes = splice data i bytes.
Proof.
  intros Hi. pose proof (len_nonneg bytes). unfold splice.
  change (Z.to_nat 0) with 0%nat. rewrite take_0. cbn [app].
  rewrite drop_drop. f_equal. f_equal. f_equal. unfold len in *. lia.
Qed.

Lemma len_drop (data : list byte) (i : Z) :
  0 <= i <= len data -> len (drop (Z.to_nat i) data) = len data - i.
Proof. intros Hi. unfold len in *. rewrite length_drop. lia. Qed.

Lemma slice_prefix (bytes rest : list byte) :
  slice (bytes ++ rest) 0 (len bytes) = Some bytes.
Proof.
  unfold slice. rewrite len_app.
  pose proof (len_nonneg bytes). pose proof (len_nonneg rest).
  destruct (Z.leb_spec 0 (len bytes)); [|lia].
  destruct (Z.leb_spec (len bytes) (len bytes + len rest)); [|lia].
  cbn [Z.leb andb]. f_equal. change (Z.to_nat 0) with 0%nat.
  rewrite drop_0, Z.sub_0_r. unfold len. rewrite Nat2Z.id. apply take_app_length.
Qed.

Lemma splice_0 (data bytes : list byte) :
  splice data 0 bytes = bytes ++ drop (Z.to_nat (len bytes)) data.
Proof. unfold splice. change (Z.to_nat 0) with 0%nat. rewrite take_0. reflexivity. Qed.

Section Messages.

Context {A : Type} (valid : A -> Prop) (size : A -> Z)
        (marshalTo : A -> list byte -> outcome (list byte * Z))
        (wire : A -> list byte) (tag : byte).

Hypothesis size_wire :
  forall msg, valid msg -> len (wire msg) < 2 ^ 63 -> size msg = len (wire msg).

Hypothesis marshalTo_wire :
  forall msg data,
    valid msg -> len (wire msg) <= len data -> len data < 2 ^ 63 ->
    marshalTo msg data = Done (splice data 0 (wire msg), len (wire msg)).

Lemma writes_marshalMessage (msg : A) :
  valid msg ->
  writes (marshalMessage tag size marshalTo msg) (wireMessage tag (wire msg)).
Proof.
  intros Hvalid data i Hi Hroom Hlen. rewrite len_wireMessage in Hroom.
  pose proof (len_wireVarint (len (wire msg))) as Hvar.
  pose proof (len_nonneg (wire msg)) as Hwire.
  assert (Hsize : size msg = len (wire msg)) by (apply size_wire; [exact Hvalid | lia]).
  unfold marshalMessage, wireMessage. rewrite Hsize, to_uint64_small by lia.
  apply (writes_first _ _ (writes_putByte tag)); [lia | change (len [tag]) with 1; lia | lia |].
  apply (writes_step _ _ (encodeVarintStats_writes (len (wire msg)) ltac:(lia)) data i [tag]);
    [lia | change (len [tag]) with 1; lia | lia |].
  set (front := [tag] ++ wireVarint (len (wire msg))).
  assert (Hfront : len front = 1 + len (wireVarint (len (wire msg))))
    by (unfold front; rewrite len_app; reflexivity).
  assert (Hdata' : len (splice data i front) = len data) by (apply len_splice; lia).
  rewrite slice_to_end by lia.
  rewrite marshalTo_wire; [| exact Hvalid | rewrite len_drop by lia; lia
                           | rewrite len_drop by lia; lia].
  cbn [then_]. rewrite splice_drop by lia. rewrite splice_splice by lia.
  rewrite add64_small by lia. unfold front. rewrite <- app_assoc. cbn [app].
  f_equal. f_equal. rewrite !len_cons, !len_app. lia.
Qed.

Lemma writes_marshalMessages (msgs : list A) :
  Forall valid msgs ->
  writes (marshalMessages tag size marshalTo msgs)
         (flat_map (fun e => wireMessage tag (wire e)) msgs).
Proof.
  induction msgs as [|msg msgs IH]; intros Hall data i Hi Hroom Hlen.
  - cbn. change (len []) with 0. rewrite splice_nil, Z.add_0_r by lia. reflexivity.
  - apply Forall_cons in Hall as [Hvalid Hall].
    cbn [marshalMessages flat_map] in *. rewrite len_app in Hroom.
    pose proof (len_nonneg (wireMessage tag (wire msg))).
    pose proof (len_nonneg (flat_map (fun e => wireMessage tag (wire e)) msgs)).
    apply (writes_first _ _ (writes_marshalMessage msg Hvalid)); [lia | lia | lia |].
    rewrite <- (app_nil_l (wireMessage tag (wire msg))) at 1 2.
    rewrite (writes_last _ _ (IH Hall) data i ([] ++ wireMessage tag (wire msg)));
      [| lia | cbn [app]; lia | lia].
    reflexivity.
Qed.

Lemma fold_sizeOfBytes (msgs : list A) : forall n,
  Forall valid msgs -> 0 <= n ->
  n + len (flat_map (fun e => wireMessage tag (wire e)) msgs) < 2 ^ 63 ->
  fold_left (fun n e => sizeOfBytes n (size e)) msgs n
  = n + len (flat_map (fun e => wireMessage tag (wire e)) msgs).
Proof.
  induction msgs as [|msg msgs IH]; intros n Hall Hn Hfit.
  - cbn. change (len []) with 0. lia.
  - apply Forall_cons in Hall as [Hvalid Hall].
    cbn [fold_left flat_map] in *. rewrite len_app in *.
    pose proof (len_nonneg (wireMessage tag (wire msg))) as Hmsg.
    pose proof (len_nonneg (flat_map (fun e => wireMessage tag (wire e)) msgs)).
    pose proof (len_wireMessage tag (wire msg)) as Hbytes.
    pose proof (len_wireVarint (len (wire msg))).
    rewrite size_wire by (try exact Hvalid; lia).
    rewrite (sizeOfBytes_wire tag) by lia.
    rewrite IH by (try exact Hall; lia). lia.
Qed.

Lemma marshal_wire (m : A) :
  valid m -> len (wire m) < 2 ^ 63 ->
  marshal size marshalTo m = Done (wire m).
Proof.
  intros Hvalid Hfit. pose proof (len_nonneg (wire m)).
  unfold marshal. rewrite size_wire by assumption.
  destruct (Z.ltb_spec (len (wire m)) 0); [lia|].
  assert (Hbuf : len (repeat x00 (Z.to_nat (len (wire m)))) = len (wire m))
    by (unfold len; rewrite repeat_length; lia).
  rewrite marshalTo_wire by (try exact Hvalid; lia).
  cbn [then_]. rewrite splice_0, slice_prefix. reflexivity.
Qed.

End Messages.

Lemma ClientStatsBucket_Size_wire (m : ClientStatsBucket) :
  ClientStatsBucket_valid m -> len (ClientStatsBucket_wire m) < 2 ^ 63 ->
  ClientStatsBucket_Size m = len (ClientStatsBucket_wire m).
Proof.
  intros (Hstart & Hduration & Hstats) Hfit.
  unfold ClientStatsBucket_Size, ClientStatsBucket_wire in *.
  rewrite !len_app in *.
  pose proof (len_nonneg (wireUvarint x08 (CSB_Start m))).
  pose proof (len_nonneg (wireUvarint x10 (CSB_Duration m))).
  pose proof (len_nonneg (flat_map (fun e => wireMessage x1a (ClientGroupedStats_wire e))
                                   (CSB_Stats m))).
  cbv zeta.
  rewrite (sizeUvarint_wire x08 _ (CSB_Start m)) by lia.
  rewrite (sizeUvarint_wire x10 _ (CSB_Duration m)) by lia.
  rewrite (fold_sizeOfBytes ClientGroupedStats_valid ClientGroupedStats_Size
             ClientGroupedStats_wire x1a ClientGroupedStats_Size_wire)
    by (try exact Hstats; lia).
  lia.
Qed.

Lemma ClientStatsBucket_MarshalTo_wire (m : ClientStatsBucket) (data : list byte) :
  ClientStatsBucket_valid m ->
  len (ClientStatsBucket_wire m) <= len data -> len data < 2 ^ 63 ->
  ClientStatsBucket_MarshalTo m data
  = Done (splice data 0 (ClientStatsBucket_wire m), len (ClientStatsBucket_wire m)).
Proof.
  intros (Hstart & Hduration & Hstats) Hroom Hlen.
  unfold ClientStatsBucket_MarshalTo, ClientStatsBucket_wire in *.
  rewrite !len_app in Hroom.
  pose proof (len_nonneg (wireUvarint x08 (CSB_Start m))).
  pose proof (len_nonneg (wireUvarint x10 (CSB_Duration m))).
  pose proof (len_nonneg (flat_map (fun e => wireMessage x1a (ClientGroupedStats_wire e))
                                   (CSB_Stats m))).
  cbv zeta.
  apply (writes_first _ _ (writes_marshalUvarint x08 _ Hstart)); [lia | lia | lia |].
  apply (writes_step _ _ (writes_marshalUvarint x10 _ Hduration));
    [lia | rewrite ?len_app; lia | lia |].
  rewrite (writes_last _ _
             (writes_marshalMessages ClientGroupedStats_valid ClientGroupedStats_Size
                ClientGroupedStats_MarshalTo ClientGroupedStats_wire x1a
                ClientGroupedStats_Size_wire ClientGroupedStats_MarshalTo_wire
                (CSB_Stats m) Hstats));
    [| lia | rewrite ?len_app; lia | lia].
  rewrite <- !app_assoc. reflexivity.
Qed.

Lemma ClientStatsPayload_Size_wire (m : ClientStatsPayload) :
  ClientStatsPayload_valid m -> len (ClientStatsPayload_wire m) < 2 ^ 63 ->
  ClientStatsPayload_Size m = len (ClientStatsPayload_wire m).
Proof.
  intros Hstats Hfit.
  unfold ClientStatsPayload_valid, ClientStatsPayload_Size, ClientStatsPayload_wire in *.
  rewrite !len_app in *.
  pose proof (len_nonneg (wireString x0a (CSP_Hostname m))).
  pose proof (len_nonneg (wireString x12 (CSP_Env m))).
  pose proof (len_nonneg (wireString x1a (CSP_Version m))).
  pose proof (len_nonneg (flat_map (fun e => wireMessage x22 (ClientStatsBucket_wire e))
                                   (CSP_Stats m))).
  cbv zeta.
  rewrite (sizeString_wire x0a _ (CSP_Hostname m)) by lia.
  rewrite (sizeString_wire x12 _ (CSP_Env m)) by lia.
  rewrite (sizeString_wire x1a _ (CSP_Version m)) by lia.
  rewrite (fold_sizeOfBytes ClientStatsBucket_valid ClientStatsBucket_Size
             ClientStatsBucket_wire x22 ClientStatsBucket_Size_wire)
    by (try exact Hstats; lia).
  lia.
Qed.

Lemma ClientStatsPayload_MarshalTo_wire (m : ClientStatsPayload) (data : list byte) :
  ClientStatsPayload_valid m ->
  len (ClientStatsPayload_wire m) <= len data -> len data < 2 ^ 63 ->
  ClientStatsPayload_MarshalTo m data
  = Done (splice data 0 (ClientStatsPayload_wire m), len (ClientStatsPayload_wire m)).
Proof.
  intros Hstats Hroom Hlen.
  unfold ClientStatsPayload_valid, ClientStatsPayload_MarshalTo, ClientStatsPayload_wire in *.
  rewrite !len_app in Hroom.
  pose proof (len_nonneg (wireString x0a (CSP_Hostname m))).
  pose proof (len_nonneg (wireString x12 (CSP_Env m))).
  pose proof (len_nonneg (wireString x1a (CSP_Version m))).
  pose proof (len_nonneg (flat_map (fun e => wireMessage x22 (ClientStatsBucket_wire e))
                                   (CSP_Stats m))).
  cbv zeta.
  apply (writes_first _ _ (writes_marshalString x0a _)); [lia | lia | lia |].
  apply (writes_step _ _ (writes_marshalString x12 _)); [lia | rewrite ?len_app; lia | lia |].
  apply (writes_step _ _ (writes_marshalString x1a _)); [lia | rewrite ?len_app; lia | lia |].
  rewrite (writes_last _ _
             (writes_marshalMessages ClientStatsBucket_valid ClientStatsBucket_Size
                ClientStatsBucket_MarshalTo ClientStatsBucket_wire x22
                ClientStatsBucket_Size_wire ClientStatsBucket_MarshalTo_wire
                (CSP_Stats m) Hstats));
    [| lia | rewrite ?len_app; lia | lia].
  rewrite <- !app_assoc. reflexivity.
Qed.

Lemma ClientGroupedStats_Marshal_wire (m : ClientGroupedStats) :
  ClientGroupedStats_valid m -> len (ClientGroupedStats_wire m) < 2 ^ 63 ->
  ClientGroupedStats_Marshal m = Done (ClientGroupedStats_wire m).
Proof.
  apply (marshal_wire ClientGroupedStats_valid);
    [exact ClientGroupedStats_Size_wire | exact ClientGroupedStats_MarshalTo_wire].
Qed.

Lemma ClientStatsBucket_Marshal_wire (m : ClientStatsBucket) :
  ClientStatsBucket_valid m -> len (ClientStatsBucket_wire m) < 2 ^ 63 ->
  ClientStatsBucket_Marshal m = Done (ClientStatsBucket_wire m).
Proof.
  apply (marshal_wire ClientStatsBucket_valid);
    [exact ClientStatsBucket_Size_wire | exact ClientStatsBucket_MarshalTo_wire].
Qed.

Lemma ClientStatsPayload_Marshal_wire (m : ClientStatsPayload) :
  ClientStatsPayload_valid m -> len (ClientStatsPayload_wire m) < 2 ^ 63 ->
  ClientStatsPayload_Marshal m = Done (ClientStatsPayload_wire m).
Proof.
  apply (marshal_wire ClientStatsPayload_valid);
    [exact ClientStatsPayload_Size_wire | exact ClientStatsPayload_MarshalTo_wire].
Qed.

(** *** Unmarshalling *)

Lemma unmarshalLoop_end {M} (fuel : nat) (message : string)
    (fields : list byte -> M -> Z -> Z -> Z -> Z -> outcome (M * Z))
    (data : list byte) (m : M) :
  unmarshalLoop fuel message fields data m (len data) = Done m.
Proof. destruct fuel; cbn [unmarshalLoop]; rewrite Z.ltb_irrefl; reflexivity. Qed.

Lemma unmarshalLoop_step {M} (fuel : nat) (message : string)
    (fields : list byte -> M -> Z -> Z -> Z -> Z -> outcome (M * Z))
    (data : list byte) (m : M) (iNdEx : Z) :
  iNdEx < len data ->
  unmarshalLoop (S fuel) message fields data m iNdEx
  = let! (m, iNdEx) := unmarshalStep message fields data m iNdEx in
    unmarshalLoop fuel message fields data m iNdEx.
Proof.
  intros Hin. cbn [unmarshalLoop].
  destruct (Z.ltb_spec iNdEx (len data)); [reflexivity | lia].
Qed.

Section Reads.

Context {M : Type} (message : string)
        (fields : list byte -> M -> Z -> Z -> Z -> Z -> outcome (M * Z)).

Lemma reads_nil : reads message fields [] (fun m => m).
Proof.
  exists 0%nat. split; [reflexivity|]. intros pre post m fuel _.
  change (len []) with 0. rewrite Z.add_0_r. reflexivity.
Qed.

Lemma reads_app (b1 b2 : list byte) (u1 u2 : M -> M) :
  reads message fields b1 u1 -> reads message fields b2 u2 ->
  reads message fields (b1 ++ b2) (fun m => u2 (u1 m)).
Proof.
  intros (n1 & Hn1 & H1) (n2 & Hn2 & H2). exists (n1 + n2)%nat.
  split; [rewrite length_app; lia|]. intros pre post m fuel Hlen.
  rewrite <- Nat.add_assoc, <- (app_assoc b1 b2 post).
  rewrite H1 by (rewrite <- app_assoc in Hlen; exact Hlen).
  rewrite (app_assoc pre b1 (b2 ++ post)).
  replace (len pre + len b1) with (len (pre ++ b1)) by apply len_app.
  rewrite H2 by (rewrite <- !app_assoc in *; exact Hlen).
  rewrite !len_app. f_equal. lia.
Qed.

Lemma reads_ext (bytes : list byte) (u u' : M -> M) :
  (forall m, u m = u' m) -> reads message fields bytes u -> reads message fields bytes u'.
Proof.
  intros Hext (n & Hn & H). exists n. split; [exact Hn|].
  intros pre post m fuel Hlen. rewrite H by exact Hlen. rewrite Hext. reflexivity.
Qed.

(** A field is read in one round. *)
Lemma reads_field (bytes : list byte) (upd : M -> M) :
  1 <= len bytes ->
  (forall pre post m,
      len (pre ++ bytes ++ post) < 2 ^ 63 ->
      unmarshalStep message fields (pre ++ bytes ++ post) m (len pre)
      = Done (upd m, len pre + len bytes)) ->
  reads message fields bytes upd.
Proof.
  intros Hbytes Hstep. exists 1%nat. split; [unfold len in Hbytes; lia|].
  intros pre post m fuel Hlen. cbn [Nat.add].
  rewrite unmarshalLoop_step
    by (rewrite !len_app; pose proof (len_nonneg post); lia).
  rewrite Hstep by exact Hlen. reflexivity.
Qed.

Lemma unmarshal_reads (bytes : list byte) (upd : M -> M) (m : M) :
  reads message fields bytes upd -> len bytes < 2 ^ 63 ->
  unmarshal message fields bytes m = Done (upd m).
Proof.
  intros (n & Hn & H) Hlen. unfold unmarshal.
  replace (length bytes) with (n + (length bytes - n))%nat by lia.
  specialize (H [] [] m (length bytes - n)%nat).
  rewrite app_nil_r in H. cbn [app] in H. change (len []) with 0 in H.
  rewrite H by exact Hlen. rewrite Z.add_0_l. apply unmarshalLoop_end.
Qed.

End Reads.

Lemma wireVarint_small (v : Z) : 0 <= v < 128 -> wireVarint v = [uint8 v].
Proof.
  intros Hv. unfold wireVarint. rewrite varintBytes_S.
  destruct (Z.leb_spec 128 v); [lia | reflexivity].
Qed.

(** The tag of a field, in one byte. *)
Lemma varint_tag (tag : byte) (pre rest : list byte) :
  byteval tag < 128 -> len (pre ++ tag :: rest) < 2 ^ 63 ->
  varint 64 (pre ++ tag :: rest) (len pre) = Done (byteval tag, len pre + 1).
Proof.
  intros Htag Hlen. pose proof (byteval_bounds tag) as Hb.
  pose proof (varint_wireVarint 64 (byteval tag) pre rest) as Hread.
  rewrite wireVarint_small, uint8_byteval in Hread by lia.
  apply Hread; [lia | lia | exact Hlen].
Qed.

Lemma slice_middle (pre bs post : list byte) :
  slice (pre ++ bs ++ post) (len pre) (len pre + len bs) = Some bs.
Proof.
  unfold slice. rewrite !len_app.
  pose proof (len_nonneg pre). pose proof (len_nonneg bs). pose proof (len_nonneg post).
  destruct (Z.leb_spec 0 (len pre)); [|lia].
  destruct (Z.leb_spec (len pre) (len pre + len bs)); [|lia].
  destruct (Z.leb_spec (len pre + len bs) (len pre + (len bs + len post))); [|lia].
  cbn [andb]. f_equal. unfold len. rewrite Nat2Z.id, drop_app_length.
  replace (Z.to_nat (Z.of_nat (length pre) + Z.of_nat (length bs) - Z.of_nat (length pre)))
    with (length bs) by lia.
  apply take_app_length.
Qed.

Lemma readBytes_wire (field : string) (pre bs post : list byte) :
  len (pre ++ wireVarint (len bs) ++ bs ++ post) < 2 ^ 63 ->
  readBytes field (pre ++ wireVarint (len bs) ++ bs ++ post) 2 (len pre)
  = Done (bs, len pre + len (wireVarint (len bs)) + len bs).
Proof.
  intros Hlen. unfold readBytes. cbn [Z.eqb Pos.eqb negb].
  pose proof (len_nonneg pre). pose proof (len_nonneg bs). pose proof (len_nonneg post).
  pose proof (len_wireVarint (len bs)) as Hvar.
  assert (Hlen' := Hlen). rewrite !len_app in Hlen'.
  rewrite varint_wireVarint by (try exact Hlen; lia).
  cbn [then_]. rewrite wrap64_small by lia.
  destruct (Z.ltb_spec (len bs) 0); [lia|].
  rewrite add64_small by lia.
  destruct (Z.ltb_spec (len (pre ++ wireVarint (len bs) ++ bs ++ post))
                       (len pre + len (wireVarint (len bs)) + len bs)) as [Hshort|_].
  { rewrite !len_app in Hshort. lia. }
  rewrite (app_assoc pre (wireVarint (len bs))).
  replace (len pre + len (wireVarint (len bs))) with (len (pre ++ wireVarint (len bs)))
    by apply len_app.
  rewrite slice_middle. reflexivity.
Qed.

Lemma readString_wire (field : string) (pre post : list byte) (s : string) :
  len (pre ++ wireVarint (strlen s) ++ String.list_byte_of_string s ++ post) < 2 ^ 63 ->
  readString field (pre ++ wireVarint (strlen s) ++ String.list_byte_of_string s ++ post)
    2 (len pre)
  = Done (s, len pre + len (wireVarint (strlen s)) + strlen s).
Proof.
  intros Hlen. unfold readString. rewrite <- len_list_byte_of_string in *.
  rewrite readBytes_wire by exact Hlen. cbn [then_].
  rewrite String.string_of_list_byte_of_string. reflexivity.
Qed.

Lemma readUvarint_wire (width : Z) (field : string) (pre post : list byte) (v : Z) :
  0 <= v < 2 ^ width -> width <= 64 ->
  len (pre ++ wireVarint v ++ post) < 2 ^ 63 ->
  readUvarint width field (pre ++ wireVarint v ++ post) 0 (len pre)
  = Done (v, len pre + len (wireVarint v)).
Proof.
  intros Hv Hwidth Hlen. unfold readUvarint. cbn [Z.eqb negb].
  apply varint_wireVarint; assumption.
Qed.

Section Fields.

Context {M : Type} (message : string)
        (fields : list byte -> M -> Z -> Z -> Z -> Z -> outcome (M * Z)).

Lemma unmarshalStep_tag (tag : byte) (pre rest : list byte) (m : M) :
  byteval tag < 128 -> Z.land (byteval tag) 7 <> 4 -> 0 < to_int32 (Z.shiftr (byteval tag) 3) ->
  len (pre ++ tag :: rest) < 2 ^ 63 ->
  unmarshalStep message fields (pre ++ tag :: rest) m (len pre)
  = fields (pre ++ tag :: rest) m (to_int32 (Z.shiftr (byteval tag) 3)) (Z.land (byteval tag) 7) (len pre) (len pre + 1).
Proof.
  intros Htag Hwire Hnum Hlen. unfold unmarshalStep.
  rewrite varint_tag by assumption. cbn [then_]. cbv beta iota zeta.
    destruct (Z.eqb_spec (Z.land (byteval tag) 7) 4); [contradiction|].
  destruct (Z.leb_spec (to_int32 (Z.shiftr (byteval tag) 3)) 0); [lia | reflexivity].
Qed.

Lemma reads_string (tag : byte) (name : string) (set : M -> string -> M) :
  byteval tag < 128 -> Z.land (byteval tag) 7 = 2 -> 0 < to_int32 (Z.shiftr (byteval tag) 3) ->
  (forall data m pre i,
      fields data m (to_int32 (Z.shiftr (byteval tag) 3)) 2 pre i
      = let! (v, i) := readString name data 2 i in Done (set m v, i)) ->
  forall s,
    reads message fields (wireString tag s)
          (fun m => if 0 <? strlen s then set m s else m).
Proof.
  intros Htag Hwire Hnum Hfields s. unfold wireString.
  destruct (Z.ltb_spec 0 (strlen s)) as [Hpos|Hempty]; [|apply reads_nil].
  apply reads_field.
  - rewrite len_cons. pose proof (len_nonneg (wireVarint (strlen s) ++ String.list_byte_of_string s)).
    lia.
  - intros pre post m Hlen. cbn [app] in *. rewrite <- app_assoc in *.
    rewrite unmarshalStep_tag by (try assumption; rewrite Hwire; lia).
    rewrite Hwire, Hfields.
    rewrite app_cons_middle in *.
    replace (len pre + 1) with (len (pre ++ [tag])) by apply len_app.
    rewrite readString_wire by exact Hlen. cbn [then_].
    rewrite !len_cons, !len_app, len_list_byte_of_string. change (len [tag]) with 1.
    f_equal. f_equal. lia.
Qed.

Lemma reads_uvarint (width : Z) (tag : byte) (name : string) (set : M -> Z -> M) :
  byteval tag < 128 -> Z.land (byteval tag) 7 = 0 -> 0 < to_int32 (Z.shiftr (byteval tag) 3) -> width <= 64 ->
  (forall data m pre i,
      fields data m (to_int32 (Z.shiftr (byteval tag) 3)) 0 pre i
      = let! (v, i) := readUvarint width name data 0 i in Done (set m v, i)) ->
  forall v,
    0 <= v < 2 ^ width ->
    reads message fields (wireUvarint tag v)
          (fun m => if v =? 0 then m else set m v).
Proof.
  intros Htag Hwire Hnum Hwidth Hfields v Hv. unfold wireUvarint.
  destruct (Z.eqb_spec v 0) as [Hz|Hnz]; [apply reads_nil|].
  apply reads_field.
  - rewrite len_cons. pose proof (len_nonneg (wireVarint v)). lia.
  - intros pre post m Hlen. cbn [app] in *.
    rewrite unmarshalStep_tag by (try assumption; rewrite Hwire; lia).
    rewrite Hwire, Hfields.
    rewrite app_cons_middle in *.
    replace (len pre + 1) with (len (pre ++ [tag])) by apply len_app.
    rewrite readUvarint_wire by assumption. cbn [then_].
    rewrite !len_cons, !len_app. change (len [tag]) with 1.
    f_equal. f_equal. lia.
Qed.

Context {E : Type} (valid : E -> Prop) (wire : E -> list byte)
        (inner : list byte -> outcome E).

Hypothesis inner_wire :
  forall e, valid e -> len (wire e) < 2 ^ 63 -> inner (wire e) = Done e.

Lemma reads_message (tag : byte) (name : string) (add : M -> E -> M) :
  byteval tag < 128 -> Z.land (byteval tag) 7 = 2 -> 0 < to_int32 (Z.shiftr (byteval tag) 3) ->
  (forall data m pre i,
      fields data m (to_int32 (Z.shiftr (byteval tag) 3)) 2 pre i
      = let! (bytes, postIndex) := readBytes name data 2 i in
        let! e := inner bytes in
        Done (add m e, postIndex)) ->
  forall e,
    valid e ->
    reads message fields (wireMessage tag (wire e)) (fun m => add m e).
Proof.
  intros Htag Hwire Hnum Hfields e Hvalid. unfold wireMessage.
  apply reads_field.
  - rewrite len_cons. pose proof (len_nonneg (wireVarint (len (wire e)) ++ wire e)). lia.
  - intros pre post m Hlen. cbn [app] in *. rewrite <- app_assoc in *.
    rewrite unmarshalStep_tag by (try assumption; rewrite Hwire; lia).
    rewrite Hwire, Hfields.
    rewrite app_cons_middle in *.
    replace (len pre + 1) with (len (pre ++ [tag])) by apply len_app.
    rewrite readBytes_wire by exact Hlen. cbn [then_].
    rewrite inner_wire.
    + cbn [then_]. rewrite !len_cons, !len_app. change (len [tag]) with 1.
      f_equal. f_equal. lia.
    + exact Hvalid.
    + rewrite !len_app in Hlen.
      pose proof (len_nonneg (pre ++ [tag])). pose proof (len_nonneg post).
      pose proof (len_nonneg (wireVarint (len (wire e)))).
      rewrite len_app in *. lia.
Qed.

Lemma reads_messages (tag : byte) (name : string) (add : M -> E -> M) :
  byteval tag < 128 -> Z.land (byteval tag) 7 = 2 -> 0 < to_int32 (Z.shiftr (byteval tag) 3) ->
  (forall data m pre i,
      fields data m (to_int32 (Z.shiftr (byteval tag) 3)) 2 pre i
      = let! (bytes, postIndex) := readBytes name data 2 i in
        let! e := inner bytes in
        Done (add m e, postIndex)) ->
  forall es,
    Forall valid es ->
    reads message fields (flat_map (fun e => wireMessage tag (wire e)) es)
          (fun m => fold_left add es m).
Proof.
  intros Htag Hwire Hnum Hfields es.
  induction es as [|e es IH]; intros Hall; [apply reads_nil|].
  apply Forall_cons in Hall as [Hvalid Hall]. cbn [flat_map fold_left].
  apply (reads_app message fields _ _ (fun m => add m e) (fun m => fold_left add es m)).
  - apply (reads_message tag name add); assumption.
  - apply IH. exact Hall.
Qed.

End Fields.

Lemma ClientGroupedStats_Unmarshal_wire (m : ClientGroupedStats) :
  ClientGroupedStats_valid m -> len (ClientGroupedStats_wire m) < 2 ^ 63 ->
  ClientGroupedStats_Unmarshal (ClientGroupedStats_wire m) ClientGroupedStats_zero = Done m.
Proof.
  intros (Hcode & Hhits & Herrors & Hduration) Hlen.
  assert (R1 := reads_string "ClientGroupedStats" ClientGroupedStats_fields x0a "Service"
                  CGS_set_Service ltac:(vm_compute; reflexivity) eq_refl eq_refl
                  ltac:(reflexivity) (CGS_Service m)).
  assert (R2 := reads_string "ClientGroupedStats" ClientGroupedStats_fields x12 "Name"
                  CGS_set_Name ltac:(vm_compute; reflexivity) eq_refl eq_refl
                  ltac:(reflexivity) (CGS_Name m)).
  assert (R3 := reads_string "ClientGroupedStats" ClientGroupedStats_fields x1a "Resource"
                  CGS_set_Resource ltac:(vm_compute; reflexivity) eq_refl eq_refl
                  ltac:(reflexivity) (CGS_Resource m)).
  assert (R4 := reads_uvarint "ClientGroupedStats" ClientGroupedStats_fields 32 x20
                  "HTTPStatusCode" CGS_set_HTTPStatusCode ltac:(vm_compute; reflexivity)
                  eq_refl eq_refl ltac:(discriminate) ltac:(reflexivity)
                  (CGS_HTTPStatusCode m) Hcode).
  assert (R5 := reads_string "ClientGroupedStats" ClientGroupedStats_fields x2a "Type"
                  CGS_set_Type ltac:(vm_compute; reflexivity) eq_refl eq_refl
                  ltac:(reflexivity) (CGS_Type m)).
  assert (R6 := reads_string "ClientGroupedStats" ClientGroupedStats_fields x32 "DBType"
                  CGS_set_DBType ltac:(vm_compute; reflexivity) eq_refl eq_refl
                  ltac:(reflexivity) (CGS_DBType m)).
  assert (R7 := reads_uvarint "ClientGroupedStats" ClientGroupedStats_fields 64 x38
                  "Hits" CGS_set_Hits ltac:(vm_compute; reflexivity)
                  eq_refl eq_refl ltac:(discriminate) ltac:(reflexivity)
                  (CGS_Hits m) Hhits).
  assert (R8 := reads_uvarint "ClientGroupedStats" ClientGroupedStats_fields 64 x40
                  "Errors" CGS_set_Errors ltac:(vm_compute; reflexivity)
                  eq_refl eq_refl ltac:(discriminate) ltac:(reflexivity)
                  (CGS_Errors m) Herrors).
  assert (R9 := reads_uvarint "ClientGroupedStats" ClientGroupedStats_fields 64 x48
                  "Duration" CGS_set_Duration ltac:(vm_compute; reflexivity)
                  eq_refl eq_refl ltac:(discriminate) ltac:(reflexivity)
                  (CGS_Duration m) Hduration).
  assert (R := reads_app _ _ _ _ _ _ R1 (reads_app _ _ _ _ _ _ R2 (reads_app _ _ _ _ _ _ R3
               (reads_app _ _ _ _ _ _ R4 (reads_app _ _ _ _ _ _ R5 (reads_app _ _ _ _ _ _ R6
               (reads_app _ _ _ _ _ _ R7 (reads_app _ _ _ _ _ _ R8 R9)))))))).
  unfold ClientGroupedStats_Unmarshal, ClientGroupedStats_wire in *.
  rewrite (unmarshal_reads _ _ _ _ ClientGroupedStats_zero R) by exact Hlen.
  f_equal. clear. destruct m as [a b c d e f g h i]. cbn.
  repeat match goal with
         | |- context [0 <? strlen ?s] =>
             let H := fresh in
             destruct (Z.ltb_spec 0 (strlen s)) as [H|H]; [|apply strlen_0 in H; subst s]
         | |- context [?v =? 0] => destruct (Z.eqb_spec v 0); [subst v|]
         end; reflexivity.
Qed.

Lemma CSB_fold_left (es : list ClientGroupedStats) : forall m : ClientStatsBucket,
  fold_left (fun m e => {| CSB_Start := CSB_Start m; CSB_Duration := CSB_Duration m;
                           CSB_Stats := CSB_Stats m ++ [e] |}) es m
  = {| CSB_Start := CSB_Start m; CSB_Duration := CSB_Duration m;
       CSB_Stats := CSB_Stats m ++ es |}.
Proof.
  induction es as [|e es IH]; intros m.
  - cbn. rewrite app_nil_r. destruct m; reflexivity.
  - cbn [fold_left]. rewrite IH. cbn. rewrite <- app_assoc. reflexivity.
Qed.

(** What is in [m0] stays where the bytes of [m] have nothing to say. *)
Lemma ClientStatsBucket_reads (m : ClientStatsBucket) :
  ClientStatsBucket_valid m ->
  reads "ClientStatsBucket" ClientStatsBucket_fields (ClientStatsBucket_wire m)
    (fun m0 =>
       {| CSB_Start := if CSB_Start m =? 0 then CSB_Start m0 else CSB_Start m;
          CSB_Duration := if CSB_Duration m =? 0 then CSB_Duration m0 else CSB_Duration m;
          CSB_Stats := CSB_Stats m0 ++ CSB_Stats m |}).
Proof.
  intros (Hstart & Hduration & Hstats).
  assert (R1 := reads_uvarint "ClientStatsBucket" ClientStatsBucket_fields 64 x08 "Start"
                  (fun m v => {| CSB_Start := v; CSB_Duration := CSB_Duration m;
                                 CSB_Stats := CSB_Stats m |})
                  ltac:(vm_compute; reflexivity) eq_refl eq_refl ltac:(discriminate)
                  ltac:(reflexivity) (CSB_Start m) Hstart).
  assert (R2 := reads_uvarint "ClientStatsBucket" ClientStatsBucket_fields 64 x10 "Duration"
                  (fun m v => {| CSB_Start := CSB_Start m; CSB_Duration := v;
                                 CSB_Stats := CSB_Stats m |})
                  ltac:(vm_compute; reflexivity) eq_refl eq_refl ltac:(discriminate)
                  ltac:(reflexivity) (CSB_Duration m) Hduration).
  assert (R3 := reads_messages "ClientStatsBucket" ClientStatsBucket_fields
                  ClientGroupedStats_valid ClientGroupedStats_wire
                  (fun bytes => ClientGroupedStats_Unmarshal bytes ClientGroupedStats_zero)
                  ClientGroupedStats_Unmarshal_wire x1a "Stats"
                  (fun m e => {| CSB_Start := CSB_Start m; CSB_Duration := CSB_Duration m;
                                 CSB_Stats := CSB_Stats m ++ [e] |})
                  ltac:(vm_compute; reflexivity) eq_refl eq_refl ltac:(reflexivity)
                  (CSB_Stats m) Hstats).
  assert (R := reads_app _ _ _ _ _ _ R1 (reads_app _ _ _ _ _ _ R2 R3)).
  eapply reads_ext; [|exact R]. clear. intros m0. cbv beta.
  rewrite CSB_fold_left. destruct m as [a b c], m0 as [a0 b0 c0].
  cbn [CSB_Start CSB_Duration CSB_Stats].
  destruct (a =? 0), (b =? 0); reflexivity.
Qed.

Lemma ClientStatsBucket_Unmarshal_onto (m m0 : ClientStatsBucket) :
  ClientStatsBucket_valid m -> len (ClientStatsBucket_wire m) < 2 ^ 63 ->
  ClientStatsBucket_Unmarshal (ClientStatsBucket_wire m) m0
  = Done {| CSB_Start := if CSB_Start m =? 0 then CSB_Start m0 else CSB_Start m;
            CSB_Duration := if CSB_Duration m =? 0 then CSB_Duration m0 else CSB_Duration m;
            CSB_Stats := CSB_Stats m0 ++ CSB_Stats m |}.
Proof.
  intros Hvalid Hlen. unfold ClientStatsBucket_Unmarshal.
  rewrite (unmarshal_reads _ _ _ _ m0 (ClientStatsBucket_reads m Hvalid)) by exact Hlen.
  reflexivity.
Qed.

Lemma ClientStatsBucket_Unmarshal_wire (m : ClientStatsBucket) :
  ClientStatsBucket_valid m -> len (ClientStatsBucket_wire m) < 2 ^ 63 ->
  ClientStatsBucket_Unmarshal (ClientStatsBucket_wire m) ClientStatsBucket_zero = Done m.
Proof.
  intros Hvalid Hlen. rewrite ClientStatsBucket_Unmarshal_onto by assumption.
  f_equal. destruct m as [a b c]. cbn.
  destruct (Z.eqb_spec a 0); [subst a|]; (destruct (Z.eqb_spec b 0); [subst b|]); reflexivity.
Qed.

Lemma CSP_fold_left (es : list ClientStatsBucket) : forall m : ClientStatsPayload,
  fold_left (fun m e => {| CSP_Hostname := CSP_Hostname m; CSP_Env := CSP_Env m;
                           CSP_Version := CSP_Version m;
                           CSP_Stats := CSP_Stats m ++ [e] |}) es m
  = {| CSP_Hostname := CSP_Hostname m; CSP_Env := CSP_Env m; CSP_Version := CSP_Version m;
       CSP_Stats := CSP_Stats m ++ es |}.
Proof.
  induction es as [|e es IH]; intros m.
  - cbn. rewrite app_nil_r. destruct m; reflexivity.
  - cbn [fold_left]. rewrite IH. cbn. rewrite <- app_assoc. reflexivity.
Qed.

Lemma ClientStatsPayload_reads (m : ClientStatsPayload) :
  ClientStatsPayload_valid m ->
  reads "ClientStatsPayload" ClientStatsPayload_fields (ClientStatsPayload_wire m)
    (fun m0 =>
       {| CSP_Hostname := if 0 <? strlen (CSP_Hostname m) then CSP_Hostname m
                          else CSP_Hostname m0;
          CSP_Env := if 0 <? strlen (CSP_Env m) then CSP_Env m else CSP_Env m0;
          CSP_Version := if 0 <? strlen (CSP_Version m) then CSP_Version m
                         else CSP_Version m0;
          CSP_Stats := CSP_Stats m0 ++ CSP_Stats m |}).
Proof.
  intros Hstats.
  assert (R1 := reads_string "ClientStatsPayload" ClientStatsPayload_fields x0a "Hostname"
                  (fun m v => {| CSP_Hostname := v; CSP_Env := CSP_Env m;
                                 CSP_Version := CSP_Version m; CSP_Stats := CSP_Stats m |})
                  ltac:(vm_compute; reflexivity) eq_refl eq_refl ltac:(reflexivity)
                  (CSP_Hostname m)).
  assert (R2 := reads_string "ClientStatsPayload" ClientStatsPayload_fields x12 "Env"
                  (fun m v => {| CSP_Hostname := CSP_Hostname m; CSP_Env := v;
                                 CSP_Version := CSP_Version m; CSP_Stats := CSP_Stats m |})
                  ltac:(vm_compute; reflexivity) eq_refl eq_refl ltac:(reflexivity)
                  (CSP_Env m)).
  assert (R3 := reads_string "ClientStatsPayload" ClientStatsPayload_fields x1a "Version"
                  (fun m v => {| CSP_Hostname := CSP_Hostname m; CSP_Env := CSP_Env m;
                                 CSP_Version := v; CSP_Stats := CSP_Stats m |})
                  ltac:(vm_compute; reflexivity) eq_refl eq_refl ltac:(reflexivity)
                  (CSP_Version m)).
  assert (R4 := reads_messages "ClientStatsPayload" ClientStatsPayload_fields
                  ClientStatsBucket_valid ClientStatsBucket_wire
                  (fun bytes => ClientStatsBucket_Unmarshal bytes ClientStatsBucket_zero)
                  ClientStatsBucket_Unmarshal_wire x22 "Stats"
                  (fun m e => {| CSP_Hostname := CSP_Hostname m; CSP_Env := CSP_Env m;
                                 CSP_Version := CSP_Version m;
                                 CSP_Stats := CSP_Stats m ++ [e] |})
                  ltac:(vm_compute; reflexivity) eq_refl eq_refl ltac:(reflexivity)
                  (CSP_Stats m) Hstats).
  assert (R := reads_app _ _ _ _ _ _ R1 (reads_app _ _ _ _ _ _ R2
               (reads_app _ _ _ _ _ _ R3 R4))).
  eapply reads_ext; [|exact R]. clear. intros m0. cbv beta.
  rewrite CSP_fold_left. destruct m as [a b c d], m0 as [a0 b0 c0 d0].
  cbn [CSP_Hostname CSP_Env CSP_Version CSP_Stats].
  destruct (0 <? strlen a), (0 <? strlen b), (0 <? strlen c); reflexivity.
Qed.

Lemma ClientStatsPayload_Unmarshal_onto (m m0 : ClientStatsPayload) :
  ClientStatsPayload_valid m -> len (ClientStatsPayload_wire m) < 2 ^ 63 ->
  ClientStatsPayload_Unmarshal (ClientStatsPayload_wire m) m0
  = Done {| CSP_Hostname := if 0 <? strlen (CSP_Hostname m) then CSP_Hostname m
                            else CSP_Hostname m0;
            CSP_Env := if 0 <? strlen (CSP_Env m) then CSP_Env m else CSP_Env m0;
            CSP_Version := if 0 <? strlen (CSP_Version m) then CSP_Version m
                           else CSP_Version m0;
            CSP_Stats := CSP_Stats m0 ++ CSP_Stats m |}.
Proof.
  intros Hvalid Hlen. unfold ClientStatsPayload_Unmarshal.
  rewrite (unmarshal_reads _ _ _ _ m0 (ClientStatsPayload_reads m Hvalid)) by exact Hlen.
  reflexivity.
Qed.

Lemma ClientStatsPayload_Unmarshal_wire (m : ClientStatsPayload) :
  ClientStatsPayload_valid m -> len (ClientStatsPayload_wire m) < 2 ^ 63 ->
  ClientStatsPayload_Unmarshal (ClientStatsPayload_wire m) ClientStatsPayload_zero = Done m.
Proof.
  intros Hvalid Hlen. rewrite ClientStatsPayload_Unmarshal_onto by assumption.
  f_equal. destruct m as [a b c d]. cbn.
  repeat match goal with
         | |- context [0 <? strlen ?s] =>
             let H := fresh in
             destruct (Z.ltb_spec 0 (strlen s)) as [H|H]; [|apply strlen_0 in H; subst s]
         end; reflexivity.
Qed.

(** X16. ClientGroupedStats.Size, MarshalTo and Marshal (stats.pb.go): for a
    message whose integers are in the range of their types and whose
    encoding is shorter than 2^63 bytes, [Marshal] does not panic and returns
    the fields in the order of their numbers, each as its tag, its varint
    (the length, for a string) and its bytes, with no byte for an empty
    string or a zero; [Size] is the number of these bytes. *)
Theorem ClientGroupedStats_Marshal_bytes (m : ClientGroupedStats) :
  ClientGroupedStats_valid m -> len (ClientGroupedStats_wire m) < 2 ^ 63 ->
  ClientGroupedStats_Marshal m = Done (ClientGroupedStats_wire m) /\
  ClientGroupedStats_Size m = len (ClientGroupedStats_wire m).
Proof.
  intros Hvalid Hlen. split.
  - apply ClientGroupedStats_Marshal_wire; assumption.
  - apply ClientGroupedStats_Size_wire; assumption.
Qed.

(** X17. ClientStatsBucket.Size, MarshalTo and Marshal (stats.pb.go): [Marshal]
    returns Start and Duration, unless zero, and then every element of Stats
    in order, each as the tag 0x1a, the length of its encoding and its
    encoding; [Size] is the number of these bytes. *)
Theorem ClientStatsBucket_Marshal_bytes (m : ClientStatsBucket) :
  ClientStatsBucket_valid m -> len (ClientStatsBucket_wire m) < 2 ^ 63 ->
  ClientStatsBucket_Marshal m = Done (ClientStatsBucket_wire m) /\
  ClientStatsBucket_Size m = len (ClientStatsBucket_wire m).
Proof.
  intros Hvalid Hlen. split.
  - apply ClientStatsBucket_Marshal_wire; assumption.
  - apply ClientStatsBucket_Size_wire; assumption.
Qed.

(** X18. ClientStatsPayload.Size, MarshalTo and Marshal (stats.pb.go): [Marshal]
    returns Hostname, Env and Version, unless empty, and then every bucket
    of Stats in order, each as the tag 0x22, the length of its encoding and
    its encoding; [Size] is the number of these bytes. *)
Theorem ClientStatsPayload_Marshal_bytes (m : ClientStatsPayload) :
  ClientStatsPayload_valid m -> len (ClientStatsPayload_wire m) < 2 ^ 63 ->
  ClientStatsPayload_Marshal m = Done (ClientStatsPayload_wire m) /\
  ClientStatsPayload_Size m = len (ClientStatsPayload_wire m).
Proof.
  intros Hvalid Hlen. split.
  - apply ClientStatsPayload_Marshal_wire; assumption.
  - apply ClientStatsPayload_Size_wire; assumption.
Qed.

(** X19. ClientGroupedStats.Marshal and Unmarshal (stats.pb.go): [Marshal]
    returns [Size] bytes, and [Unmarshal] of these bytes on an empty message
    gives the message back. *)
Theorem ClientGroupedStats_round_trip (m : ClientGroupedStats) :
  ClientGroupedStats_valid m -> len (ClientGroupedStats_wire m) < 2 ^ 63 ->
  exists data,
    ClientGroupedStats_Marshal m = Done data /\
    len data = ClientGroupedStats_Size m /\
    ClientGroupedStats_Unmarshal data ClientGroupedStats_zero = Done m.
Proof.
  intros Hvalid Hlen. exists (ClientGroupedStats_wire m). repeat split.
  - apply ClientGroupedStats_Marshal_wire; assumption.
  - symmetry. apply ClientGroupedStats_Size_wire; assumption.
  - apply ClientGroupedStats_Unmarshal_wire; assumption.
Qed.

(** X20. ClientStatsBucket.Marshal and Unmarshal (stats.pb.go): [Marshal] returns
    [Size] bytes, and [Unmarshal] of these bytes on an empty bucket gives
    the bucket back, with its groups in their order. *)
Theorem ClientStatsBucket_round_trip (m : ClientStatsBucket) :
  ClientStatsBucket_valid m -> len (ClientStatsBucket_wire m) < 2 ^ 63 ->
  exists data,
    ClientStatsBucket_Marshal m = Done data /\
    len data = ClientStatsBucket_Size m /\
    ClientStatsBucket_Unmarshal data ClientStatsBucket_zero = Done m.
Proof.
  intros Hvalid Hlen. exists (ClientStatsBucket_wire m). repeat split.
  - apply ClientStatsBucket_Marshal_wire; assumption.
  - symmetry. apply ClientStatsBucket_Size_wire; assumption.
  - apply ClientStatsBucket_Unmarshal_wire; assumption.
Qed.

(** X21. ClientStatsPayload.Marshal and Unmarshal (stats.pb.go): [Marshal]
    returns [Size] bytes, and [Unmarshal] of these bytes on an empty payload
    gives the payload back, with its buckets and their groups. *)
Theorem ClientStatsPayload_round_trip (m : ClientStatsPayload) :
  ClientStatsPayload_valid m -> len (ClientStatsPayload_wire m) < 2 ^ 63 ->
  exists data,
    ClientStatsPayload_Marshal m = Done data /\
    len data = ClientStatsPayload_Size m /\
    ClientStatsPayload_Unmarshal data ClientStatsPayload_zero = Done m.
Proof.
  intros Hvalid Hlen. exists (ClientStatsPayload_wire m). repeat split.
  - apply ClientStatsPayload_Marshal_wire; assumption.
  - symmetry. apply ClientStatsPayload_Size_wire; assumption.
  - apply ClientStatsPayload_Unmarshal_wire; assumption.
Qed.

Lemma unmarshal_first {M} (message : string)
    (fields : list byte -> M -> Z -> Z -> Z -> Z -> outcome (M * Z))
    (b : byte) (rest : list byte) (m : M) :
  unmarshal message fields (b :: rest) m
  = let! (m, iNdEx) := unmarshalStep message fields (b :: rest) m 0 in
    unmarshalLoop (length rest) message fields (b :: rest) m iNdEx.
Proof.
  unfold unmarshal. cbn [length]. apply unmarshalLoop_step.
  rewrite len_cons. pose proof (len_nonneg rest). lia.
Qed.

Lemma varint_tag_0 (tag : byte) (rest : list byte) :
  byteval tag < 128 -> len (tag :: rest) < 2 ^ 63 ->
  varint 64 (tag :: rest) 0 = Done (byteval tag, 1).
Proof. intros Htag Hlen. exact (varint_tag tag [] rest Htag Hlen). Qed.

Lemma unmarshalStep_tag_0 {M} (message : string)
    (fields : list byte -> M -> Z -> Z -> Z -> Z -> outcome (M * Z))
    (tag : byte) (rest : list byte) (m : M) :
  byteval tag < 128 -> Z.land (byteval tag) 7 <> 4 ->
  0 < to_int32 (Z.shiftr (byteval tag) 3) ->
  len (tag :: rest) < 2 ^ 63 ->
  unmarshalStep message fields (tag :: rest) m 0
  = fields (tag :: rest) m (to_int32 (Z.shiftr (byteval tag) 3))
      (Z.land (byteval tag) 7) 0 1.
Proof.
  intros Htag Hwire Hnum Hlen.
  exact (unmarshalStep_tag message fields tag [] rest m Htag Hwire Hnum Hlen).
Qed.

Lemma wrap64_high (z : Z) : 2 ^ 63 <= z < 2 ^ 64 + 2 ^ 63 -> wrap64 z = z - 2 ^ 64.
Proof.
  intros Hz. unfold wrap64.
  replace (z + 2 ^ 63) with (z - 2 ^ 63 + 1 * 2 ^ 64) by lia.
  rewrite Z.mod_add by lia. rewrite Z.mod_small by lia. lia.
Qed.

Lemma len_wireVarint_9 (v : Z) : 2 ^ 56 <= v < 2 ^ 63 -> len (wireVarint v) = 9.
Proof.
  intros Hv. rewrite <- sovStats_wireVarint by lia. unfold sovStats.
  destruct (sovStats_loop_spec 9 v 0) as (Hr & Hup & Hlow); [| lia | lia |].
  { change (2 ^ (7 * Z.of_nat 10)) with (2 ^ 70). lia. }
  specialize (Hlow ltac:(lia)). rewrite Z.sub_0_r in *.
  set (r := sovStats_loop 10 0 v) in *.
  assert (Hcases : r = 1 \/ r = 2 \/ r = 3 \/ r = 4 \/ r = 5 \/ r = 6 \/ r = 7 \/ r = 8
                   \/ r = 9 \/ r = 10) by lia.
  clearbody r.
  destruct Hcases as [->|[->|[->|[->|[->|[->|[->|[->|[->| ->]]]]]]]]];
    cbn in Hup, Hlow; lia.
Qed.

(** X22. Unmarshal (stats.pb.go), the three of them: the tag of an end of group
    is answered with the error of a wrong wire type, "end group for
    non-group", and a tag with the field number 0 with "illegal tag",
    before the switch on the field number is reached. *)
Theorem Unmarshal_illegal_tag {M} (message : string)
    (fields : list byte -> M -> Z -> Z -> Z -> Z -> outcome (M * Z))
    (tag : byte) (rest : list byte) (m : M) :
  Z.land (byteval tag) 7 = 4 \/ byteval tag < 8 ->
  byteval tag < 128 -> len (tag :: rest) < 2 ^ 63 ->
  unmarshal message fields (tag :: rest) m
  = Fail (if Z.land (byteval tag) 7 =? 4 then ErrEndGroup message
          else ErrIllegalTag message 0 (byteval tag)).
Proof.
  intros Hcase Htag Hlen. rewrite unmarshal_first. unfold unmarshalStep.
  rewrite (varint_tag_0 tag rest Htag Hlen). cbn [then_]. cbv beta iota zeta.
  destruct (Z.eqb_spec (Z.land (byteval tag) 7) 4) as [|Hwire]; [reflexivity|].
  destruct Hcase as [|Hsmall]; [contradiction|].
  pose proof (byteval_bounds tag).
  rewrite Z.shiftr_div_pow2, Z.div_small by (change (2 ^ 3) with 8; lia).
  reflexivity.
Qed.

(** X23. ClientStatsPayload.Unmarshal (stats.pb.go): a field of number 1 to 4
    whose tag has another wire type than 2 is answered with the error
    "wrong wireType" that names the wire type and the field. *)
Theorem ClientStatsPayload_Unmarshal_wrong_wire_type
    (tag : byte) (rest : list byte) (m : ClientStatsPayload) :
  byteval tag < 128 -> len (tag :: rest) < 2 ^ 63 ->
  1 <= Z.shiftr (byteval tag) 3 <= 4 ->
  Z.land (byteval tag) 7 <> 2 -> Z.land (byteval tag) 7 <> 4 ->
  ClientStatsPayload_Unmarshal (tag :: rest) m
  = Fail (ErrWrongWireType (Z.land (byteval tag) 7)
            (nth (Z.to_nat (Z.shiftr (byteval tag) 3 - 1))
                 ["Hostname"; "Env"; "Version"; "Stats"] "")%string).
Proof.
  intros Htag Hlen Hnum Hwire Hend. unfold ClientStatsPayload_Unmarshal.
  rewrite unmarshal_first.
  rewrite (unmarshalStep_tag_0 _ _ tag rest m Htag Hend);
    [| | exact Hlen].
  - set (wt := Z.land (byteval tag) 7) in *.
    assert (Hcases : Z.shiftr (byteval tag) 3 = 1 \/ Z.shiftr (byteval tag) 3 = 2
                     \/ Z.shiftr (byteval tag) 3 = 3 \/ Z.shiftr (byteval tag) 3 = 4) by lia.
    destruct Hcases as [->|[->|[->| ->]]];
      [change (to_int32 1) with 1 | change (to_int32 2) with 2
       | change (to_int32 3) with 3 | change (to_int32 4) with 4];
      cbv beta iota delta [ClientStatsPayload_fields];
      unfold readString, readBytes;
      (destruct (Z.eqb_spec wt 2); [contradiction|]); reflexivity.
  - assert (Hcases : Z.shiftr (byteval tag) 3 = 1 \/ Z.shiftr (byteval tag) 3 = 2
                     \/ Z.shiftr (byteval tag) 3 = 3 \/ Z.shiftr (byteval tag) 3 = 4) by lia.
    destruct Hcases as [->|[->|[->| ->]]]; reflexivity.
Qed.

(** A length that carries the index of the end of the field beyond the
    range of [int]. *)
Lemma readBytes_overflow (field : string) (pre post : list byte) (length : Z) :
  0 <= length < 2 ^ 63 ->
  2 ^ 63 <= len pre + len (wireVarint length) + length ->
  len (pre ++ wireVarint length ++ post) < 2 ^ 63 ->
  readBytes field (pre ++ wireVarint length ++ post) 2 (len pre) = Panic.
Proof.
  intros Hlength Hover Hlen. unfold readBytes. cbn [Z.eqb Pos.eqb negb].
  pose proof (len_nonneg pre). pose proof (len_nonneg post).
  pose proof (len_wireVarint length) as Hvar.
  assert (Hlen' := Hlen). rewrite !len_app in Hlen'.
  rewrite varint_wireVarint by (try exact Hlen; lia).
  cbn [then_]. rewrite wrap64_small by lia.
  destruct (Z.ltb_spec length 0); [lia|].
  unfold add64. rewrite wrap64_high by lia.
  set (postIndex := len pre + len (wireVarint length) + length - 2 ^ 64).
  assert (Hneg : postIndex < 0) by (unfold postIndex; lia).
  destruct (Z.ltb_spec (len (pre ++ wireVarint length ++ post)) postIndex) as [Hshort|_].
  { pose proof (len_nonneg (pre ++ wireVarint length ++ post)). lia. }
  unfold slice.
  destruct (Z.leb_spec (len pre + len (wireVarint length)) postIndex); [lia|].
  rewrite andb_false_r. reflexivity.
Qed.

(** X24. ClientStatsPayload.Unmarshal (stats.pb.go): when the length of a string
    or of a bucket is announced so near to 2^63 that the index of the end of
    the field, [iNdEx + length], wraps around to a negative number, the test
    [postIndex > l] lets it pass and the slice [data[iNdEx:postIndex]]
    panics; no error is returned. *)
Theorem ClientStatsPayload_Unmarshal_length_overflow
    (tag : byte) (length : Z) (rest : list byte) (m : ClientStatsPayload) :
  In tag [x0a; x12; x1a; x22] ->
  2 ^ 63 - 10 <= length < 2 ^ 63 ->
  len (tag :: wireVarint length ++ rest) < 2 ^ 63 ->
  ClientStatsPayload_Unmarshal (tag :: wireVarint length ++ rest) m = Panic.
Proof.
  intros Hin Hlength Hlen. unfold ClientStatsPayload_Unmarshal.
  rewrite unmarshal_first.
  assert (Hnine : len (wireVarint length) = 9) by (apply len_wireVarint_9; lia).
  assert (Hread : forall field,
             readBytes field (tag :: wireVarint length ++ rest) 2 1 = Panic).
  { intros field. apply (readBytes_overflow field [tag] rest length);
      [lia | change (len [tag]) with 1; lia | exact Hlen]. }
  cbn [In] in Hin.
  destruct Hin as [<-|[<-|[<-|[<-|[]]]]];
    (rewrite unmarshalStep_tag_0;
     [| vm_compute; reflexivity | vm_compute; discriminate | vm_compute; reflexivity
      | exact Hlen]);
    match goal with
    | |- context [to_int32 ?z] => let k := eval vm_compute in (to_int32 z) in
                                  change (to_int32 z) with k
    end;
    match goal with
    | |- context [Z.land ?z 7] => let k := eval vm_compute in (Z.land z 7) in
                                  change (Z.land z 7) with k
    end;
    cbv beta iota delta [ClientStatsPayload_fields]; unfold readString;
    rewrite Hread; reflexivity.
Qed.

Lemma skipStats_S (fuel : nat) (data : list byte) :
  skipStats (S fuel) data
  = if 0 <? len data then
      let! (wire, iNdEx) := varint 64 data 0 in
      let wireType := Z.land wire 7 in
      match wireType with
      | 0 => let! (_, iNdEx) := varint 64 data iNdEx in Done iNdEx
      | 1 => Done (add64 iNdEx 8)
      | 2 =>
          let! (length, iNdEx) := varint 64 data iNdEx in
          let length := wrap64 length in
          let iNdEx := add64 iNdEx length in
          if length <? 0 then Fail ErrInvalidLengthStats else Done iNdEx
      | 3 => skipGroup fuel data iNdEx
      | 4 => Done iNdEx
      | 5 => Done (add64 iNdEx 4)
      | _ => Fail (ErrIllegalWireType wireType)
      end
    else Panic.
Proof. reflexivity. Qed.

Lemma to_int32_small (z : Z) : - 2 ^ 31 <= z < 2 ^ 31 -> to_int32 z = z.
Proof. intros Hz. unfold to_int32. rewrite Z.mod_small by lia. lia. Qed.

(** An integer field that the switch of [Unmarshal] does not know. *)
Lemma skipField_varint (tag : byte) (v : Z) (pre post : list byte) :
  byteval tag < 128 -> Z.land (byteval tag) 7 = 0 -> 0 <= v < 2 ^ 64 ->
  len (pre ++ (tag :: wireVarint v) ++ post) < 2 ^ 63 ->
  skipField (pre ++ (tag :: wireVarint v) ++ post) (len pre)
  = Done (len pre + len (tag :: wireVarint v)).
Proof.
  intros Htag Hwire Hv Hlen. unfold skipField.
  pose proof (len_nonneg pre). pose proof (len_nonneg post).
  pose proof (len_wireVarint v) as Hvar.
  assert (Hlen' := Hlen). cbn [app] in Hlen'. rewrite !len_app, len_cons, len_app in Hlen'.
  rewrite slice_to_end by (rewrite len_app; pose proof (len_nonneg ((tag :: wireVarint v) ++ post)); lia).
  assert (Hdrop : drop (Z.to_nat (len pre)) (pre ++ (tag :: wireVarint v) ++ post)
                  = tag :: wireVarint v ++ post)
    by (unfold len; rewrite Nat2Z.id; apply drop_app_length).
  rewrite !Hdrop. cbn [app].
  assert (Hrest : len (tag :: wireVarint v ++ post) < 2 ^ 63)
    by (rewrite len_cons, len_app; lia).
  rewrite skipStats_S.
  destruct (Z.ltb_spec 0 (len (tag :: wireVarint v ++ post))) as [_|Hempty];
    [|rewrite len_cons in Hempty; pose proof (len_nonneg (wireVarint v ++ post)); lia].
  rewrite (varint_tag_0 tag _ Htag Hrest). cbn [then_]. cbv beta iota zeta.
  rewrite Hwire.
  pose proof (varint_wireVarint 64 v [tag] post Hv ltac:(lia) Hrest) as Hread.
  cbn [app] in Hread. change (len [tag]) with 1 in Hread.
  rewrite Hread. cbn [then_].
  destruct (Z.ltb_spec (1 + len (wireVarint v)) 0); [lia|].
  rewrite add64_small by lia.
  match goal with |- context [?a <? ?b] => destruct (Z.ltb_spec a b) as [Hshort|_] end.
  { rewrite len_app, len_cons, len_app in Hshort. lia. }
  rewrite len_cons. reflexivity.
Qed.

Lemma reads_unknown_varint {M} (message : string)
    (fields : list byte -> M -> Z -> Z -> Z -> Z -> outcome (M * Z))
    (tag : byte) (v : Z) :
  byteval tag < 128 -> Z.land (byteval tag) 7 = 0 ->
  0 < to_int32 (Z.shiftr (byteval tag) 3) ->
  (forall data m pre i,
      fields data m (to_int32 (Z.shiftr (byteval tag) 3)) 0 pre i
      = let! i := skipField data pre in Done (m, i)) ->
  0 <= v < 2 ^ 64 ->
  reads message fields (tag :: wireVarint v) (fun m => m).
Proof.
  intros Htag Hwire Hnum Hfields Hv. apply reads_field.
  - rewrite len_cons. pose proof (len_nonneg (wireVarint v)). lia.
  - intros pre post m Hlen.
    assert (Hend : Z.land (byteval tag) 7 <> 4) by (rewrite Hwire; discriminate).
    assert (Hstep := unmarshalStep_tag message fields tag pre (wireVarint v ++ post) m
                       Htag Hend Hnum Hlen).
    cbn [app] in *. rewrite Hstep, Hwire, Hfields.
    pose proof (skipField_varint tag v pre post Htag Hwire Hv Hlen) as Hskip.
    cbn [app] in Hskip. rewrite Hskip. reflexivity.
Qed.

(** X25. ClientStatsPayload.Unmarshal (stats.pb.go): an integer field with a
    number from 5 to 15, which the message does not have, is skipped: the
    payload that was marshalled after it is read as if the field were not
    there. *)
Theorem ClientStatsPayload_Unmarshal_skips_unknown
    (tag : byte) (v : Z) (m : ClientStatsPayload) :
  byteval tag < 128 -> Z.land (byteval tag) 7 = 0 -> 5 <= Z.shiftr (byteval tag) 3 ->
  0 <= v < 2 ^ 64 ->
  ClientStatsPayload_valid m ->
  len (tag :: wireVarint v ++ ClientStatsPayload_wire m) < 2 ^ 63 ->
  exists data,
    ClientStatsPayload_Marshal m = Done data /\
    ClientStatsPayload_Unmarshal (tag :: wireVarint v ++ data) ClientStatsPayload_zero
    = Done m.
Proof.
  intros Htag Hwire Hnum Hv Hvalid Hlen.
  assert (Hm : len (ClientStatsPayload_wire m) < 2 ^ 63).
  { rewrite len_cons, len_app in Hlen. pose proof (len_nonneg (wireVarint v)). lia. }
  exists (ClientStatsPayload_wire m). split;
    [apply ClientStatsPayload_Marshal_wire; assumption|].
  pose proof (byteval_bounds tag) as Hb.
  assert (Hk : 5 <= Z.shiftr (byteval tag) 3 <= 15).
  { split; [exact Hnum|]. rewrite Z.shiftr_div_pow2 by lia. change (2 ^ 3) with 8.
    apply Z.lt_succ_r. apply Z.div_lt_upper_bound; lia. }
  assert (Hunknown : reads "ClientStatsPayload" ClientStatsPayload_fields
                       (tag :: wireVarint v) (fun m0 => m0)).
  { apply reads_unknown_varint; try assumption.
    - rewrite to_int32_small by lia. lia.
    - intros data m0 pre i. rewrite to_int32_small by lia.
      set (k := Z.shiftr (byteval tag) 3) in *.
      assert (Hcases : k = 5 \/ k = 6 \/ k = 7 \/ k = 8 \/ k = 9 \/ k = 10 \/ k = 11
                       \/ k = 12 \/ k = 13 \/ k = 14 \/ k = 15) by lia.
      clearbody k.
      destruct Hcases as [->|[->|[->|[->|[->|[->|[->|[->|[->|[->| ->]]]]]]]]]];
        reflexivity. }
  assert (R := reads_app _ _ _ _ _ _ Hunknown (ClientStatsPayload_reads m Hvalid)).
  unfold ClientStatsPayload_Unmarshal.
  change (tag :: wireVarint v ++ ClientStatsPayload_wire m)
    with ((tag :: wireVarint v) ++ ClientStatsPayload_wire m).
  rewrite (unmarshal_reads _ _ _ _ ClientStatsPayload_zero R) by exact Hlen.
  fold (ClientStatsPayload_Unmarshal (ClientStatsPayload_wire m) ClientStatsPayload_zero).
  rewrite <- (ClientStatsPayload_Unmarshal_wire m Hvalid Hm).
  rewrite ClientStatsPayload_Unmarshal_onto by assumption. reflexivity.
Qed.

(** X26. ClientStatsBucket.Unmarshal (stats.pb.go): the message that [Unmarshal]
    is called on is not reset. The groups read are appended to the ones it
    has, and Start and Duration keep their values when the data has no such
    field, which is how a zero is marshalled. *)
Theorem ClientStatsBucket_Unmarshal_merges (m m0 : ClientStatsBucket) :
  ClientStatsBucket_valid m -> len (ClientStatsBucket_wire m) < 2 ^ 63 ->
  exists data,
    ClientStatsBucket_Marshal m = Done data /\
    ClientStatsBucket_Unmarshal data m0
    = Done {| CSB_Start := if CSB_Start m =? 0 then CSB_Start m0 else CSB_Start m;
              CSB_Duration := if CSB_Duration m =? 0 then CSB_Duration m0
                              else CSB_Duration m;
              CSB_Stats := CSB_Stats m0 ++ CSB_Stats m |}.
Proof.
  intros Hvalid Hlen. exists (ClientStatsBucket_wire m). split.
  - apply ClientStatsBucket_Marshal_wire; assumption.
  - apply ClientStatsBucket_Unmarshal_onto; assumption.
Qed.

Lemma lxor_ones_64 (a : Z) : 0 <= a < 2 ^ 64 -> Z.lxor a (Z.ones 64) = Z.ones 64 - a.
Proof.
  intros Ha.
  assert (Hdiff : Z.ldiff a (Z.ones 64) = 0).
  { destruct (Z.eq_dec a 0) as [->|Hnz]; [apply Z.ldiff_0_l|].
    apply Z.ldiff_ones_r_low; [lia|]. apply Z.log2_lt_pow2; lia. }
  rewrite Z.lxor_comm. symmetry. rewrite (Z.sub_nocarry_ldiff _ _ Hdiff).
  apply Z.bits_inj'. intros n Hn.
  rewrite Z.ldiff_spec, Z.lxor_spec.
  assert (Hbit : Z.testbit a n && negb (Z.testbit (Z.ones 64) n) = false)
    by (rewrite <- Z.ldiff_spec, Hdiff; apply Z.bits_0).
  destruct (Z.testbit (Z.ones 64) n), (Z.testbit a n); cbn in *; congruence.
Qed.

(** X27. sozStats (stats.pb.go): the size of the zigzag encoding. For the
    [uint64] [x], read as the [int64] [n], it is [sovStats] of [2 * n] when
    [n] is not negative and of [- 2 * n - 1] when it is. *)
Theorem sozStats_zigzag (x : Z) :
  0 <= x < 2 ^ 64 ->
  sozStats x = sovStats (if wrap64 x <? 0 then - 2 * wrap64 x - 1 else 2 * wrap64 x).
Proof.
  intros Hx. unfold sozStats. f_equal.
  rewrite Z.shiftl_mul_pow2, Z.shiftr_div_pow2 by lia. change (2 ^ 1) with 2.
  destruct (Z.lt_ge_cases x (2 ^ 63)) as [Hpos|Hneg].
  - rewrite wrap64_small by lia. destruct (Z.ltb_spec x 0); [lia|].
    rewrite Z.div_small by lia.
    rewrite (to_uint64_small (x * 2)) by lia.
    change (to_uint64 0) with 0. rewrite Z.lxor_0_r. rewrite to_uint64_small by lia. lia.
  - rewrite wrap64_high by lia. destruct (Z.ltb_spec (x - 2 ^ 64) 0); [|lia].
    replace ((x - 2 ^ 64) / 2 ^ 63) with (-1)
      by (apply Z.div_unique with (r := x - 2 ^ 63); lia).
    change (to_uint64 (-1)) with (Z.ones 64).
    assert (Hdouble : to_uint64 (x * 2) = x * 2 - 2 ^ 64).
    { unfold to_uint64. symmetry. apply Z.mod_unique with (q := 1); lia. }
    rewrite Hdouble, lxor_ones_64 by lia.
    change (Z.ones 64) with (2 ^ 64 - 1). rewrite to_uint64_small by lia. lia.
Qed.

(** *** Fixed-width integers *)

Lemma encodeFixed_bytes (v offset : Z) (count : nat) : forall from data,
  0 <= from -> 0 <= offset ->
  offset + from + Z.of_nat count <= len data -> len data < 2 ^ 63 ->
  exists bytes,
    encodeFixed count from data offset v = Some (splice data (offset + from) bytes) /\
    length bytes = count /\
    littleEndian bytes = Z.shiftr v (8 * from) mod 256 ^ Z.of_nat count.
Proof.
  induction count as [|count IH]; intros from data Hfrom Hoffset Hroom Hlen.
  - exists []. cbn [encodeFixed]. rewrite splice_nil by lia.
    repeat split. cbn. rewrite Z.mod_1_r. reflexivity.
  - cbn [encodeFixed]. rewrite add64_small by lia.
    rewrite poke_splice by lia.
    set (b := uint8 (Z.shiftr v (8 * from))).
    destruct (IH (from + 1) (splice data (offset + from) [b])) as (bytes & Hdone & Hcount & Hvalue);
      [lia | lia | rewrite len_splice; change (len [b]) with 1; lia
       | rewrite len_splice; change (len [b]) with 1; lia |].
    exists (b :: bytes). split; [|split].
    + rewrite Hdone. f_equal.
      replace (offset + (from + 1)) with (offset + from + len [b])
        by (change (len [b]) with 1; lia).
      rewrite splice_splice; [reflexivity | lia |].
      change (len [b]) with 1. unfold len at 1. rewrite Hcount. lia.
    + cbn [length]. rewrite Hcount. reflexivity.
    + cbn [littleEndian]. rewrite Hvalue. unfold b. rewrite byteval_uint8.
      rewrite Nat2Z.inj_succ, Z.pow_succ_r by lia.
      rewrite (Z.rem_mul_r _ 256) by (try apply Z.pow_pos_nonneg; lia).
      f_equal. f_equal. f_equal.
      rewrite !Z.shiftr_div_pow2 by lia.
      replace (8 * (from + 1)) with (8 * from + 8) by lia.
      rewrite Z.pow_add_r by lia. change (2 ^ 8) with 256.
      rewrite Z.div_div by (try apply Z.pow_pos_nonneg; lia). reflexivity.
Qed.

Lemma encodeFixed_short (v offset : Z) (count : nat) : forall from data,
  0 <= from -> 0 <= offset -> offset + from <= len data ->
  len data < offset + from + Z.of_nat count -> len data < 2 ^ 63 ->
  encodeFixed count from data offset v = None.
Proof.
  induction count as [|count IH]; intros from data Hfrom Hoffset Hstart Hroom Hlen.
  - lia.
  - cbn [encodeFixed]. rewrite add64_small by lia.
    destruct (Z.lt_ge_cases (offset + from) (len data)) as [Hin|Hout].
    + rewrite poke_splice by lia.
      apply IH; [lia | lia | | | ]; rewrite len_splice;
        try (match goal with |- context [len [?b]] => change (len [b]) with 1 end); lia.
    + rewrite poke_out by lia. reflexivity.
Qed.
(** X28. encodeFixed64Stats (stats.pb.go): in a buffer with eight bytes from
    [offset] on, it writes the eight bytes of [v], the least significant
    first, leaves the others as they were and returns [offset + 8]; in a
    buffer that ends before, the write out of range panics. *)
Theorem encodeFixed64Stats_little_endian (data : list byte) (offset v : Z) :
  0 <= v < 2 ^ 64 -> 0 <= offset <= len data -> len data < 2 ^ 63 ->
  if offset + 8 <=? len data then
    exists bytes,
      encodeFixed64Stats data offset v = Done (splice data offset bytes, offset + 8) /\
      length bytes = 8%nat /\ littleEndian bytes = v
  else encodeFixed64Stats data offset v = Panic.
Proof.
  intros Hv Hoffset Hlen. unfold encodeFixed64Stats.
  destruct (Z.leb_spec (offset + 8) (len data)) as [Hroom|Hshort].
  - destruct (encodeFixed_bytes v offset 8 0 data) as (bytes & Hdone & Hcount & Hvalue);
      [lia | lia | lia | lia |].
    exists bytes. rewrite Hdone, Z.add_0_r, add64_small by lia.
    repeat split; [exact Hcount|].
    rewrite Hvalue. change (8 * 0) with 0. rewrite Z.shiftr_0_r.
    change (256 ^ Z.of_nat 8) with (2 ^ 64). apply Z.mod_small. exact Hv.
  - rewrite (encodeFixed_short v offset 8 0 data) by lia. reflexivity.
Qed.

(** X29. encodeFixed32Stats (stats.pb.go): in a buffer with four bytes from
    [offset] on, it writes the four bytes of [v], the least significant
    first, leaves the others as they were and returns [offset + 4]; in a
    buffer that ends before, the write out of range panics. *)
Theorem encodeFixed32Stats_little_endian (data : list byte) (offset v : Z) :
  0 <= v < 2 ^ 32 -> 0 <= offset <= len data -> len data < 2 ^ 63 ->
  if offset + 4 <=? len data then
    exists bytes,
      encodeFixed32Stats data offset v = Done (splice data offset bytes, offset + 4) /\
      length bytes = 4%nat /\ littleEndian bytes = v
  else encodeFixed32Stats data offset v = Panic.
Proof.
  intros Hv Hoffset Hlen. unfold encodeFixed32Stats.
  destruct (Z.leb_spec (offset + 4) (len data)) as [Hroom|Hshort].
  - destruct (encodeFixed_bytes v offset 4 0 data) as (bytes & Hdone & Hcount & Hvalue);
      [lia | lia | lia | lia |].
    exists bytes. rewrite Hdone, Z.add_0_r, add64_small by lia.
    repeat split; [exact Hcount|].
    rewrite Hvalue. change (8 * 0) with 0. rewrite Z.shiftr_0_r.
    change (256 ^ Z.of_nat 4) with (2 ^ 32). apply Z.mod_small. exact Hv.
  - rewrite (encodeFixed_short v offset 4 0 data) by lia. reflexivity.
Qed.

(** X30. ClientStatsPayload.Unmarshal and skipStats (stats.pb.go): for a field
    of eight bytes (wire type 1) with a number from 5 to 15, which the
    message does not have, [skipStats] answers nine bytes without looking
    whether the data has them; when it has not, [Unmarshal] returns
    io.ErrUnexpectedEOF, and skips the field when it has. *)
Theorem ClientStatsPayload_Unmarshal_unknown_fixed64
    (tag : byte) (rest : list byte) (m : ClientStatsPayload) :
  byteval tag < 128 -> Z.land (byteval tag) 7 = 1 -> 5 <= Z.shiftr (byteval tag) 3 ->
  len (tag :: rest) < 2 ^ 63 ->
  unmarshalStep "ClientStatsPayload" ClientStatsPayload_fields (tag :: rest) m 0
  = (if len rest <? 8 then Fail ErrUnexpectedEOF else Done (m, 9)) /\
  (len rest < 8 -> ClientStatsPayload_Unmarshal (tag :: rest) m = Fail ErrUnexpectedEOF).
Proof.
  intros Htag Hwire Hnum Hlen.
  pose proof (byteval_bounds tag) as Hb. pose proof (len_nonneg rest) as Hrest.
  assert (Hk : 5 <= Z.shiftr (byteval tag) 3 <= 15).
  { split; [exact Hnum|]. rewrite Z.shiftr_div_pow2 by lia. change (2 ^ 3) with 8.
    apply Z.lt_succ_r. apply Z.div_lt_upper_bound; lia. }
  assert (Hstep : unmarshalStep "ClientStatsPayload" ClientStatsPayload_fields (tag :: rest) m 0
                  = if len rest <? 8 then Fail ErrUnexpectedEOF else Done (m, 9)).
  { rewrite unmarshalStep_tag_0;
      [| exact Htag | rewrite Hwire; discriminate | rewrite to_int32_small by lia; lia
       | exact Hlen].
    rewrite to_int32_small, Hwire by lia.
    set (k := Z.shiftr (byteval tag) 3) in *.
    assert (Hcases : k = 5 \/ k = 6 \/ k = 7 \/ k = 8 \/ k = 9 \/ k = 10 \/ k = 11
                     \/ k = 12 \/ k = 13 \/ k = 14 \/ k = 15) by lia.
    assert (Hdefault : ClientStatsPayload_fields (tag :: rest) m k 1 0 1
                       = let! i := skipField (tag :: rest) 0 in Done (m, i)).
    { clearbody k.
      destruct Hcases as [->|[->|[->|[->|[->|[->|[->|[->|[->|[->| ->]]]]]]]]]];
        reflexivity. }
    rewrite Hdefault. unfold skipField.
    rewrite slice_to_end by (rewrite len_cons; lia).
    change (drop (Z.to_nat 0) (tag :: rest)) with (tag :: rest).
    rewrite skipStats_S.
    destruct (Z.ltb_spec 0 (len (tag :: rest))) as [_|Hempty];
      [|rewrite len_cons in Hempty; lia].
    rewrite (varint_tag_0 tag rest Htag Hlen). cbn [then_]. cbv beta iota zeta.
    rewrite Hwire. cbn [then_].
    change (add64 1 8) with 9. change (9 <? 0) with false. cbv iota.
    change (add64 0 9) with 9. rewrite len_cons.
    destruct (Z.ltb_spec (1 + len rest) 9), (Z.ltb_spec (len rest) 8);
      try lia; reflexivity. }
  split; [exact Hstep|].
  intros Hshort. unfold ClientStatsPayload_Unmarshal.
  rewrite unmarshal_first, Hstep.
  destruct (Z.ltb_spec (len rest) 8); [reflexivity | lia].
Qed.

(** ** The theorems at work on the concrete collaborators *)

Import Demo.

Lemma sample_negative_priority_witness :
  exists w',
    sample (processed [span "http.request" "GET /" 0 (Some (-1))])
           (world (true, half) (true, half) true)
    = (([], false, [span "http.request" "GET /" 0 (Some (-1))]), w') /\
    Source w' = AddInt64 addr_TracesPriorityNeg 1 ts0 /\
    TracesPriorityNeg (Source w') = add64 0 1 /\
    calls w' = [] /\
    a_PrioritySampler w' = (true, half, 0%nat) /\
    a_ScoreSampler w' = (false, half, 0%nat) /\
    a_ErrorsScoreSampler w' = (true, half, 0%nat) /\
    a_ExceptionSampler w' = (true, 0%nat) /\
    a_EventProcessor w' = 0%nat.
Proof.
  apply (sample_negative_priority
           (processed [span "http.request" "GET /" 0 (Some (-1))])
           (world (true, half) (true, half) true) (-1)).
  - vm_compute. reflexivity.
  - lia.
Defined.

(** Priority sampler: drop at rate 1/2; errors sampler: keep at rate 1/4.
    With an error span the trace is kept at rate 1/(2 + 4 - 1); without one
    the answer is that of the priority sampler. *)
Lemma priority_trace_rates_witness :
  fst (runSamplers (processed [span "http.request" "GET /" 1 (Some 1)]) true
         (world (false, half) (true, quarter) false))
    = (true, f64_div f64_one (float64_of_Z 5)) /\
  fst (runSamplers (processed [span "http.request" "GET /" 0 (Some 1)]) true
         (world (false, half) (true, quarter) false))
    = (false, half).
Proof.
  split.
  - assert (Hp : GetSamplingPriority
                   (deref (PT_Trace (processed [span "http.request" "GET /" 1 (Some 1)]))
                      (PT_Root (processed [span "http.request" "GET /" 1 (Some 1)])))
                 = (1, true)) by (vm_compute; reflexivity).
    destruct (priority_trace_rates _ (world (false, half) (true, quarter) false) 1
                false half (false, half, 1%nat) Hp ltac:(lia) eq_refl) as [Herr _].
    destruct (Herr true quarter (true, quarter, 1%nat) eq_refl eq_refl) as (w' & Hrun & _).
    rewrite Hrun. vm_compute. reflexivity.
  - assert (Hp : GetSamplingPriority
                   (deref (PT_Trace (processed [span "http.request" "GET /" 0 (Some 1)]))
                      (PT_Root (processed [span "http.request" "GET /" 0 (Some 1)])))
                 = (1, true)) by (vm_compute; reflexivity).
    destruct (priority_trace_rates _ (world (false, half) (true, quarter) false) 1
                false half (false, half, 1%nat) Hp ltac:(lia) eq_refl) as [_ Hok].
    destruct (Hok eq_refl eq_refl) as (w' & Hrun & _).
    rewrite Hrun. reflexivity.
Defined.

(** The priority sampler drops, the exception sampler flags: kept at rate 1.
    A trace without a priority never reaches the exception sampler. *)
Lemma exception_sampler_forces_keep_witness :
  fst (samplePriorityTrace (processed [span "http.request" "GET /" 0 (Some 1)])
         (world (false, half) (true, quarter) true)) = (true, f64_one) /\
  a_ExceptionSampler
    (snd (sample (processed [span "http.request" "GET /" 0 None])
            (world (false, half) (true, quarter) true))) = (true, 0%nat).
Proof.
  split.
  - destruct (exception_sampler_forces_keep
                (processed [span "http.request" "GET /" 0 (Some 1)])
                (world (false, half) (true, quarter) true)) as [Hx _].
    exact (proj1 (Hx eq_refl eq_refl)).
  - destruct (exception_sampler_forces_keep
                (processed [span "http.request" "GET /" 0 None])
                (world (false, half) (true, quarter) true)) as [_ Honly].
    assert (Hp : GetSamplingPriority
                   (deref (PT_Trace (processed [span "http.request" "GET /" 0 None]))
                      (PT_Root (processed [span "http.request" "GET /" 0 None])))
                 = (0, false)) by (vm_compute; reflexivity).
    exact (proj1 (Honly 0 false Hp (or_introl eq_refl))).
Defined.

(** Every sampler drops the trace of priority 0, and its root is returned as
    an event all the same; with priority -1 nothing is extracted. *)
Lemma events_extracted_unless_negative_witness :
  fst (sample (processed [span "http.request" "GET /" 0 (Some 0)])
         (world (false, half) (false, quarter) false))
    = ([span "http.request" "GET /" 0 (Some 0)], false,
       [span "http.request" "GET /" 0 (Some 0)]) /\
  fst (sample (processed [span "http.request" "GET /" 0 (Some (-1))])
         (world (false, half) (false, quarter) false))
    = ([], false, [span "http.request" "GET /" 0 (Some (-1))]).
Proof.
  split.
  - assert (Hp : GetSamplingPriority
                   (deref (PT_Trace (processed [span "http.request" "GET /" 0 (Some 0)]))
                      (PT_Root (processed [span "http.request" "GET /" 0 (Some 0)])))
                 = (0, true)) by (vm_compute; reflexivity).
    destruct (events_extracted_unless_negative _
                (world (false, half) (false, quarter) false) 0 true Hp) as [Hrun _].
    destruct (Hrun ltac:(lia)) as (sampled & rate & w1 & w' & Hs & Hsample & _).
    rewrite Hsample. vm_compute in Hs. injection Hs as <- <- _. vm_compute. reflexivity.
  - assert (Hp : GetSamplingPriority
                   (deref (PT_Trace (processed [span "http.request" "GET /" 0 (Some (-1))]))
                      (PT_Root (processed [span "http.request" "GET /" 0 (Some (-1))])))
                 = (-1, true)) by (vm_compute; reflexivity).
    destruct (events_extracted_unless_negative _
                (world (false, half) (false, quarter) false) (-1) true Hp) as [_ Hneg].
    exact (proj1 (Hneg ltac:(lia))).
Defined.

(** C4, as stated, fails: the trace reaches [sample] with priority -1, the
    event processor would extract its root, and yet [sample] returns no
    event, makes no call and leaves the event processor as it was. *)
Lemma negative_priority_skips_event_processor :
  fst (fst (event_Process (a_EventProcessor (world (true, half) (true, half) false))
              (deref negativeTrace 0) negativeTrace)) = negativeTrace /\
  fst (fst (fst (sample (processed negativeTrace) (world (true, half) (true, half) false))))
    = [] /\
  a_EventProcessor (snd (sample (processed negativeTrace)
                           (world (true, half) (true, half) false)))
    = a_EventProcessor (world (true, half) (true, half) false) /\
  calls (snd (sample (processed negativeTrace) (world (true, half) (true, half) false))) = [].
Proof. vm_compute. repeat split; reflexivity. Qed.

(** A trace that the normaliser rejects, between two traces that are kept:
    one span dropped, and the batch sent and the message to the
    concentrator hold the two other traces only. *)
Lemma invalid_trace_dropped_witness :
  SpansDropped
    (Source (snd (Process (payload [userTrace; invalidTrace; userTrace])
                    (world (true, half) (true, half) true)))) = 1 /\
  map SS_Size
    (TraceWriter_In (snd (Process (payload [userTrace; invalidTrace; userTrace])
                            (world (true, half) (true, half) true)))) = [40] /\
  map (fun b => length (SS_Traces b))
    (TraceWriter_In (snd (Process (payload [userTrace; invalidTrace; userTrace])
                            (world (true, half) (true, half) true)))) = [2%nat] /\
  map (fun sinputs : list Input => length sinputs)
    (Concentrator_In (snd (Process (payload [userTrace; invalidTrace; userTrace])
                             (world (true, half) (true, half) true)))) = [2%nat].
Proof.
  destruct (invalid_trace_dropped (payload [userTrace; invalidTrace; userTrace])
              [userTrace] [userTrace] invalidTrace (world (true, half) (true, half) true)
              (AddInt64 addr_SpansReceived 1
                 (Source (snd (processTraces (payload [userTrace; invalidTrace; userTrace])
                                 [userTrace] new_SampledSpans []
                                 (world (true, half) (true, half) true)))))
              invalidTrace "empty span name")
    as (w2 & Hiter & _ & _ & _ & _ & _ & _ & _ & _ & _ & _ & Hprocess).
  - reflexivity.
  - discriminate.
  - vm_compute. reflexivity.
  - cbv zeta in Hprocess. rewrite Hprocess.
    vm_compute in Hiter. injection Hiter as <-.
    vm_compute. repeat split; reflexivity.
Defined.



(** A payload of a rejected trace, a dropped trace and one more trace: the
    dropped trace has its stats input in the message to the concentrator. *)
Lemma stats_input_whatever_decision_witness :
  exists (keep : bool) (tS : Trace) (more : list Input),
    Concentrator_In
      (snd (Process (payload [invalidTrace; userTrace; errorTrace])
              (world (false, half) (false, half) false))) =
      [[] ++ statsInput (payload [invalidTrace; userTrace; errorTrace])
               (processedTrace (payload [invalidTrace; userTrace; errorTrace]) 0 userTrace
                  (world (false, half) (false, half) false)) keep tS :: more].
Proof.
  destruct (stats_input_whatever_decision (payload [invalidTrace; userTrace; errorTrace])
              [invalidTrace] [errorTrace] userTrace (world (false, half) (false, half) false)
              (AddInt64 addr_SpansReceived 1
                 (AddInt64 addr_SpansDropped 1 (AddInt64 addr_SpansReceived 1 ts0)))
              userTrace eq_refl ltac:(discriminate) eq_refl eq_refl)
    as (wS & wS' & events & keep & tS & more & _ & _ & Hci).
  exists keep, tS, more. exact Hci.
Defined.

(** Three kept traces of one span each, the root of each extracted as an
    event: 20 bytes a trace against a ceiling of 25. The batch is sent after
    the second trace (40 bytes) and what the third left (20 bytes) at the
    end of the payload. *)
Lemma batch_flushed_when_full_witness :
  map SS_Size
    (TraceWriter_In (snd (Process (payload [userTrace; userTrace; userTrace])
                            (world (true, half) (true, half) false)))) = [40; 20].
Proof.
  destruct (batch_flushed_when_full (payload [userTrace; userTrace; userTrace])
              (world (true, half) (true, half) false)) as (_ & _ & _ & Hend).
  - vm_compute. discriminate.
  - rewrite Hend. vm_compute. reflexivity.
Defined.

(** The end-to-end scenario of the spec for client stats: hits 10, errors 2,
    duration 500 give three counts under three keys of one grain. *)
Lemma client_group_three_counts_witness :
  exists (bucket : Bucket) (hits errors duration : Count),
    size (Bucket_Counts bucket) = 3%nat /\
    Bucket_Counts bucket !! "N|hits|none,R,S" = Some hits /\
    Bucket_Counts bucket !! "N|errors|none,R,S" = Some errors /\
    Bucket_Counts bucket !! "N|duration|none,R,S" = Some duration /\
    Count_Value hits = float64_of_Z 10 /\
    Count_Value errors = float64_of_Z 2 /\
    Count_Value duration = float64_of_Z 500.
Proof.
  destruct (client_group_three_counts clientStats "go" (world (true, half) (true, half) false)
              clientBucket clientGroup)
    as (out & bucket & hits & errors & duration & _ & _ & Hsize & Hh & He & Hd
        & (_ & _ & Hvh) & (_ & _ & Hve) & (_ & _ & Hvd)).
  - left. reflexivity.
  - left. reflexivity.
  - vm_compute. discriminate.
  - vm_compute. discriminate.
  - vm_compute. discriminate.
  - exists bucket, hits, errors, duration.
    split; [exact Hsize|]. split; [exact Hh|]. split; [exact He|]. split; [exact Hd|].
    split; [exact Hvh|]. split; [exact Hve | exact Hvd].
Defined.

(** In the scenario, the count of errors has the ten hits as [TopLevel]. *)
Lemma counts_top_level_is_hits_witness :
  exists c : Count,
    Bucket_Counts (newBucket "none" "1" "go" clientBucket clientGroup) !! "N|errors|none,R,S"
      = Some c /\
    Count_TopLevel c = float64_of_Z 10.
Proof.
  assert (Hex : exists c : Count,
            Bucket_Counts (newBucket "none" "1" "go" clientBucket clientGroup)
              !! "N|errors|none,R,S" = Some c)
    by (vm_compute; eexists; reflexivity).
  destruct Hex as [c Hc]. exists c. split; [exact Hc|].
  destruct (counts_top_level_is_hits clientStats "go" (world (true, half) (true, half) false))
    as (out & Hout & Hall).
  rewrite ProcessStats_run in Hout. apply app_inv_head in Hout. injection Hout as <-.
  destruct (Hall (newBucket "none" "1" "go" clientBucket clientGroup) "N|errors|none,R,S" c
              (or_introl eq_refl) Hc) as (group & b & Hg & Hb & Htop & _).
  destruct Hg as [<-|[]]. destruct Hb as [<-|[]]. exact Htop.
Defined.

(** *** Further properties *)

(** A kept trace of priority 1: its root is the one event extracted. *)
Lemma sample_counts_events_witness :
  0 <= fst (GetSamplingPriority (deref (PT_Trace (processed userTrace))
                                   (PT_Root (processed userTrace)))) /\
  EventsExtracted
    (Source (snd (sample (processed userTrace) (world (true, half) (true, half) false))))
  = add64 (EventsExtracted (Source (world (true, half) (true, half) false)))
      (snd (fst (event_Process
                   (a_EventProcessor (world (true, half) (true, half) false))
                   (deref (snd (fst (sample (processed userTrace)
                                       (world (true, half) (true, half) false))))
                      (PT_Root (processed userTrace)))
                   (snd (fst (sample (processed userTrace)
                                (world (true, half) (true, half) false))))))).
Proof.
  split.
  - vm_compute. discriminate.
  - apply (sample_counts_events (processed userTrace) (world (true, half) (true, half) false)).
    vm_compute. discriminate.
Defined.

(** A trace with an error span and no priority: the errors sampler alone is
    asked, and it keeps the trace. *)
Lemma no_priority_one_sampler_witness :
  snd (fst (fst (sample (processed errorTrace) (world (false, half) (true, quarter) false))))
  = true /\
  a_PrioritySampler (snd (sample (processed errorTrace)
                            (world (false, half) (true, quarter) false)))
  = a_PrioritySampler (world (false, half) (true, quarter) false).
Proof.
  destruct (no_priority_one_sampler (processed errorTrace)
              (world (false, half) (true, quarter) false) 0)
    as (Hkeep & _ & _ & Hpriority & _).
  - vm_compute. reflexivity.
  - lia.
  - split; [rewrite Hkeep; vm_compute; reflexivity | exact Hpriority].
Defined.

(** Two empty traces. *)
Lemma Process_empty_traces_witness :
  Process (payload [[]; []]) (world (true, half) (true, half) false)
  = (tt, world (true, half) (true, half) false).
Proof.
  apply (Process_empty_traces (payload [[]; []])). repeat constructor.
Defined.

(** The ceiling of 25 bytes and three traces of 20 bytes. *)
Lemma Process_batches_positive_witness :
  0 <= MaxPayloadSize /\
  exists batches,
    TraceWriter_In (snd (Process (payload [userTrace; userTrace; userTrace])
                           (world (true, half) (true, half) false)))
    = TraceWriter_In (world (true, half) (true, half) false) ++ batches /\
    Forall (fun b => 0 < SS_Size b) batches.
Proof.
  split.
  - vm_compute. discriminate.
  - apply (Process_batches_positive (payload [userTrace; userTrace; userTrace])).
    vm_compute. discriminate.
Defined.

(** 300 takes two groups of seven bits. *)
Lemma sovStats_least_groups_witness :
  1 <= sovStats 300 <= 10 /\
  300 < 2 ^ (7 * sovStats 300) /\
  (128 <= 300 -> 2 ^ (7 * (sovStats 300 - 1)) <= 300).
Proof. apply (sovStats_least_groups 300). lia. Defined.

(** 300 written at offset 1 of four bytes, and read back. *)
Lemma encodeVarintStats_then_varint_witness :
  exists data',
    encodeVarintStats [x00; x00; x00; x00] 1 300 = Done (data', 1 + sovStats 300) /\
    len data' = len [x00; x00; x00; x00] /\
    take (Z.to_nat 1) data' = take (Z.to_nat 1) [x00; x00; x00; x00] /\
    drop (Z.to_nat (1 + sovStats 300)) data'
    = drop (Z.to_nat (1 + sovStats 300)) [x00; x00; x00; x00] /\
    varint 64 data' 1 = Done (300, 1 + sovStats 300).
Proof.
  apply (encodeVarintStats_then_varint [x00; x00; x00; x00] 1 300).
  - lia.
  - lia.
  - vm_compute. discriminate.
  - vm_compute. reflexivity.
Defined.

(** 300 does not fit in the last byte of the buffer. *)
Lemma encodeVarintStats_short_buffer_witness :
  encodeVarintStats [x00; x00; x00; x00] 3 300 = Panic.
Proof.
  apply (encodeVarintStats_short_buffer [x00; x00; x00; x00] 3 300).
  - lia.
  - lia.
  - vm_compute. reflexivity.
  - vm_compute. reflexivity.
Defined.

(** The data ends in the middle of a varint. *)
Lemma varint_cut_off_witness :
  varint 64 ([x08] ++ [x80; x80]) (len [x08]) = Fail ErrUnexpectedEOF.
Proof.
  apply (varint_cut_off 64 [x08] [x80; x80]).
  - repeat constructor; vm_compute; discriminate.
  - cbn. lia.
  - vm_compute. reflexivity.
Defined.

(** A varint of eleven bytes. *)
Lemma varint_too_long_witness :
  varint 64 ([x08] ++ [x80; x80; x80; x80; x80; x80; x80; x80; x80; x80] ++ [x01]) (len [x08])
  = Fail ErrIntOverflowStats.
Proof.
  apply (varint_too_long 64 [x08] [x80; x80; x80; x80; x80; x80; x80; x80; x80; x80] [x01]).
  - repeat constructor; vm_compute; discriminate.
  - reflexivity.
  - vm_compute. reflexivity.
Defined.

Lemma clientGroup_valid : ClientGroupedStats_valid clientGroup.
Proof. unfold ClientGroupedStats_valid. cbn. lia. Defined.

Lemma clientBucket_valid : ClientStatsBucket_valid clientBucket.
Proof.
  unfold ClientStatsBucket_valid. cbn.
  split; [lia|]. split; [lia|]. repeat constructor; cbn; lia.
Defined.

Lemma clientStats_valid : ClientStatsPayload_valid clientStats.
Proof. constructor; [exact clientBucket_valid | constructor]. Defined.

(** The group of the scenario takes sixteen bytes. *)
Lemma ClientGroupedStats_Marshal_bytes_witness :
  ClientGroupedStats_Marshal clientGroup = Done (ClientGroupedStats_wire clientGroup) /\
  ClientGroupedStats_Size clientGroup = len (ClientGroupedStats_wire clientGroup).
Proof.
  apply (ClientGroupedStats_Marshal_bytes clientGroup clientGroup_valid).
  vm_compute. reflexivity.
Defined.

Lemma ClientStatsBucket_Marshal_bytes_witness :
  ClientStatsBucket_Marshal clientBucket = Done (ClientStatsBucket_wire clientBucket) /\
  ClientStatsBucket_Size clientBucket = len (ClientStatsBucket_wire clientBucket).
Proof.
  apply (ClientStatsBucket_Marshal_bytes clientBucket clientBucket_valid).
  vm_compute. reflexivity.
Defined.

Lemma ClientStatsPayload_Marshal_bytes_witness :
  ClientStatsPayload_Marshal clientStats = Done (ClientStatsPayload_wire clientStats) /\
  ClientStatsPayload_Size clientStats = len (ClientStatsPayload_wire clientStats).
Proof.
  apply (ClientStatsPayload_Marshal_bytes clientStats clientStats_valid).
  vm_compute. reflexivity.
Defined.

Lemma ClientGroupedStats_round_trip_witness :
  exists data,
    ClientGroupedStats_Marshal clientGroup = Done data /\
    len data = ClientGroupedStats_Size clientGroup /\
    ClientGroupedStats_Unmarshal data ClientGroupedStats_zero = Done clientGroup.
Proof.
  apply (ClientGroupedStats_round_trip clientGroup clientGroup_valid).
  vm_compute. reflexivity.
Defined.

Lemma ClientStatsBucket_round_trip_witness :
  exists data,
    ClientStatsBucket_Marshal clientBucket = Done data /\
    len data = ClientStatsBucket_Size clientBucket /\
    ClientStatsBucket_Unmarshal data ClientStatsBucket_zero = Done clientBucket.
Proof.
  apply (ClientStatsBucket_round_trip clientBucket clientBucket_valid).
  vm_compute. reflexivity.
Defined.

Lemma ClientStatsPayload_round_trip_witness :
  exists data,
    ClientStatsPayload_Marshal clientStats = Done data /\
    len data = ClientStatsPayload_Size clientStats /\
    ClientStatsPayload_Unmarshal data ClientStatsPayload_zero = Done clientStats.
Proof.
  apply (ClientStatsPayload_round_trip clientStats clientStats_valid).
  vm_compute. reflexivity.
Defined.

(** The tag 0x0c, field 1 with the wire type of an end of group, and the tag
    0x02, field 0. *)
Lemma Unmarshal_illegal_tag_witness :
  ClientStatsPayload_Unmarshal [x0c; x01] ClientStatsPayload_zero
  = Fail (ErrEndGroup "ClientStatsPayload") /\
  ClientGroupedStats_Unmarshal [x02; x01] ClientGroupedStats_zero
  = Fail (ErrIllegalTag "ClientGroupedStats" 0 2).
Proof.
  split.
  - apply (Unmarshal_illegal_tag "ClientStatsPayload" ClientStatsPayload_fields x0c [x01]).
    + left. reflexivity.
    + vm_compute. reflexivity.
    + vm_compute. reflexivity.
  - apply (Unmarshal_illegal_tag "ClientGroupedStats" ClientGroupedStats_fields x02 [x01]).
    + right. vm_compute. reflexivity.
    + vm_compute. reflexivity.
    + vm_compute. reflexivity.
Defined.

(** The host name sent as an integer. *)
Lemma ClientStatsPayload_Unmarshal_wrong_wire_type_witness :
  ClientStatsPayload_Unmarshal [x08; x01] ClientStatsPayload_zero
  = Fail (ErrWrongWireType 0 "Hostname").
Proof.
  apply (ClientStatsPayload_Unmarshal_wrong_wire_type x08 [x01] ClientStatsPayload_zero).
  - vm_compute. reflexivity.
  - vm_compute. reflexivity.
  - vm_compute. split; discriminate.
  - vm_compute. discriminate.
  - vm_compute. discriminate.
Defined.

(** A host name said to have 2^63 - 1 bytes. *)
Lemma ClientStatsPayload_Unmarshal_length_overflow_witness :
  ClientStatsPayload_Unmarshal (x0a :: wireVarint (2 ^ 63 - 1) ++ []) ClientStatsPayload_zero
  = Panic.
Proof.
  apply (ClientStatsPayload_Unmarshal_length_overflow x0a (2 ^ 63 - 1) []).
  - left. reflexivity.
  - lia.
  - vm_compute. reflexivity.
Defined.

(** Field 5, an integer, before the payload of the scenario. *)
Lemma ClientStatsPayload_Unmarshal_skips_unknown_witness :
  exists data,
    ClientStatsPayload_Marshal clientStats = Done data /\
    ClientStatsPayload_Unmarshal (x28 :: wireVarint 7 ++ data) ClientStatsPayload_zero
    = Done clientStats.
Proof.
  apply (ClientStatsPayload_Unmarshal_skips_unknown x28 7 clientStats).
  - vm_compute. reflexivity.
  - reflexivity.
  - vm_compute. discriminate.
  - lia.
  - exact clientStats_valid.
  - vm_compute. reflexivity.
Defined.

(** The bucket of the scenario read onto itself: its group comes twice. *)
Lemma ClientStatsBucket_Unmarshal_merges_witness :
  exists data,
    ClientStatsBucket_Marshal clientBucket = Done data /\
    ClientStatsBucket_Unmarshal data clientBucket
    = Done {| CSB_Start := 0; CSB_Duration := 10; CSB_Stats := [clientGroup; clientGroup] |}.
Proof.
  apply (ClientStatsBucket_Unmarshal_merges clientBucket clientBucket clientBucket_valid).
  vm_compute. reflexivity.
Defined.

(** -1, as a [uint64], is the zigzag 1. *)
Lemma sozStats_zigzag_witness : sozStats (2 ^ 64 - 1) = sovStats 1.
Proof. apply (sozStats_zigzag (2 ^ 64 - 1)). lia. Defined.

(** 258 in eight bytes, and in a buffer of seven. *)
Lemma encodeFixed64Stats_little_endian_witness :
  (exists bytes,
     encodeFixed64Stats [x00; x00; x00; x00; x00; x00; x00; x00] 0 258
     = Done (splice [x00; x00; x00; x00; x00; x00; x00; x00] 0 bytes, 0 + 8) /\
     length bytes = 8%nat /\ littleEndian bytes = 258) /\
  encodeFixed64Stats [x00; x00; x00; x00; x00; x00; x00] 0 258 = Panic.
Proof.
  split.
  - apply (encodeFixed64Stats_little_endian [x00; x00; x00; x00; x00; x00; x00; x00] 0 258).
    + lia.
    + vm_compute. split; discriminate.
    + vm_compute. reflexivity.
  - apply (encodeFixed64Stats_little_endian [x00; x00; x00; x00; x00; x00; x00] 0 258).
    + lia.
    + vm_compute. split; discriminate.
    + vm_compute. reflexivity.
Defined.

Lemma encodeFixed32Stats_little_endian_witness :
  (exists bytes,
     encodeFixed32Stats [x00; x00; x00; x00] 0 258
     = Done (splice [x00; x00; x00; x00] 0 bytes, 0 + 4) /\
     length bytes = 4%nat /\ littleEndian bytes = 258) /\
  encodeFixed32Stats [x00; x00; x00] 0 258 = Panic.
Proof.
  split.
  - apply (encodeFixed32Stats_little_endian [x00; x00; x00; x00] 0 258).
    + lia.
    + vm_compute. split; discriminate.
    + vm_compute. reflexivity.
  - apply (encodeFixed32Stats_little_endian [x00; x00; x00] 0 258).
    + lia.
    + vm_compute. split; discriminate.
    + vm_compute. reflexivity.
Defined.

(** Field 5 announced as eight bytes, with two bytes left. *)
Lemma ClientStatsPayload_Unmarshal_unknown_fixed64_witness :
  ClientStatsPayload_Unmarshal [x29; x01; x02] ClientStatsPayload_zero
  = Fail ErrUnexpectedEOF.
Proof.
  destruct (ClientStatsPayload_Unmarshal_unknown_fixed64 x29 [x01; x02]
              ClientStatsPayload_zero) as [_ Hcut].
  - vm_compute. reflexivity.
  - reflexivity.
  - vm_compute. discriminate.
  - vm_compute. reflexivity.
  - apply Hcut. vm_compute. reflexivity.
Defined.
